(** * Command execution core of the GPU runtime: tracker, staging buffer, batches

    Shallow embedding of
    - [VirtualGPU::MemoryDependency] (ROCclr/runtime/device/gpu/gpuvirtual.cpp),
    - [pal::ManagedBuffer] (ROCclr/runtime/device/pal/palconstbuf.cpp),
    - batch resolution, kernel submission and markers of [gpu::VirtualGPU]
      (ROCclr/runtime/device/gpu/gpuvirtual.cpp),
    - and, of the same file, the processing of kernel arguments, the flush
      management of the DMA buffer, the delayed release of transfer buffers,
      the layout of the virtual queue, markers, the time line of profiled
      batches, copies and fills through buffers created from images, the
      [submit*] entry points with the pointers they follow, and the kernel
      descriptors of a queue,
    - [pal::ConstantBuffer] (ROCclr/runtime/device/pal/palconstbuf.cpp).

    Fixed-width integers are modelled as [Z] with the wrap-around written
    out; array indices and element counts are [nat]. *)

From Stdlib Require Import ZArith Lia Bool List.
From stdpp Require Import base list gmap.
Import ListNotations.

(** ** Machine integers *)

Definition uint64 (z : Z) : Z := (z mod 2 ^ 64)%Z.
Definition uint32 (z : Z) : Z := (z mod 2 ^ 32)%Z.

Lemma uint64_small (z : Z) : (0 <= z < 2 ^ 64)%Z -> uint64 z = z.
Proof. intros H. unfold uint64. apply Z.mod_small. exact H. Qed.

Lemma uint32_small (z : Z) : (0 <= z < 2 ^ 32)%Z -> uint32 z = z.
Proof. intros H. unfold uint32. apply Z.mod_small. exact H. Qed.

Lemma uint32_range (z : Z) : (0 <= uint32 z < 2 ^ 32)%Z.
Proof. unfold uint32. apply Z.mod_pos_bound. lia. Qed.

(** ** The memory dependency tracker *)

Module MemoryDependency.

(** The part of [gpu::Memory] that [validate] reads: the heap block the
    object occupies ([hbOffset()], [hbSize()], both [uint64_t]). *)
Record Memory := { hbOffset : Z; hbSize : Z }.

(** One slot of [memObjectsInQueue_]. *)
Record MemoryState := { start_ : Z; end_ : Z; readOnly_ : bool }.

(** Modelled from the spec: [MemoryState] is declared in gpuvirtual.hpp,
    which is not among the sources.  The spec has an entry hold a start
    address, an end address and a read-only flag, the three fields
    [validate] stores: two [uint64_t] and a [bool], which is padded to the
    alignment of the addresses. *)
Definition sizeof_MemoryState : nat := 8 + 8 + 8.

(** The size of a pointer to [amd::Memory], the unit of the length [clear]
    gives its [memset], on the 64-bit hosts of the runtime. *)
Definition sizeof_pointer : nat := 8.

(** The tracker.  [memObjectsInQueue_] is a heap array of
    [maxMemObjectsInQueue_] slots of which only the slots below
    [numMemObjectsInQueue_] are ever read ([validate] reads [j <
    endMemObjectsInQueue_], [clear] reads [j < numMemObjectsInQueue_]); the
    slots from [numMemObjectsInQueue_] on are written before they are read
    again.  The model keeps the slots below [numMemObjectsInQueue_], so the
    counter is the length of the list.  The code never compares the index
    of a store with the size of the array, and neither does the model: a
    state with [numMemObjectsInQueue_ > maxMemObjectsInQueue_] is one whose
    last store went past the end of the allocation.

    [overrun_] is not a field of the class.  It accounts for the memory
    behind the array, which the [memset] of [clear] can reach: it is the
    number of bytes behind the end of the array
    ([sizeof_MemoryState * maxMemObjectsInQueue_] bytes from its start) up to
    which a [memset] has cleared since [create], 0 when none has left the
    array. *)
Record tracker := {
  memObjectsInQueue_ : list MemoryState;
  endMemObjectsInQueue_ : nat;
  maxMemObjectsInQueue_ : nat;
  overrun_ : nat
}.

Definition numMemObjectsInQueue_ (t : tracker) : nat :=
  length (memObjectsInQueue_ t).

(** [MemoryDependency::create]: the constructor leaves an empty tracker and
    [create] records the capacity. *)
Definition create (numMemObj : nat) : tracker :=
  {| memObjectsInQueue_ := [];
     endMemObjectsInQueue_ := 0;
     maxMemObjectsInQueue_ := numMemObj;
     overrun_ := 0 |}.

(** The body of the dependency loop of [validate] for one busy slot. *)
Definition dependency (curStart curEnd : Z) (readOnly : bool)
    (busy : MemoryState) : bool :=
  let busyStart := start_ busy in
  let busyEnd := end_ busy in
  (((busyStart <=? curStart)%Z && (curStart <? busyEnd)%Z)
   || ((busyStart <? curEnd)%Z && (curEnd <=? busyEnd)%Z)
   || ((curStart <=? busyStart)%Z && (busyEnd <=? curEnd)%Z))
  && (negb (readOnly_ busy) || negb readOnly).

(** The copy loop of [clear]:
    [for (i = 0, j = end; j < num; i++, j++) slots[i] = slots[j]]. *)
Fixpoint preserve (fuel i j : nat) (slots : list MemoryState)
    : list MemoryState :=
  match fuel with
  | O => slots
  | S fuel' =>
      match slots !! j with
      | Some x => preserve fuel' (S i) (S j) (<[i := x]> slots)
      | None => slots
      end
  end.

(** The [memset] of [clear] starts at [&memObjectsInQueue_[i]] and its
    length is the size of a pointer times [numMemObjectsInQueue_].  This is
    the byte behind the last one it clears, counted from the start of the
    array; [i] is the index the copy loop ends with and [num] the count
    before it is reduced. *)
Definition memset_end (i num : nat) : nat :=
  (sizeof_MemoryState * i + sizeof_pointer * num)%nat.

(** [MemoryDependency::clear(all)].  The copy loop ends with [i] the number
    of entries it has kept, which is the new [numMemObjectsInQueue_].  The
    [memset] after the loop starts at slot [i], so it changes none of the
    entries that are kept; its length is a pointer for each entry counted
    before the call, whatever room is left behind slot [i], so it can run
    past the end of the array: [overrun_] records how far. *)
Definition clear (all : bool) (t : tracker) : tracker :=
  if (0 <? numMemObjectsInQueue_ t)%nat then
    let endq := if all then numMemObjectsInQueue_ t
                else endMemObjectsInQueue_ t in
    let slots := preserve (numMemObjectsInQueue_ t) 0 endq
                   (memObjectsInQueue_ t) in
    let i := (numMemObjectsInQueue_ t - endq)%nat in
    {| memObjectsInQueue_ := take i slots;
       endMemObjectsInQueue_ := 0;
       maxMemObjectsInQueue_ := maxMemObjectsInQueue_ t;
       overrun_ :=
         Nat.max (overrun_ t)
           (memset_end i (numMemObjectsInQueue_ t)
            - sizeof_MemoryState * maxMemObjectsInQueue_ t) |}
  else t.

(** Modelled from the spec: [MemoryDependency::newKernel] is declared in
    gpuvirtual.hpp, which is not among the sources.  The spec has it
    "advance the boundary" between the entries of already dispatched kernels
    and those of the kernel being prepared: the boundary moves to the end of
    the tracked entries. *)
Definition newKernel (t : tracker) : tracker :=
  {| memObjectsInQueue_ := memObjectsInQueue_ t;
     endMemObjectsInQueue_ := numMemObjectsInQueue_ t;
     maxMemObjectsInQueue_ := maxMemObjectsInQueue_ t;
     overrun_ := overrun_ t |}.

(** The slot [validate] stores for [memory]. *)
Definition slot_of (memory : Memory) (readOnly : bool) : MemoryState :=
  let curStart := uint64 (hbOffset memory) in
  {| start_ := curStart;
     end_ := uint64 (curStart + hbSize memory);
     readOnly_ := readOnly |}.

(** [MemoryDependency::validate].  The boolean of the result tells whether
    [gpu.flushL1Cache()] was called. *)
Definition validate (t : tracker) (memory : Memory) (readOnly : bool)
    : tracker * bool :=
  if (maxMemObjectsInQueue_ t =? 0)%nat then (t, false)
  else
    let curStart := uint64 (hbOffset memory) in
    let curEnd := uint64 (curStart + hbSize memory) in
    let found :=
      existsb (dependency curStart curEnd readOnly)
        (take (endMemObjectsInQueue_ t) (memObjectsInQueue_ t)) in
    let flushL1Cache :=
      found || (maxMemObjectsInQueue_ t <=? numMemObjectsInQueue_ t + 1)%nat in
    let t1 := if flushL1Cache then clear false t else t in
    ({| memObjectsInQueue_ :=
          memObjectsInQueue_ t1 ++ [slot_of memory readOnly];
        endMemObjectsInQueue_ := endMemObjectsInQueue_ t1;
        maxMemObjectsInQueue_ := maxMemObjectsInQueue_ t1;
        overrun_ := overrun_ t1 |},
     flushL1Cache).

(** The calls a queue makes on its tracker. *)
Inductive call :=
| Validate (memory : Memory) (readOnly : bool)
| NewKernel
| Clear (all : bool).

Definition step (t : tracker) (c : call) : tracker :=
  match c with
  | Validate memory readOnly => fst (validate t memory readOnly)
  | NewKernel => newKernel t
  | Clear all => clear all t
  end.

Definition run (t : tracker) (cs : list call) : tracker :=
  fold_left step cs t.

(** *** Well-formed memory objects and tracker states *)

(** A memory object occupies a non-empty block of the 64-bit address
    space. *)
Definition Memory_ok (m : Memory) : Prop :=
  (0 <= hbOffset m)%Z /\ (0 < hbSize m)%Z /\
  (hbOffset m + hbSize m < 2 ^ 64)%Z.

Definition MemoryState_ok (e : MemoryState) : Prop :=
  (0 <= start_ e < end_ e)%Z /\ (end_ e < 2 ^ 64)%Z.

Definition tracker_ok (t : tracker) : Prop :=
  Forall MemoryState_ok (memObjectsInQueue_ t) /\
  (endMemObjectsInQueue_ t <= numMemObjectsInQueue_ t)%nat.

(** Two half-open address ranges overlap when they share an address. *)
Definition overlaps (e : MemoryState) (m : Memory) : Prop :=
  exists a : Z,
    (start_ e <= a < end_ e)%Z /\
    (hbOffset m <= a < hbOffset m + hbSize m)%Z.

(** A hazard: an entry recorded before the boundary overlaps the new range,
    and the two accesses are not both read-only. *)
Definition hazard (t : tracker) (m : Memory) (readOnly : bool) : Prop :=
  exists (j : nat) (e : MemoryState),
    (j < endMemObjectsInQueue_ t)%nat /\
    memObjectsInQueue_ t !! j = Some e /\
    overlaps e m /\
    ~ (readOnly_ e = true /\ readOnly = true).

(** The entries [validate] compares a new range with: those below the
    boundary. *)
Definition compared (t : tracker) : list MemoryState :=
  take (endMemObjectsInQueue_ t) (memObjectsInQueue_ t).

(** One kernel with three buffer arguments, none overlapping another. *)
Definition three_buffers : list call :=
  [ NewKernel;
    Validate {| hbOffset := 0; hbSize := 256 |} true;
    Validate {| hbOffset := 4096; hbSize := 256 |} true;
    Validate {| hbOffset := 8192; hbSize := 256 |} true ].

(** *** Properties of the tracker *)

(** *** The copy loop *)

Lemma preserve_spec (fuel : nat) :
  forall (i j : nat) (slots : list MemoryState),
    (i <= j)%nat -> (length slots - j <= fuel)%nat ->
    take (i + (length slots - j)) (preserve fuel i j slots)
    = take i slots ++ drop j slots.
Proof.
  induction fuel as [|fuel IH]; intros i j slots Hij Hfuel; simpl.
  - assert (Hj : (length slots <= j)%nat) by lia.
    rewrite (drop_ge slots j Hj), app_nil_r.
    replace (length slots - j)%nat with 0%nat by lia.
    now rewrite Nat.add_0_r.
  - destruct (slots !! j) as [x|] eqn:Hx.
    + pose proof (lookup_lt_Some _ _ _ Hx) as Hlt.
      specialize (IH (S i) (S j) (<[i := x]> slots)).
      rewrite length_insert in IH.
      replace (S i + (length slots - S j))%nat
        with (i + (length slots - j))%nat in IH by lia.
      rewrite IH by lia.
      rewrite (take_S_r (<[i := x]> slots) i x)
        by (apply list_lookup_insert_eq; lia).
      rewrite take_insert_ge by lia.
      rewrite drop_insert_lt by lia.
      rewrite (drop_S slots x j Hx).
      now rewrite <- app_assoc.
    + pose proof (lookup_ge_None_1 _ _ Hx) as Hj.
      rewrite (drop_ge slots j Hj), app_nil_r.
      replace (length slots - j)%nat with 0%nat by lia.
      now rewrite Nat.add_0_r.
Qed.

(** [clear(false)] keeps exactly the entries recorded since the boundary;
    [clear(true)] keeps none. *)
Lemma clear_entries (all : bool) (t : tracker) :
  memObjectsInQueue_ (clear all t)
  = if all then [] else drop (endMemObjectsInQueue_ t) (memObjectsInQueue_ t).
Proof.
  unfold clear, numMemObjectsInQueue_.
  destruct (0 <? length (memObjectsInQueue_ t))%nat eqn:Hn.
  - cbn [memObjectsInQueue_]. destruct all.
    + rewrite Nat.sub_diag. reflexivity.
    + destruct (le_lt_dec (length (memObjectsInQueue_ t))
                  (endMemObjectsInQueue_ t)) as [Hge|Hlt].
      * replace (length (memObjectsInQueue_ t) - endMemObjectsInQueue_ t)%nat
          with 0%nat by lia.
        now rewrite drop_ge.
      * pose proof (preserve_spec (length (memObjectsInQueue_ t)) 0
                      (endMemObjectsInQueue_ t) (memObjectsInQueue_ t)) as H.
        simpl in H. rewrite H; [reflexivity | lia | lia].
  - apply Nat.ltb_ge in Hn.
    assert (Hnil : memObjectsInQueue_ t = []).
    { destruct (memObjectsInQueue_ t); [reflexivity | simpl in Hn; lia]. }
    rewrite Hnil. destruct all; [reflexivity | now rewrite drop_nil].
Qed.

Lemma clear_end (all : bool) (t : tracker) :
  tracker_ok t -> endMemObjectsInQueue_ (clear all t) = 0%nat.
Proof.
  intros [_ Hend]. unfold clear.
  destruct (0 <? numMemObjectsInQueue_ t)%nat eqn:Hn; [reflexivity|].
  apply Nat.ltb_ge in Hn. lia.
Qed.

(** *** Preservation of well-formedness *)

Lemma create_ok (numMemObj : nat) : tracker_ok (create numMemObj).
Proof. split; [constructor | simpl; lia]. Qed.

Lemma newKernel_ok (t : tracker) : tracker_ok t -> tracker_ok (newKernel t).
Proof. intros [H _]. split; [exact H | simpl; unfold numMemObjectsInQueue_; simpl; lia]. Qed.

Lemma clear_ok (all : bool) (t : tracker) :
  tracker_ok t -> tracker_ok (clear all t).
Proof.
  intros Hok. pose proof Hok as [H _]. split.
  - rewrite clear_entries. destruct all; [constructor | now apply Forall_drop].
  - rewrite clear_end by assumption. lia.
Qed.

Lemma slot_of_ok (m : Memory) (readOnly : bool) :
  Memory_ok m ->
  slot_of m readOnly
  = {| start_ := hbOffset m; end_ := (hbOffset m + hbSize m)%Z;
       readOnly_ := readOnly |}.
Proof.
  intros (H0 & H1 & H2). unfold slot_of.
  rewrite (uint64_small (hbOffset m)) by lia.
  rewrite uint64_small by lia. reflexivity.
Qed.

Lemma validate_ok (t : tracker) (m : Memory) (readOnly : bool) :
  tracker_ok t -> Memory_ok m -> tracker_ok (fst (validate t m readOnly)).
Proof.
  intros Hok Hm. unfold validate.
  destruct (maxMemObjectsInQueue_ t =? 0)%nat; [exact Hok|].
  cbn [fst].
  set (flushed := _ || _).
  assert (H1 : tracker_ok (if flushed then clear false t else t))
    by (destruct flushed; [now apply clear_ok | exact Hok]).
  destruct H1 as [HF Hend]. split; cbn [memObjectsInQueue_ endMemObjectsInQueue_].
  - apply Forall_app. split; [exact HF|].
    constructor; [|constructor].
    rewrite slot_of_ok by assumption.
    destruct Hm as (H0 & H1 & H2). unfold MemoryState_ok. simpl. lia.
  - unfold numMemObjectsInQueue_ in *. cbn [memObjectsInQueue_].
    rewrite length_app. simpl. lia.
Qed.

(** *** The dependency test against half-open range overlap *)

Lemma dependency_overlaps (e : MemoryState) (m : Memory) (readOnly : bool) :
  MemoryState_ok e -> Memory_ok m ->
  dependency (hbOffset m) (hbOffset m + hbSize m) readOnly e = true
  <-> overlaps e m /\ ~ (readOnly_ e = true /\ readOnly = true).
Proof.
  intros [He1 He2] (H0 & H1 & H2). unfold dependency, overlaps.
  rewrite andb_true_iff, !orb_true_iff, !andb_true_iff, !negb_true_iff.
  rewrite !Z.leb_le, !Z.ltb_lt.
  split.
  - intros [Hrange Hrw]. split.
    + destruct Hrange as [[[Ha Hb]|[Ha Hb]]|[Ha Hb]].
      * exists (hbOffset m). lia.
      * exists (hbOffset m + hbSize m - 1)%Z. lia.
      * exists (start_ e). lia.
    + intros [Hr1 Hr2]. destruct Hrw; congruence.
  - intros [[a [Ha1 Ha2]] Hrw]. split.
    + destruct (Z_le_gt_dec (start_ e) (hbOffset m)); [left; left; lia|].
      destruct (Z_le_gt_dec (hbOffset m + hbSize m) (end_ e));
        [left; right; lia | right; lia].
    + destruct (readOnly_ e), readOnly; auto.
      exfalso. apply Hrw. split; reflexivity.
Qed.

Lemma found_hazard (t : tracker) (m : Memory) (readOnly : bool) :
  tracker_ok t -> Memory_ok m ->
  existsb (dependency (hbOffset m) (hbOffset m + hbSize m) readOnly)
    (take (endMemObjectsInQueue_ t) (memObjectsInQueue_ t)) = true
  <-> hazard t m readOnly.
Proof.
  intros [HF _] Hm. rewrite existsb_exists. unfold hazard. split.
  - intros (e & Hin & Hdep).
    apply list_elem_of_In, list_elem_of_lookup in Hin as [j Hj].
    apply lookup_take_Some in Hj as [Hj Hlt].
    exists j, e. split; [exact Hlt|]. split; [exact Hj|].
    apply dependency_overlaps; try assumption.
    rewrite Forall_lookup in HF. exact (HF j e Hj).
  - intros (j & e & Hlt & Hj & Hov & Hrw).
    exists e. split.
    + apply list_elem_of_In, list_elem_of_lookup. exists j.
      apply lookup_take_Some. split; assumption.
    + apply dependency_overlaps; try (split; assumption); try assumption.
      rewrite Forall_lookup in HF. exact (HF j e Hj).
Qed.

(** C1.  On a tracker with positive capacity whose entries are well formed,
    [validate] of a memory object that occupies a non-empty block of the
    64-bit address space calls [flushL1Cache] if and only if (a) an entry
    recorded before [endMemObjectsInQueue_] overlaps the half-open range
    [[hbOffset, hbOffset + hbSize)] while the entry and the new access are
    not both read-only, or (b) the entry count would reach
    [maxMemObjectsInQueue_]; and in either case the new range is stored
    behind the entries that are kept (all of them without a flush, those of
    the current kernel after one).  The boundary is 0 after a flush and
    unchanged without one, so the new range is stored behind the boundary:
    the later [validate] calls of the same kernel compare with the entries
    that were before the boundary and were kept, not with the new range,
    which is compared with from the next [newKernel] on. *)
Theorem validate_flush_iff (t : tracker) (m : Memory) (readOnly : bool) :
  (0 < maxMemObjectsInQueue_ t)%nat ->
  tracker_ok t ->
  Memory_ok m ->
  (snd (validate t m readOnly) = true
   <-> hazard t m readOnly
       \/ (maxMemObjectsInQueue_ t <= numMemObjectsInQueue_ t + 1)%nat)
  /\ memObjectsInQueue_ (fst (validate t m readOnly))
     = (if snd (validate t m readOnly)
        then drop (endMemObjectsInQueue_ t) (memObjectsInQueue_ t)
        else memObjectsInQueue_ t)
       ++ [{| start_ := hbOffset m; end_ := (hbOffset m + hbSize m)%Z;
              readOnly_ := readOnly |}]
  /\ numMemObjectsInQueue_ (fst (validate t m readOnly))
     = ((if snd (validate t m readOnly)
         then numMemObjectsInQueue_ t - endMemObjectsInQueue_ t
         else numMemObjectsInQueue_ t) + 1)%nat
  /\ endMemObjectsInQueue_ (fst (validate t m readOnly))
     = (if snd (validate t m readOnly) then 0%nat
        else endMemObjectsInQueue_ t)
  /\ compared (fst (validate t m readOnly))
     = (if snd (validate t m readOnly) then [] else compared t)
  /\ compared (newKernel (fst (validate t m readOnly)))
     = memObjectsInQueue_ (fst (validate t m readOnly)).
Proof.
  intros Hmax Hok Hm.
  assert (Hstart : uint64 (hbOffset m) = hbOffset m)
    by (destruct Hm as (H0 & H1 & H2); apply uint64_small; lia).
  assert (Hend : uint64 (hbOffset m + hbSize m) = (hbOffset m + hbSize m)%Z)
    by (destruct Hm as (H0 & H1 & H2); apply uint64_small; lia).
  assert (Hnew : compared (newKernel (fst (validate t m readOnly)))
                 = memObjectsInQueue_ (fst (validate t m readOnly))).
  { unfold compared, newKernel, numMemObjectsInQueue_.
    cbn [endMemObjectsInQueue_ memObjectsInQueue_]. apply firstn_all. }
  split; [|split; [|split; [|split; [|split; [|exact Hnew]]]]]; clear Hnew;
    unfold compared, validate;
    (destruct (maxMemObjectsInQueue_ t =? 0)%nat eqn:Hz;
       [apply Nat.eqb_eq in Hz; lia|]);
    cbn [fst snd]; rewrite Hstart, Hend;
    set (found := existsb _ _);
    set (limit := (maxMemObjectsInQueue_ t <=? numMemObjectsInQueue_ t + 1)%nat);
    assert (Hentries :
      memObjectsInQueue_ (if found || limit then clear false t else t)
      = if found || limit
        then drop (endMemObjectsInQueue_ t) (memObjectsInQueue_ t)
        else memObjectsInQueue_ t)
      by (destruct (found || limit); [apply (clear_entries false) | reflexivity]);
    assert (Hboundary :
      endMemObjectsInQueue_ (if found || limit then clear false t else t)
      = if found || limit then 0%nat else endMemObjectsInQueue_ t)
      by (destruct (found || limit); [now apply clear_end | reflexivity]).
  - rewrite orb_true_iff. unfold found, limit.
    rewrite found_hazard by assumption. now rewrite Nat.leb_le.
  - cbn [memObjectsInQueue_]. rewrite Hentries.
    now rewrite slot_of_ok by assumption.
  - unfold numMemObjectsInQueue_ at 1. cbn [memObjectsInQueue_].
    rewrite length_app, Hentries. simpl.
    destruct (found || limit); [|reflexivity].
    rewrite length_drop. reflexivity.
  - cbn [endMemObjectsInQueue_]. exact Hboundary.
  - cbn [endMemObjectsInQueue_ memObjectsInQueue_].
    rewrite Hboundary, Hentries.
    destruct (found || limit); [reflexivity|].
    destruct Hok as [_ Hle]. unfold numMemObjectsInQueue_ in Hle.
    now rewrite take_app_le by exact Hle.
Qed.

Lemma validate_flush_iff_witness :
  let t := newKernel (fst (validate (create 8)
                             {| hbOffset := 0; hbSize := 1024 |} false)) in
  let m := {| hbOffset := 512; hbSize := 512 |} in
  (snd (validate t m true) = true
   <-> hazard t m true
       \/ (maxMemObjectsInQueue_ t <= numMemObjectsInQueue_ t + 1)%nat)
  /\ memObjectsInQueue_ (fst (validate t m true))
     = (if snd (validate t m true)
        then drop (endMemObjectsInQueue_ t) (memObjectsInQueue_ t)
        else memObjectsInQueue_ t)
       ++ [{| start_ := 512; end_ := (512 + 512)%Z; readOnly_ := true |}]
  /\ numMemObjectsInQueue_ (fst (validate t m true))
     = ((if snd (validate t m true)
         then numMemObjectsInQueue_ t - endMemObjectsInQueue_ t
         else numMemObjectsInQueue_ t) + 1)%nat
  /\ endMemObjectsInQueue_ (fst (validate t m true))
     = (if snd (validate t m true) then 0%nat
        else endMemObjectsInQueue_ t)
  /\ compared (fst (validate t m true))
     = (if snd (validate t m true) then [] else compared t)
  /\ compared (newKernel (fst (validate t m true)))
     = memObjectsInQueue_ (fst (validate t m true)).
Proof.
  apply (validate_flush_iff
           (newKernel (fst (validate (create 8)
                              {| hbOffset := 0; hbSize := 1024 |} false)))
           {| hbOffset := 512; hbSize := 512 |} true).
  - simpl. lia.
  - apply newKernel_ok, validate_ok.
    + apply create_ok.
    + unfold Memory_ok. simpl. lia.
  - unfold Memory_ok. simpl. lia.
Defined.

(** Without the conditions on the memory object, and for the later calls
    of the same kernel, the flush decision is another one.  The tracker holds
    a write of bytes 0..1023 by an earlier kernel.  An access of size 0
    at byte 16 shares no address with the entry and the count is far from
    the capacity, yet [validate] flushes: the first comparison of
    [dependency] only looks at where the access starts.  And a second write
    of bytes 0..1023 by the kernel that has just written them does not
    flush: the first one was stored behind the boundary. *)
Lemma validate_empty_access_flushes :
  let t := newKernel (fst (validate (create 8)
                             {| hbOffset := 0; hbSize := 1024 |} false)) in
  let empty_access := {| hbOffset := 16; hbSize := 0 |} in
  let write := {| hbOffset := 0; hbSize := 1024 |} in
  (snd (validate t empty_access true) = true
   /\ ~ hazard t empty_access true
   /\ ~ (maxMemObjectsInQueue_ t <= numMemObjectsInQueue_ t + 1)%nat)
  /\ (let t' := fst (validate (newKernel (create 8)) write false) in
      memObjectsInQueue_ t'
      = [{| start_ := 0; end_ := 1024; readOnly_ := false |}]
      /\ snd (validate t' write false) = false).
Proof.
  cbv zeta. split; [split; [|split]|split].
  - vm_compute. reflexivity.
  - intros (j & e & _ & _ & (a & _ & Ha) & _). cbn in Ha. lia.
  - vm_compute. lia.
  - vm_compute. reflexivity.
  - vm_compute. reflexivity.
Qed.

(** The flush decision on the scenario of the witness: the kernel's
    read-only access to bytes 512..1023 meets the earlier write of bytes
    0..1023, so the cache is flushed and the earlier entry dropped. *)
Example validate_write_then_read :
  validate
    (newKernel (fst (validate (create 8)
                       {| hbOffset := 0; hbSize := 1024 |} false)))
    {| hbOffset := 512; hbSize := 512 |} true
  = ({| memObjectsInQueue_ :=
          [{| start_ := 512; end_ := 1024; readOnly_ := true |}];
        endMemObjectsInQueue_ := 0;
        maxMemObjectsInQueue_ := 8;
        overrun_ := 0 |}, true).
Proof. vm_compute. reflexivity. Qed.

(** Two read-only accesses to the same bytes do not flush. *)
Example validate_read_then_read :
  snd (validate
         (newKernel (fst (validate (create 8)
                            {| hbOffset := 0; hbSize := 1024 |} true)))
         {| hbOffset := 512; hbSize := 512 |} true) = false.
Proof. vm_compute. reflexivity. Qed.

(** *** The capacity of the tracker *)

(** Without a flush the entry count stays below the capacity; with a flush
    it is one more than the number of entries of the current kernel. *)
Lemma validate_count (t : tracker) (m : Memory) (readOnly : bool) :
  (0 < maxMemObjectsInQueue_ t)%nat ->
  numMemObjectsInQueue_ (fst (validate t m readOnly))
  = if snd (validate t m readOnly)
    then (numMemObjectsInQueue_ t - endMemObjectsInQueue_ t + 1)%nat
    else (numMemObjectsInQueue_ t + 1)%nat.
Proof.
  intros Hmax. unfold validate.
  destruct (maxMemObjectsInQueue_ t =? 0)%nat eqn:Hz;
    [apply Nat.eqb_eq in Hz; lia|].
  cbn [fst snd]. set (flushed := _ || _).
  unfold numMemObjectsInQueue_ at 1. cbn [memObjectsInQueue_].
  rewrite length_app. simpl. destruct flushed; [|reflexivity].
  rewrite (clear_entries false), length_drop. reflexivity.
Qed.

(** C2.  On a tracker of capacity 2, one kernel that validates three
    buffers ends with three tracked entries: the second and third
    [validate] flush at the limit, but [clear(false)] keeps the entries of
    the kernel being assembled, and the third entry is stored at index 2 of
    a two-slot array. *)
Theorem capacity_exceeded :
  let t := run (create 2) three_buffers in
  numMemObjectsInQueue_ t = 3%nat /\
  maxMemObjectsInQueue_ t = 2%nat /\
  (maxMemObjectsInQueue_ t < numMemObjectsInQueue_ t)%nat /\
  snd (validate (run (create 2) (take 3 three_buffers))
         {| hbOffset := 8192; hbSize := 256 |} true) = true.
Proof. vm_compute. repeat split; lia. Qed.

End MemoryDependency.

(** ** The managed staging buffer *)

Module ManagedBuffer.

(** The part of a slab ([pal::Memory], a [pal::Resource]) that
    [ManagedBuffer] uses: its GPU virtual address ([vmAddress()]), the CPU
    address it is mapped at ([data()]), and whether an event of earlier GPU
    work is still recorded on it. *)
Record Memory := { vmAddress : Z; data : Z; busy : bool }.

Definition null_slab : Memory := {| vmAddress := 0; data := 0; busy := false |}.

(** Modelled from the spec: [Resource::wait] is declared in palresource.hpp
    and defined in a file that is not among the sources.  The spec has the
    resource track the events of outstanding GPU work and [wait] block until
    the recorded event has completed: afterwards no work is in flight on the
    slab. *)
Definition wait (m : Memory) : Memory :=
  {| vmAddress := vmAddress m; data := data m; busy := false |}.

(** What a call does besides returning: the waits it performs. *)
Inductive event := Wait (slab : nat).

(** The fields of [ManagedBuffer]; [size_], [wrtOffset_] and [activeBuffer_]
    are 32-bit as the [uint32_t size] of the constructor and the
    [uint32_t count] of [reserve] are. *)
Record ManagedBuffer := {
  buffers_ : list Memory;
  activeBuffer_ : nat;
  size_ : Z;
  wrtOffset_ : Z;
  wrtAddress_ : Z
}.

Definition MemAlignment : Z := 256.

(** Modelled from the spec: [amd::alignUp] is defined in utils/util.hpp,
    which is not among the sources.  The spec has [reserve] "align size up to
    a fixed alignment": the least multiple of the alignment that is not below
    the value. *)
Definition alignUp (value alignment : Z) : Z :=
  ((value + alignment - 1) / alignment * alignment)%Z.

(** A staging buffer of three slabs of 1024 bytes, 768 of which are handed
    out in the first slab; work is still in flight on the second slab. *)
Definition staging : ManagedBuffer :=
  {| buffers_ := [ {| vmAddress := 65536; data := 1048576; busy := true |};
                   {| vmAddress := 131072; data := 2097152; busy := true |};
                   {| vmAddress := 196608; data := 3145728; busy := false |} ];
     activeBuffer_ := 0;
     size_ := 1024;
     wrtOffset_ := 768;
     wrtAddress_ := 1048576 |}.

(** A buffer over the three slabs of [staging], taken as slabs of [size]
    bytes, as the constructor and [create] leave it: nothing is handed out
    and the first slab is active. *)
Definition created (size : Z) : ManagedBuffer :=
  {| buffers_ := buffers_ staging;
     activeBuffer_ := 0;
     size_ := size;
     wrtOffset_ := 0;
     wrtAddress_ := 1048576 |}.

Section Reserve.

(** [MaxNumberOfBuffers] is a constant of palconstbuf.hpp, which is not among
    the sources. *)
Variable MaxNumberOfBuffers : nat.

Definition slab (b : ManagedBuffer) : Memory :=
  default null_slab (buffers_ b !! activeBuffer_ b).

(** The constructor followed by [ManagedBuffer::create]: [slabs] holds, for
    each of the [MaxNumberOfBuffers] buffers, the mapped slab or [None] when
    its creation or its mapping failed (then [create] returns [false]). *)
Definition create (size : Z) (slabs : list (option Memory))
    : option ManagedBuffer :=
  if (length slabs =? MaxNumberOfBuffers)%nat then
    match mapM id slabs with
    | Some buffers =>
        Some {| buffers_ := buffers;
                activeBuffer_ := 0;
                size_ := uint32 size;
                wrtOffset_ := 0;
                wrtAddress_ := data (default null_slab (buffers !! 0%nat)) |}
    | None => None
    end
  else None.

(** The rotation branch of [reserve]. *)
Definition rotate (b : ManagedBuffer) : ManagedBuffer :=
  let active := ((activeBuffer_ b + 1) mod MaxNumberOfBuffers)%nat in
  let buffers := alter wait active (buffers_ b) in
  {| buffers_ := buffers;
     activeBuffer_ := active;
     size_ := size_ b;
     wrtOffset_ := 0;
     wrtAddress_ := data (default null_slab (buffers !! active)) |}.

(** What [reserve] hands back: the CPU address it returns, the GPU address
    it stores through [gpu_address], and the waits it performed. *)
Record reservation := {
  cpu_address : Z;
  gpu_address : Z;
  waits : list event
}.

(** [ManagedBuffer::reserve]. *)
Definition reserve (b : ManagedBuffer) (size : Z)
    : ManagedBuffer * reservation :=
  let count := uint32 (alignUp size MemAlignment) in
  let rotated := (size_ b <? uint32 (wrtOffset_ b + count))%Z in
  let b1 := if rotated then rotate b else b in
  let w := if rotated then [Wait (activeBuffer_ b1)] else [] in
  ({| buffers_ := buffers_ b1;
      activeBuffer_ := activeBuffer_ b1;
      size_ := size_ b1;
      wrtOffset_ := uint32 (wrtOffset_ b1 + count);
      wrtAddress_ := wrtAddress_ b1 |},
   {| cpu_address := uint64 (wrtAddress_ b1 + wrtOffset_ b1);
      gpu_address := uint64 (vmAddress (slab b1) + wrtOffset_ b1);
      waits := w |}).

(** *** Invariants of a created buffer *)

(** A slab is mapped in the CPU and the GPU address space without wrapping
    around either. *)
Definition slab_ok (capacity : Z) (m : Memory) : Prop :=
  (0 <= vmAddress m)%Z /\ (vmAddress m + capacity < 2 ^ 64)%Z /\
  (0 <= data m)%Z /\ (data m + capacity < 2 ^ 64)%Z.

Definition ManagedBuffer_ok (b : ManagedBuffer) : Prop :=
  length (buffers_ b) = MaxNumberOfBuffers /\
  (activeBuffer_ b < MaxNumberOfBuffers)%nat /\
  (0 <= size_ b < 2 ^ 32)%Z /\
  (0 <= wrtOffset_ b < 2 ^ 32)%Z /\
  (wrtOffset_ b mod MemAlignment = 0)%Z /\
  wrtAddress_ b = data (slab b) /\
  Forall (slab_ok (size_ b)) (buffers_ b).

(** The cursor has not left the slab, and the slab is smaller than 2 GiB, so
    that cursor plus a fitting size does not wrap around 32 bits. *)
Definition cursor_in_slab (b : ManagedBuffer) : Prop :=
  (wrtOffset_ b <= size_ b)%Z /\ (size_ b < 2 ^ 31)%Z.

Lemma alignUp_multiple (size : Z) : (alignUp size MemAlignment mod MemAlignment = 0)%Z.
Proof. unfold alignUp. apply Z.mod_mul. unfold MemAlignment. lia. Qed.

Lemma alignUp_ge (size : Z) : (size <= alignUp size MemAlignment < size + MemAlignment)%Z.
Proof.
  unfold alignUp, MemAlignment.
  pose proof (Z.div_mod (size + 256 - 1) 256 ltac:(lia)) as Hdm.
  pose proof (Z.mod_pos_bound (size + 256 - 1) 256 ltac:(lia)) as Hb.
  lia.
Qed.

Lemma uint32_multiple (z : Z) :
  (z mod MemAlignment = 0)%Z -> (uint32 z mod MemAlignment = 0)%Z.
Proof.
  unfold uint32, MemAlignment. intros H.
  apply Z.mod_divide in H; [|lia]. apply Z.mod_divide; [lia|].
  rewrite Z.mod_eq by lia.
  apply Z.divide_sub_r; [exact H|].
  apply Z.divide_mul_l. exists (2 ^ 24)%Z. reflexivity.
Qed.

Lemma rotate_lookup (b : ManagedBuffer) :
  ManagedBuffer_ok b ->
  exists m : Memory,
    buffers_ b !! ((activeBuffer_ b + 1) mod MaxNumberOfBuffers)%nat = Some m /\
    slab (rotate b) = wait m.
Proof.
  intros (Hlen & Hact & _).
  assert (Hlt : ((activeBuffer_ b + 1) mod MaxNumberOfBuffers
                 < length (buffers_ b))%nat)
    by (rewrite Hlen; apply Nat.mod_upper_bound; lia).
  destruct (lookup_lt_is_Some_2 _ _ Hlt) as [m Hm].
  exists m. split; [exact Hm|].
  unfold slab, rotate. cbn [buffers_ activeBuffer_].
  rewrite list_lookup_alter_eq, Hm. reflexivity.
Qed.

Lemma rotate_ok (b : ManagedBuffer) :
  ManagedBuffer_ok b -> ManagedBuffer_ok (rotate b).
Proof.
  intros Hok. pose proof Hok as (Hlen & Hact & Hsize & Hoff & Hal & Hadr & Hslabs).
  unfold ManagedBuffer_ok.
  split; [|split; [|split; [|split; [|split; [|split]]]]].
  - unfold rotate. cbn [buffers_]. now rewrite length_alter.
  - unfold rotate. cbn [activeBuffer_]. apply Nat.mod_upper_bound. lia.
  - exact Hsize.
  - unfold rotate. cbn [wrtOffset_]. lia.
  - reflexivity.
  - reflexivity.
  - unfold rotate. cbn [buffers_ size_].
    rewrite Forall_lookup in Hslabs. apply Forall_lookup. intros i m Hi.
    rewrite list_lookup_alter in Hi.
    destruct (decide _) as [->|Hne].
    + destruct (buffers_ b !! _) as [m0|] eqn:Hm0; [|discriminate].
      injection Hi as <-. exact (Hslabs _ _ Hm0).
    + exact (Hslabs _ _ Hi).
Qed.

Lemma slab_lookup (b : ManagedBuffer) :
  ManagedBuffer_ok b -> buffers_ b !! activeBuffer_ b = Some (slab b).
Proof.
  intros (Hlen & Hact & _). unfold slab.
  destruct (lookup_lt_is_Some_2 (buffers_ b) (activeBuffer_ b)) as [m Hm];
    [lia|].
  now rewrite Hm.
Qed.

Lemma slab_slab_ok (b : ManagedBuffer) :
  ManagedBuffer_ok b -> slab_ok (size_ b) (slab b).
Proof.
  intros Hok. pose proof (slab_lookup b Hok) as Hl.
  destruct Hok as (_ & _ & _ & _ & _ & _ & Hslabs).
  rewrite Forall_lookup in Hslabs. exact (Hslabs _ _ Hl).
Qed.

Lemma rotate_idle (b : ManagedBuffer) :
  ManagedBuffer_ok b -> busy (slab (rotate b)) = false.
Proof.
  intros Hok. destruct (rotate_lookup b Hok) as (m & _ & ->). reflexivity.
Qed.

(** [reserve] keeps the invariants of a created buffer, whatever the size. *)
Lemma reserve_ok (b : ManagedBuffer) (size : Z) :
  ManagedBuffer_ok b -> ManagedBuffer_ok (fst (reserve b size)).
Proof.
  intros Hok. unfold reserve. cbn [fst].
  set (count := uint32 (alignUp size MemAlignment)).
  set (b1 := if (size_ b <? uint32 (wrtOffset_ b + count))%Z
             then rotate b else b).
  assert (Hok1 : ManagedBuffer_ok b1)
    by (unfold b1; destruct (_ <? _)%Z; [now apply rotate_ok | exact Hok]).
  pose proof Hok1 as (Hlen & Hact & Hsize & Hoff & Hal & Hadr & Hslabs).
  split; [exact Hlen|]. split; [exact Hact|]. split; [exact Hsize|].
  split; [apply uint32_range|].
  split; [|split; [exact Hadr | exact Hslabs]].
  cbn [wrtOffset_]. apply uint32_multiple.
  rewrite Z.add_mod by (unfold MemAlignment; lia).
  rewrite Hal. unfold count. rewrite uint32_multiple by apply alignUp_multiple.
  reflexivity.
Qed.

(** The two branches of [reserve], by the test the code makes in 32-bit
    arithmetic. *)
Lemma reserve_cases (b : ManagedBuffer) (size : Z) :
  ManagedBuffer_ok b ->
  let count := uint32 (alignUp size MemAlignment) in
  let b' := fst (reserve b size) in
  let r := snd (reserve b size) in
  if (size_ b <? uint32 (wrtOffset_ b + count))%Z
  then activeBuffer_ b' = ((activeBuffer_ b + 1) mod MaxNumberOfBuffers)%nat
       /\ waits r = [Wait (activeBuffer_ b')]
       /\ busy (slab b') = false
       /\ gpu_address r = vmAddress (slab b')
       /\ cpu_address r = data (slab b')
       /\ wrtOffset_ b' = count
  else activeBuffer_ b' = activeBuffer_ b
       /\ buffers_ b' = buffers_ b
       /\ waits r = []
       /\ gpu_address r = uint64 (vmAddress (slab b) + wrtOffset_ b)
       /\ cpu_address r = uint64 (wrtAddress_ b + wrtOffset_ b)
       /\ wrtOffset_ b' = uint32 (wrtOffset_ b + count).
Proof.
  intros Hok count b' r. unfold b', r, reserve. cbn [fst snd].
  fold count.
  destruct (size_ b <? uint32 (wrtOffset_ b + count))%Z eqn:Hrot.
  - cbn [activeBuffer_ waits gpu_address cpu_address wrtOffset_].
    pose proof (rotate_ok b Hok) as Hok1.
    pose proof (slab_slab_ok _ Hok1) as (Hv0 & Hv1 & Hd0 & Hd1).
    pose proof Hok1 as (_ & _ & Hsize & _ & _ & Hadr & _).
    assert (Hslab : forall off adr,
              slab {| buffers_ := buffers_ (rotate b);
                      activeBuffer_ := activeBuffer_ (rotate b);
                      size_ := size_ (rotate b);
                      wrtOffset_ := off; wrtAddress_ := adr |}
              = slab (rotate b)) by reflexivity.
    rewrite Hslab.
    repeat split.
    + now apply rotate_idle.
    + change (wrtOffset_ (rotate b)) with 0%Z. rewrite Z.add_0_r.
      apply uint64_small. lia.
    + change (wrtOffset_ (rotate b)) with 0%Z. rewrite Z.add_0_r.
      rewrite Hadr. apply uint64_small. lia.
    + change (wrtOffset_ (rotate b)) with 0%Z. rewrite Z.add_0_l.
      unfold count, uint32. rewrite Z.mod_mod by lia. reflexivity.
  - repeat split.
Qed.

(** C3.  On a created buffer, when the write cursor plus the aligned size
    is below 2^32, so that the 32-bit sum of [reserve] is that sum:
    [reserve] rotates exactly when the write cursor plus the aligned size
    exceeds the slab capacity.  It then makes slab
    [(activeBuffer_ + 1) mod MaxNumberOfBuffers] the active one, waits on
    that slab (and on no other) so that no earlier work is in flight on it,
    hands out its first byte, and leaves the cursor at the aligned size, the
    aligned size behind the start of the new slab; otherwise the active slab
    and all slabs stay as they are, nothing is waited on, the bytes at the
    cursor are handed out and the cursor moves on by the aligned size. *)
Theorem reserve_rotation (b : ManagedBuffer) (size : Z) :
  ManagedBuffer_ok b ->
  (0 <= size)%Z ->
  (wrtOffset_ b + alignUp size MemAlignment < 2 ^ 32)%Z ->
  let aligned := alignUp size MemAlignment in
  let b' := fst (reserve b size) in
  let r := snd (reserve b size) in
  if (size_ b <? wrtOffset_ b + aligned)%Z
  then activeBuffer_ b' = ((activeBuffer_ b + 1) mod MaxNumberOfBuffers)%nat
       /\ waits r = [Wait (activeBuffer_ b')]
       /\ busy (slab b') = false
       /\ gpu_address r = vmAddress (slab b')
       /\ cpu_address r = data (slab b')
       /\ wrtOffset_ b' = aligned
  else activeBuffer_ b' = activeBuffer_ b
       /\ buffers_ b' = buffers_ b
       /\ waits r = []
       /\ gpu_address r = uint64 (vmAddress (slab b) + wrtOffset_ b)
       /\ cpu_address r = uint64 (wrtAddress_ b + wrtOffset_ b)
       /\ wrtOffset_ b' = (wrtOffset_ b + aligned)%Z.
Proof.
  intros Hok Hsize Hsum. cbv zeta.
  pose proof (reserve_cases b size Hok) as H. cbv zeta in H.
  pose proof (alignUp_ge size) as Hge.
  pose proof Hok as (_ & _ & _ & Hoff & _).
  assert (Hcount : uint32 (alignUp size MemAlignment) = alignUp size MemAlignment)
    by (apply uint32_small; lia).
  rewrite Hcount in H.
  rewrite (uint32_small (wrtOffset_ b + alignUp size MemAlignment)) in H by lia.
  exact H.
Qed.

(** C10.  On a created buffer with slabs of less than 2 GiB whose cursor
    is inside the slab (as it is after [create] and, by this theorem, after
    every reservation that fits), a reservation whose aligned size is at most
    the slab capacity gets a CPU address and a GPU address at one and the
    same offset from the mapped address and the GPU address of the active
    slab; the offset is a multiple of 256, and the bytes from the offset up
    to the offset plus the aligned size lie inside that slab. *)
Theorem reserve_within_slab (b : ManagedBuffer) (size : Z) :
  ManagedBuffer_ok b ->
  cursor_in_slab b ->
  (0 <= size < 2 ^ 32)%Z ->
  (alignUp size MemAlignment <= size_ b)%Z ->
  let b' := fst (reserve b size) in
  let r := snd (reserve b size) in
  let offset := (gpu_address r - vmAddress (slab b'))%Z in
  buffers_ b' !! activeBuffer_ b' = Some (slab b')
  /\ (cpu_address r - data (slab b'))%Z = offset
  /\ (offset mod 256 = 0)%Z
  /\ (0 <= offset)%Z
  /\ (offset + alignUp size MemAlignment <= size_ b')%Z
  /\ ManagedBuffer_ok b'
  /\ cursor_in_slab b'.
Proof.
  intros Hok [Hcur Hcap] Hsize Hfit. cbv zeta.
  pose proof (reserve_ok b size Hok) as Hok'.
  pose proof (alignUp_ge size) as Hge.
  pose proof Hok as (_ & _ & Hsz & Hoff & Hal & Hadr & _).
  assert (Hcount : uint32 (alignUp size MemAlignment) = alignUp size MemAlignment)
    by (apply uint32_small; lia).
  revert Hok'. unfold reserve. cbn [fst snd]. rewrite Hcount.
  destruct (size_ b <? uint32 (wrtOffset_ b + alignUp size MemAlignment))%Z
    eqn:Hrot; intros Hok'.
  - pose proof (rotate_ok b Hok) as Hok1.
    pose proof (slab_slab_ok _ Hok1) as (Hv0 & Hv1 & Hd0 & Hd1).
    pose proof Hok1 as (_ & _ & _ & _ & _ & Hadr1 & _).
    cbn [gpu_address cpu_address buffers_ activeBuffer_ size_ wrtOffset_].
    change (slab {| buffers_ := buffers_ (rotate b);
                    activeBuffer_ := activeBuffer_ (rotate b);
                    size_ := size_ (rotate b);
                    wrtOffset_ := uint32 (wrtOffset_ (rotate b)
                                          + alignUp size MemAlignment);
                    wrtAddress_ := wrtAddress_ (rotate b) |})
      with (slab (rotate b)).
    rewrite Hadr1.
    change (wrtOffset_ (rotate b)) with 0%Z. rewrite !Z.add_0_r.
    change (size_ (rotate b)) with (size_ b) in *.
    rewrite !uint64_small by lia.
    split; [apply (slab_lookup _ Hok1)|].
    split; [lia|]. split; [now rewrite Z.sub_diag|]. split; [lia|].
    split; [lia|]. split; [exact Hok'|].
    split; [|exact Hcap]. cbn [wrtOffset_ size_].
    rewrite Z.add_0_l, uint32_small by lia. exact Hfit.
  - apply Z.ltb_ge in Hrot.
    assert (Hsum : uint32 (wrtOffset_ b + alignUp size MemAlignment)
                   = (wrtOffset_ b + alignUp size MemAlignment)%Z)
      by (apply uint32_small; lia).
    rewrite Hsum in *.
    pose proof (slab_slab_ok _ Hok) as (Hv0 & Hv1 & Hd0 & Hd1).
    cbn [gpu_address cpu_address buffers_ activeBuffer_ size_ wrtOffset_].
    change (slab {| buffers_ := buffers_ b;
                    activeBuffer_ := activeBuffer_ b;
                    size_ := size_ b;
                    wrtOffset_ := (wrtOffset_ b + alignUp size MemAlignment)%Z;
                    wrtAddress_ := wrtAddress_ b |})
      with (slab b).
    rewrite Hadr.
    rewrite !uint64_small by lia.
    split; [apply (slab_lookup _ Hok)|].
    split; [lia|].
    replace (vmAddress (slab b) + wrtOffset_ b - vmAddress (slab b))%Z
      with (wrtOffset_ b) by lia.
    split; [exact Hal|]. split; [lia|]. split; [lia|].
    split; [rewrite <- Hadr; exact Hok'|].
    split; [|exact Hcap]. cbn [wrtOffset_ size_]. lia.
Qed.

End Reserve.

(** A created buffer satisfies the invariants. *)
Lemma created_buffer_ok (N : nat) (size : Z) (slabs : list (option Memory))
    (b : ManagedBuffer) :
  create N size slabs = Some b ->
  (0 < N)%nat ->
  Forall (fun s => forall m, s = Some m -> slab_ok (uint32 size) m) slabs ->
  ManagedBuffer_ok N b /\ wrtOffset_ b = 0%Z /\ activeBuffer_ b = 0%nat.
Proof.
  unfold create. intros Hc HN Hslabs.
  destruct (length slabs =? N)%nat eqn:Hlen; [|discriminate].
  apply Nat.eqb_eq in Hlen.
  destruct (mapM id slabs) as [buffers|] eqn:Hm; [|discriminate].
  injection Hc as <-.
  apply mapM_Some in Hm.
  pose proof (Forall2_length _ _ _ Hm) as Hl2.
  split; [|split; reflexivity].
  unfold ManagedBuffer_ok. cbn [buffers_ activeBuffer_ size_ wrtOffset_ wrtAddress_].
  split; [lia|]. split; [exact HN|]. split; [apply uint32_range|].
  split; [lia|]. split; [reflexivity|]. split; [reflexivity|].
  apply Forall_lookup. intros i m Hi.
  destruct (Forall2_lookup_r _ _ _ _ _ Hm Hi) as (s & Hs & Hid).
  rewrite Forall_lookup in Hslabs. apply (Hslabs i s Hs). exact Hid.
Qed.

(** After [create] the cursor is inside the slab. *)
Lemma created_cursor_in_slab (N : nat) (size : Z)
    (slabs : list (option Memory)) (b : ManagedBuffer) :
  create N size slabs = Some b ->
  (0 <= size < 2 ^ 31)%Z ->
  cursor_in_slab b.
Proof.
  unfold create. intros Hc Hsize.
  destruct (length slabs =? N)%nat; [|discriminate].
  destruct (mapM id slabs) as [buffers|]; [|discriminate].
  injection Hc as <-. unfold cursor_in_slab. cbn [wrtOffset_ size_].
  rewrite uint32_small by lia. lia.
Qed.

Lemma staging_ok : ManagedBuffer_ok 3 staging.
Proof.
  unfold ManagedBuffer_ok, staging, slab, slab_ok, MemAlignment.
  cbn [buffers_ activeBuffer_ size_ wrtOffset_ wrtAddress_ length].
  split; [reflexivity|]. split; [lia|]. split; [lia|]. split; [lia|].
  split; [reflexivity|]. split; [reflexivity|].
  apply Forall_cons_2; [cbn; lia|].
  apply Forall_cons_2; [cbn; lia|].
  apply Forall_cons_2; [cbn; lia|].
  apply Forall_nil_2.
Qed.

Lemma created_is_create (size : Z) :
  (0 <= size < 2 ^ 32)%Z ->
  create 3 size (map Some (buffers_ staging)) = Some (created size).
Proof.
  intros H. unfold create, created. cbn. now rewrite uint32_small by exact H.
Qed.

Lemma created_ok (size : Z) :
  (0 <= size <= 2 ^ 31)%Z -> ManagedBuffer_ok 3 (created size).
Proof.
  intros H.
  apply (created_buffer_ok 3 size (map Some (buffers_ staging)) (created size)).
  - apply created_is_create. lia.
  - lia.
  - rewrite uint32_small by lia.
    unfold staging, slab_ok. cbn [buffers_ map].
    repeat (apply Forall_cons_2;
            [intros m [= <-]; cbn [vmAddress data]; lia|]).
    apply Forall_nil_2.
Qed.

Lemma reserve_rotation_witness :
  let b' := fst (reserve 3 staging 512) in
  let r := snd (reserve 3 staging 512) in
  activeBuffer_ b' = 1%nat
  /\ waits r = [Wait 1]
  /\ busy (slab b') = false
  /\ gpu_address r = 131072%Z
  /\ cpu_address r = 2097152%Z
  /\ wrtOffset_ b' = 512%Z.
Proof.
  apply (reserve_rotation 3 staging 512 staging_ok).
  - lia.
  - vm_compute. reflexivity.
Defined.

(** The rotation test is made on the 32-bit sum.  On [staging], whose cursor
    is at 768 of 1024 bytes, a reservation of 4294967040 bytes, which is its
    own aligned size, exceeds the slab capacity by far; the 32-bit sum of
    cursor and size is 512 and passes the test: the active slab stays, no
    slab is waited on, the bytes at the cursor are handed out and the cursor
    moves back to 512. *)
Lemma reserve_wraps_without_rotation :
  let size := 4294967040%Z in
  let b' := fst (reserve 3 staging size) in
  let r := snd (reserve 3 staging size) in
  (0 <= size < 2 ^ 32)%Z
  /\ alignUp size MemAlignment = size
  /\ (size_ staging < wrtOffset_ staging + alignUp size MemAlignment)%Z
  /\ activeBuffer_ b' = activeBuffer_ staging
  /\ buffers_ b' = buffers_ staging
  /\ waits r = []
  /\ gpu_address r = (vmAddress (slab staging) + 768)%Z
  /\ wrtOffset_ staging = 768%Z
  /\ wrtOffset_ b' = 512%Z.
Proof.
  cbv zeta. split; [lia|].
  repeat split; vm_compute; reflexivity.
Qed.

(** A reservation that fits stays in the active slab and waits on
    nothing. *)
Example reserve_fits :
  reserve 3 staging 200
  = ({| buffers_ := buffers_ staging; activeBuffer_ := 0; size_ := 1024;
        wrtOffset_ := 1024; wrtAddress_ := 1048576 |},
     {| cpu_address := 1048576 + 768; gpu_address := 65536 + 768;
        waits := [] |}).
Proof. vm_compute. reflexivity. Qed.

Lemma reserve_within_slab_witness :
  let b' := fst (reserve 3 staging 100) in
  let r := snd (reserve 3 staging 100) in
  let offset := (gpu_address r - vmAddress (slab b'))%Z in
  buffers_ b' !! activeBuffer_ b' = Some (slab b')
  /\ (cpu_address r - data (slab b'))%Z = offset
  /\ (offset mod 256 = 0)%Z
  /\ (0 <= offset)%Z
  /\ (offset + alignUp 100 MemAlignment <= size_ b')%Z
  /\ ManagedBuffer_ok 3 b'
  /\ cursor_in_slab b'.
Proof.
  apply (reserve_within_slab 3 staging 100 staging_ok).
  - unfold cursor_in_slab, staging. simpl. lia.
  - lia.
  - vm_compute. discriminate.
Defined.

(** The precondition on the cursor matters only after a reservation that
    is larger than a slab: such a call is handed the start of the next slab
    and leaves the cursor past its end. *)
Example reserve_oversize :
  wrtOffset_ (fst (reserve 3 staging 4096)) = 4096%Z /\
  gpu_address (snd (reserve 3 staging 4096)) = 131072%Z.
Proof. vm_compute. split; reflexivity. Qed.

(** Without the conditions on the cursor and on the capacity, a reservation
    whose aligned size is at most the capacity can be handed bytes outside
    the slab.  On a buffer as [create] leaves it, with slabs of 1024 bytes, a
    reservation of 4294967040 bytes rotates and leaves the cursor at
    4294967040; the reservation of 256 bytes that follows passes the 32-bit
    test, stays in the slab and is handed the offset 4294967040.  And on
    slabs of 2 GiB, where a reservation of the whole slab fits, the second
    such reservation is handed the offset 2 GiB, the end of the slab. *)
Lemma reserve_outside_slab :
  (let b1 := fst (reserve 3 (created 1024) 4294967040) in
   let b2 := fst (reserve 3 b1 256) in
   let r := snd (reserve 3 b1 256) in
   let offset := (gpu_address r - vmAddress (slab b2))%Z in
   ManagedBuffer_ok 3 b1
   /\ (alignUp 256 MemAlignment <= size_ b1)%Z
   /\ activeBuffer_ b2 = activeBuffer_ b1
   /\ waits r = []
   /\ offset = 4294967040%Z
   /\ (cpu_address r - data (slab b2))%Z = offset
   /\ ~ (offset + alignUp 256 MemAlignment <= size_ b2)%Z)
  /\ (let size := (2 ^ 31)%Z in
      let b1 := fst (reserve 3 (created size) size) in
      let b2 := fst (reserve 3 b1 size) in
      let r := snd (reserve 3 b1 size) in
      let offset := (gpu_address r - vmAddress (slab b2))%Z in
      ManagedBuffer_ok 3 b1
      /\ (wrtOffset_ b1 <= size_ b1)%Z
      /\ (alignUp size MemAlignment <= size_ b1)%Z
      /\ activeBuffer_ b2 = activeBuffer_ (created size)
      /\ waits (snd (reserve 3 (created size) size)) ++ waits r = []
      /\ offset = size_ b2
      /\ ~ (offset + alignUp size MemAlignment <= size_ b2)%Z).
Proof.
  cbv zeta. split.
  - split; [apply reserve_ok, created_ok; lia|].
    repeat split;
      first [ vm_compute; reflexivity
            | vm_compute; discriminate
            | vm_compute; intros H; apply H; reflexivity ].
  - split; [apply reserve_ok, created_ok; lia|].
    repeat split;
      first [ vm_compute; reflexivity
            | vm_compute; discriminate
            | vm_compute; intros H; apply H; reflexivity ].
Qed.

End ManagedBuffer.

(** ** Commands, batches and the queue *)

Module VirtualGPU.

Local Open Scope Z_scope.

(** *** Command status *)

(** Execution status and error codes of OpenCL ([CL/cl.h]). *)
Definition CL_COMPLETE : Z := 0.
Definition CL_RUNNING : Z := 1.
Definition CL_SUBMITTED : Z := 2.
Definition CL_QUEUED : Z := 3.
Definition CL_OUT_OF_RESOURCES : Z := -5.
Definition CL_MAP_FAILURE : Z := -12.
Definition CL_INVALID_VALUE : Z := -30.
Definition CL_INVALID_OPERATION : Z := -59.

(** The part of [amd::Command] the queue looks at: the identity of the
    object (commands are compared by address), its status, and whether
    profiling is enabled for it. *)
Record Command := {
  ident : nat;
  status : Z;
  profilingInfo_enabled : bool
}.

(** Modelled from the spec: [amd::Event::setStatus] is defined in
    platform/command.cpp, which is not among the sources.  The spec gives a
    command the states SUBMITTED, RUNNING, COMPLETE in that order, has a
    failed command carry an error status, and lets no command regress: a
    status is replaced only by a later one (a smaller code), and a command
    that is complete or has failed keeps its status. *)
Definition setStatus (c : Command) (s : Z) : Command :=
  if (status c <=? CL_COMPLETE) || (status c <=? s) then c
  else {| ident := ident c; status := s;
          profilingInfo_enabled := profilingInfo_enabled c |}.

(** *** GPU events and batches *)

(** [GpuEvent] as paldefs.hpp declares it. *)
Record GpuEvent := { id : Z; engineId_ : Z }.

Definition InvalidID : Z := 2 ^ 30 - 1.

Definition isValid (e : GpuEvent) : bool := negb (id e =? InvalidID).

Definition invalidate (e : GpuEvent) : GpuEvent :=
  {| id := InvalidID; engineId_ := engineId_ e |}.

(** A batch: the commands from [head_] along [getNext()], the event of each
    engine ([AllEngines] of them), and the last timestamp object. *)
Record CommandBatch := {
  head_ : list Command;
  events_ : list GpuEvent;
  lastTS_ : option nat
}.

(** What resolving a batch leaves behind: the commands with their final
    status, the statuses reported by [LogPrintfError], whether the waiting
    event was among the commands, and whether the engines were waited for
    ([waitEventLock]). *)
Record resolution := {
  commands : list Command;
  errors : list Z;
  found : bool;
  waited : bool
}.

Definition is_waiting (waitingEvent : option nat) (c : Command) : bool :=
  match waitingEvent with
  | Some w => (ident c =? w)%nat
  | None => false
  end.

(** The body of the loop that walks the commands of a batch, shared by
    [awaitCompletion] and [profilingCollectResults]; [last] tells that
    [current = head->getNext()] is [NULL]. *)
Definition complete_one (head : Command) (last : bool) : Command * list Z :=
  if status head =? CL_SUBMITTED then
    (setStatus (setStatus head CL_RUNNING) CL_COMPLETE, [])
  else if status head =? CL_RUNNING then
    (setStatus head CL_COMPLETE, [])
  else if negb (status head =? CL_COMPLETE) && negb last then
    (head, [status head])
  else (head, []).

(** The loop [while (NULL != head) { ...; head = current; }]. *)
Fixpoint complete (cmds : list Command) : list Command * list Z :=
  match cmds with
  | [] => ([], [])
  | head :: rest =>
      let r := complete_one head (match rest with [] => true | _ => false end) in
      let rs := complete rest in
      (fst r :: fst rs, snd r ++ snd rs)
  end.

(** [VirtualGPU::profilingCollectResults], without the timestamps: it waits
    for the engines and walks the commands as above. *)
Definition profilingCollectResults (cb : CommandBatch)
    (waitingEvent : option nat) : resolution :=
  match head_ cb with
  | [] => {| commands := []; errors := []; found := false; waited := false |}
  | _ =>
      let r := complete (head_ cb) in
      {| commands := fst r; errors := snd r;
         found := existsb (is_waiting waitingEvent) (head_ cb);
         waited := true |}
  end.

(** [VirtualGPU::awaitCompletion].  A batch always has commands ([flush]
    creates one only for a list that is not [NULL]); for a batch without any
    the model takes the [return found] of the [NULL] test. *)
Definition awaitCompletion (cb : CommandBatch) (waitingEvent : option nat)
    : resolution :=
  match head_ cb with
  | [] => {| commands := []; errors := []; found := false; waited := false |}
  | head :: rest =>
      if profilingInfo_enabled head then
        profilingCollectResults cb waitingEvent
      else
        let r := complete (setStatus head CL_RUNNING :: rest) in
        {| commands := fst r; errors := snd r;
           found := existsb (is_waiting waitingEvent) (head_ cb);
           waited := true |}
  end.

(** A status the walk does not expect: none of SUBMITTED, RUNNING,
    COMPLETE. *)
Definition unexpected (c : Command) : bool :=
  negb (status c =? CL_SUBMITTED) && negb (status c =? CL_RUNNING)
  && negb (status c =? CL_COMPLETE).

(** The status a walk leaves on each command. *)
Definition completed (c : Command) : Z :=
  if (status c =? CL_SUBMITTED) || (status c =? CL_RUNNING)
  then CL_COMPLETE else status c.

(** How resolution changes one command: it keeps its identity, its status
    does not go back, a command found SUBMITTED or RUNNING ends COMPLETE, and
    any other command keeps the status it had. *)
Definition resolves (c c' : Command) : Prop :=
  ident c' = ident c
  /\ status c' <= status c
  /\ (status c = CL_SUBMITTED \/ status c = CL_RUNNING ->
      status c' = CL_COMPLETE)
  /\ (status c' = CL_COMPLETE \/ status c' = status c).

(** A batch of three commands: one submitted, one whose submission failed,
    one running. *)
Definition batch_with_failure : CommandBatch :=
  {| head_ := [ {| ident := 1; status := CL_SUBMITTED;
                   profilingInfo_enabled := false |};
                {| ident := 2; status := CL_INVALID_OPERATION;
                   profilingInfo_enabled := false |};
                {| ident := 3; status := CL_RUNNING;
                   profilingInfo_enabled := false |} ];
     events_ := [ {| id := 17; engineId_ := 0 |};
                  {| id := InvalidID; engineId_ := 0 |} ];
     lastTS_ := None |}.

(** A batch whose last command failed at submission. *)
Definition batch_failed_last : CommandBatch :=
  {| head_ := [ {| ident := 1; status := CL_SUBMITTED;
                   profilingInfo_enabled := false |};
                {| ident := 2; status := CL_INVALID_OPERATION;
                   profilingInfo_enabled := false |} ];
     events_ := [ {| id := 17; engineId_ := 0 |};
                  {| id := InvalidID; engineId_ := 0 |} ];
     lastTS_ := None |}.

(** *** The batch queue and [flush] *)

(** The part of [VirtualGPU] that [flush] and [submitMarker] use: the last
    event of each engine ([cal_.events_]), the last timestamp object
    ([cal_.lastTS_]), the list of outstanding batches and
    [state_.forceWait_]. *)
Record queue := {
  cal_events_ : list GpuEvent;
  cal_lastTS_ : option nat;
  cbList_ : list CommandBatch;
  forceWait_ : bool
}.

(** One step of batch resolution: the batch taken from the front of
    [cbList_] and what [awaitCompletion] made of it. *)
Record resolved := {
  batch : CommandBatch;
  outcome : resolution
}.

(** The loop over the outstanding batches at the end of [flush]: the
    batches it resolved, in the order it resolved them, and the batches it
    left in [cbList_].  [isDone] asks the hardware whether an event has
    completed. *)
Fixpoint resolve (isDone : GpuEvent -> bool) (wait : bool)
    (cbs : list CommandBatch) : list resolved * list CommandBatch :=
  match cbs with
  | [] => ([], [])
  | it :: rest =>
      let finished := forallb isDone (events_ it) in
      if finished || wait then
        let r := {| batch := it; outcome := awaitCompletion it None |} in
        let rs := resolve isDone wait rest in
        (r :: fst rs, snd rs)
      else ([], it :: rest)
  end.

(** The batch [flush] creates for a list that is not [NULL], with the
    events and the timestamp of the queue saved in it. *)
Definition new_batch (gpu : queue) (cmdList : list Command)
    : list CommandBatch :=
  match cmdList with
  | [] => []
  | _ => [ {| head_ := cmdList; events_ := cal_events_ gpu;
              lastTS_ := cal_lastTS_ gpu |} ]
  end.

(** [VirtualGPU::flush(list, wait)]; [cmdList] is the list, empty for [NULL].
    The result holds the queue on exit and the batches resolved. *)
Definition flush (isDone : GpuEvent -> bool) (gpu : queue)
    (cmdList : list Command) (wait : bool) : queue * list resolved :=
  let gpuCommand := existsb isValid (cal_events_ gpu) in
  let forceWait :=
    if negb gpuCommand && (match cbList_ gpu with [] => true | _ => false end)
    then true else forceWait_ gpu in
  let cb := new_batch gpu cmdList in
  let events := map invalidate (cal_events_ gpu) in
  let cbList := cbList_ gpu ++ cb in
  let wait := wait || forceWait in
  let rs := resolve isDone wait cbList in
  ({| cal_events_ := events;
      cal_lastTS_ := None;
      cbList_ := snd rs;
      forceWait_ := false |},
   fst rs).

(** The loop of [submitMarker] over the outstanding batches, which stops
    after the batch that holds the waiting event. *)
Fixpoint await_marker (waitingEvent : nat) (cbs : list CommandBatch)
    : bool * list resolved * list CommandBatch :=
  match cbs with
  | [] => (false, [], [])
  | it :: rest =>
      let r := {| batch := it;
                  outcome := awaitCompletion it (Some waitingEvent) |} in
      if found (outcome r) then (true, [r], rest)
      else
        let '(foundEvent, rs, remaining) := await_marker waitingEvent rest in
        (foundEvent, r :: rs, remaining)
  end.

(** [VirtualGPU::submitMarker]. *)
Definition submitMarker (gpu : queue) (waitingEvent : option nat)
    : queue * list resolved :=
  match waitingEvent with
  | None => (gpu, [])
  | Some w =>
      let '(foundEvent, rs, remaining) := await_marker w (cbList_ gpu) in
      ({| cal_events_ := cal_events_ gpu;
          cal_lastTS_ := cal_lastTS_ gpu;
          cbList_ := remaining;
          forceWait_ := if foundEvent then forceWait_ gpu else true |},
       rs)
  end.

(** A queue at rest: two engines, no event, no batch. *)
Definition idle_queue : queue :=
  {| cal_events_ := [ {| id := InvalidID; engineId_ := 0 |};
                      {| id := InvalidID; engineId_ := 0 |} ];
     cal_lastTS_ := None;
     cbList_ := [];
     forceWait_ := false |}.

(** *** Kernel submission with device-side enqueue *)

Inductive FGSStatus := FGS_DEFAULT | FGS_NO | FGS_YES.

(** What [SvmManager::FindSvmBuffer] and [getGpuMemory] find for one SVM
    pointer of the kernel: no SVM buffer, or a buffer with or without device
    memory. *)
Inductive svm_pointer :=
| svm_unknown
| svm_buffer (gpuMemory : bool).

(** What the collaborators of [submitKernelInternalHSA] answer: the printf
    buffer, the device and the kernel parameters, the kernel object
    ([dynamicParallelism()]), the context ([defDeviceQueue], with the
    hardware ring of the queue, [None] for [NULL]) and [loadArguments]. *)
Record HSAEnv := {
  printf_init : bool;
  deviceSupportFGS : bool;
  svmSystemPointersSupport : FGSStatus;
  svmPtrArray : list svm_pointer;
  dynamicParallelism : bool;
  defQueue : option nat;
  loadArguments : bool;
  printf_output : bool
}.

(** What a kernel submission does on the hardware and on the queues; the
    ring is that of the queue the action is issued on. *)
Inductive action :=
| LogError
| ProcessMemObjectsHSA
| WriteVQueueHeader (ring : nat)
| RunAqlDispatch (ring : nat)
| FlushDMA (ring : nat)
| RunScheduler (ring : nat)
| VirtualQueueDispatcherEnd (ring : nat)
| VirtualQueueHandshake (ring : nat)
| SetGpuEvent (ring : nat).

(** The loop over the SVM pointers that are not arguments: [false] when it
    returns [false] from the function. *)
Fixpoint svm_pointers (supportFineGrainedSystem : bool)
    (ptrs : list svm_pointer) : bool :=
  match ptrs with
  | [] => true
  | svm_unknown :: rest =>
      if supportFineGrainedSystem
      then svm_pointers supportFineGrainedSystem rest else false
  | svm_buffer gpuMemory :: rest =>
      if gpuMemory then svm_pointers supportFineGrainedSystem rest else false
  end.

(** The dispatch of the parent and, for a kernel with dynamic parallelism,
    of the child scheduler on the default device queue. *)
Definition dispatch (hwRing : nat) (env : HSAEnv) (gpuDefQueue : nat)
    : list action :=
  [RunAqlDispatch hwRing]
  ++ (if dynamicParallelism env
      then [FlushDMA hwRing; RunScheduler gpuDefQueue;
            VirtualQueueDispatcherEnd gpuDefQueue;
            VirtualQueueHandshake hwRing]
      else [])
  ++ [SetGpuEvent hwRing].

(** [VirtualGPU::submitKernelInternalHSA] on the queue of ring [hwRing]:
    its result and what it did. *)
Definition submitKernelInternalHSA (hwRing : nat) (env : HSAEnv)
    : bool * list action :=
  if negb (printf_init env) then (false, [LogError])
  else
    let fgs :=
      match svmSystemPointersSupport env with
      | FGS_YES => if deviceSupportFGS env then Some true else None
      | FGS_NO => Some false
      | FGS_DEFAULT => Some (deviceSupportFGS env)
      end in
    match fgs with
    | None => (false, [])
    | Some supportFineGrainedSystem =>
        if negb (svm_pointers supportFineGrainedSystem (svmPtrArray env))
        then (false, [])
        else
          let checked :=
            if dynamicParallelism env then
              match defQueue env with
              | None => inl [LogError]
              | Some gpuDefQueue =>
                  if (gpuDefQueue =? hwRing)%nat then inl [LogError]
                  else inr ([WriteVQueueHeader gpuDefQueue], gpuDefQueue)
              end
            else inr ([], hwRing) in
          match checked with
          | inl log => (false, ProcessMemObjectsHSA :: log)
          | inr (prepared, gpuDefQueue) =>
              if negb (loadArguments env)
              then (false, ProcessMemObjectsHSA :: prepared ++ [LogError])
              else
                let done := ProcessMemObjectsHSA :: prepared
                            ++ dispatch hwRing env gpuDefQueue in
                if negb (printf_output env) then (false, done ++ [LogError])
                else (true, done)
          end
    end.

(** What decides [submitKernelInternal]: whether the kernel is an HSA
    kernel, the answers for the HSA path, and the result of the AMDIL path,
    which is taken as it comes. *)
Record KernelEnv := {
  hsa : bool;
  hsa_env : HSAEnv;
  amdil_result : bool
}.

(** [VirtualGPU::submitKernelInternal]. *)
Definition submitKernelInternal (hwRing : nat) (env : KernelEnv)
    : bool * list action :=
  if hsa env then submitKernelInternalHSA hwRing (hsa_env env)
  else (amdil_result env, if amdil_result env then [] else [LogError]).

(** [VirtualGPU::submitKernel]: the command on return and what was done. *)
Definition submitKernel (hwRing : nat) (env : KernelEnv) (vcmd : Command)
    : Command * list action :=
  let r := submitKernelInternal hwRing env in
  (if fst r then vcmd else setStatus vcmd CL_INVALID_OPERATION, snd r).

(** A kernel with dynamic parallelism whose collaborators all succeed. *)
Definition parent_kernel (gpuDefQueue : nat) : KernelEnv :=
  {| hsa := true;
     hsa_env := {| printf_init := true;
                   deviceSupportFGS := false;
                   svmSystemPointersSupport := FGS_DEFAULT;
                   svmPtrArray := [svm_buffer true];
                   dynamicParallelism := true;
                   defQueue := Some gpuDefQueue;
                   loadArguments := true;
                   printf_output := true |};
     amdil_result := false |}.

Definition submitted_command : Command :=
  {| ident := 1; status := CL_SUBMITTED; profilingInfo_enabled := false |}.

(** *** Properties of batch resolution, flush and submission *)

Lemma setStatus_status (c : Command) (s : Z) :
  status (setStatus c s) = if (status c <=? CL_COMPLETE) || (status c <=? s)
                           then status c else s.
Proof. unfold setStatus. now destruct (_ || _). Qed.

Lemma complete_length (cmds : list Command) :
  length (fst (complete cmds)) = length cmds.
Proof.
  induction cmds as [|head rest IH]; [reflexivity|].
  cbn [complete fst length]. now rewrite IH.
Qed.

Lemma complete_one_errors (head : Command) (last : bool) :
  snd (complete_one head last)
  = if unexpected head && negb last then [status head] else [].
Proof.
  unfold complete_one, unexpected.
  destruct (status head =? CL_SUBMITTED); [reflexivity|].
  destruct (status head =? CL_RUNNING); [reflexivity|].
  cbn [negb andb]. now destruct (_ && _).
Qed.

(** The errors of a walk are the statuses of the unexpected commands, the
    last command excepted. *)
Lemma complete_errors (cmds : list Command) :
  snd (complete cmds)
  = map status (List.filter unexpected (removelast cmds)).
Proof.
  induction cmds as [|head rest IH]; [reflexivity|].
  cbn [complete snd]. rewrite IH, complete_one_errors.
  destruct rest as [|next rest].
  - cbn. now rewrite andb_false_r.
  - change (removelast (head :: next :: rest))
      with (head :: removelast (next :: rest)).
    cbn [List.filter negb]. rewrite andb_true_r.
    now destruct (unexpected head).
Qed.

Lemma complete_one_status (head : Command) (last : bool) :
  status (fst (complete_one head last)) = completed head.
Proof.
  unfold complete_one, completed.
  destruct (status head =? CL_SUBMITTED) eqn:H1.
  - cbn [fst orb]. rewrite !setStatus_status.
    apply Z.eqb_eq in H1. rewrite H1. reflexivity.
  - destruct (status head =? CL_RUNNING) eqn:H2.
    + cbn [fst orb]. rewrite !setStatus_status.
      apply Z.eqb_eq in H2. rewrite H2. reflexivity.
    + cbn [orb]. now destruct (_ && _).
Qed.

Lemma complete_status (cmds : list Command) :
  map status (fst (complete cmds)) = map completed cmds.
Proof.
  induction cmds as [|head rest IH]; [reflexivity|].
  cbn [complete fst map]. now rewrite IH, complete_one_status.
Qed.

Lemma setStatus_ident (c : Command) (s : Z) : ident (setStatus c s) = ident c.
Proof. unfold setStatus. now destruct (_ || _). Qed.

Lemma complete_one_resolves (c : Command) (last : bool) :
  resolves c (fst (complete_one c last)).
Proof.
  unfold resolves. rewrite complete_one_status. split.
  - unfold complete_one.
    repeat (destruct (_ =? _) || destruct (_ && _)); cbn [fst];
      now rewrite ?setStatus_ident.
  - unfold completed, CL_SUBMITTED, CL_RUNNING, CL_COMPLETE.
    destruct (Z.eqb_spec (status c) 2) as [E|E];
      destruct (Z.eqb_spec (status c) 1) as [E'|E']; cbn [orb]; lia.
Qed.

Lemma complete_resolves (cmds : list Command) :
  Forall2 resolves cmds (fst (complete cmds)).
Proof.
  induction cmds as [|head rest IH]; [constructor|].
  cbn [complete fst]. constructor; [apply complete_one_resolves | exact IH].
Qed.

(** Marking the head RUNNING before the wait and walking it afterwards. *)
Lemma marked_head_resolves (head : Command) (last : bool) :
  resolves head (fst (complete_one (setStatus head CL_RUNNING) last)).
Proof.
  destruct (complete_one_resolves (setStatus head CL_RUNNING) last)
    as (Hid & Hle & Hdone & Hkeep).
  revert Hid Hle Hdone Hkeep.
  rewrite setStatus_ident, setStatus_status.
  set (c' := fst _). unfold resolves, CL_SUBMITTED, CL_RUNNING, CL_COMPLETE.
  destruct (Z.leb_spec (status head) 0) as [H0|H0]; cbn [orb];
    [|destruct (Z.leb_spec (status head) 1) as [H1|H1]];
    intros Hid Hle Hdone Hkeep; (split; [exact Hid|]); lia.
Qed.

(** C5.  On the path without profiling, [awaitCompletion] waits for the
    engines of the batch and then leaves every command with its identity and
    a status that has not gone back; the commands found SUBMITTED or RUNNING
    (the head also when found QUEUED, as it is marked RUNNING first) end
    COMPLETE, every other command keeps its status, and the errors reported
    are the statuses of the commands in an unexpected status (none of
    SUBMITTED, RUNNING, COMPLETE) other than the last command of the list,
    for which nothing is reported. *)
Theorem awaitCompletion_statuses (cb : CommandBatch) (waitingEvent : option nat)
    (head : Command) (rest : list Command) :
  head_ cb = head :: rest ->
  profilingInfo_enabled head = false ->
  let r := awaitCompletion cb waitingEvent in
  let marked := setStatus head CL_RUNNING :: rest in
  waited r = true
  /\ Forall2 resolves (head_ cb) (commands r)
  /\ map status (commands r) = map completed marked
  /\ errors r = map status (List.filter unexpected (removelast marked)).
Proof.
  intros Hcb Hprof. cbv zeta. unfold awaitCompletion. rewrite Hcb, Hprof.
  cbn [waited commands errors].
  split; [reflexivity|]. split; [|split].
  - cbn [complete fst]. constructor.
    + apply marked_head_resolves.
    + apply complete_resolves.
  - apply complete_status.
  - apply complete_errors.
Qed.

Lemma awaitCompletion_statuses_witness :
  let r := awaitCompletion batch_with_failure None in
  waited r = true
  /\ Forall2 resolves (head_ batch_with_failure) (commands r)
  /\ map status (commands r) = [CL_COMPLETE; CL_INVALID_OPERATION; CL_COMPLETE]
  /\ errors r = [CL_INVALID_OPERATION].
Proof.
  exact (awaitCompletion_statuses batch_with_failure None
           {| ident := 1; status := CL_SUBMITTED;
              profilingInfo_enabled := false |}
           [ {| ident := 2; status := CL_INVALID_OPERATION;
                profilingInfo_enabled := false |};
             {| ident := 3; status := CL_RUNNING;
                profilingInfo_enabled := false |} ]
           eq_refl eq_refl).
Defined.

(** The last command of a batch is in an unexpected status: it does not end
    COMPLETE, and no error is reported for it. *)
Lemma awaitCompletion_last_unreported :
  let r := awaitCompletion batch_failed_last None in
  map status (commands r) = [CL_COMPLETE; CL_INVALID_OPERATION]
  /\ errors r = []
  /\ ~ Forall (fun c => status c = CL_COMPLETE) (commands r).
Proof.
  cbv zeta. split; [reflexivity|]. split; [reflexivity|].
  intros H. apply Forall_cons_1 in H as [_ H].
  apply Forall_cons_1 in H as [H _]. discriminate H.
Qed.

(** The loop takes batches from the front only. *)
Lemma resolve_fifo (isDone : GpuEvent -> bool) (wait : bool)
    (cbs : list CommandBatch) :
  map batch (fst (resolve isDone wait cbs)) ++ snd (resolve isDone wait cbs) = cbs.
Proof.
  induction cbs as [|it rest IH]; [reflexivity|].
  cbn [resolve]. destruct (_ || wait); [|reflexivity].
  cbn [fst snd map app]. now rewrite IH.
Qed.

Lemma resolve_outcome (isDone : GpuEvent -> bool) (wait : bool)
    (cbs : list CommandBatch) :
  Forall (fun r => outcome r = awaitCompletion (batch r) None)
    (fst (resolve isDone wait cbs)).
Proof.
  induction cbs as [|it rest IH]; [constructor|].
  cbn [resolve]. destruct (_ || wait); [|constructor].
  cbn [fst]. constructor; [reflexivity | exact IH].
Qed.

(** A blocking loop resolves every batch. *)
Lemma resolve_blocking (isDone : GpuEvent -> bool)
    (cbs : list CommandBatch) :
  resolve isDone true cbs
  = (map (fun it => {| batch := it; outcome := awaitCompletion it None |}) cbs,
     []).
Proof.
  induction cbs as [|it rest IH]; [reflexivity|].
  cbn [resolve]. rewrite orb_true_r, IH. reflexivity.
Qed.

(** What the loop resolves without blocking is the beginning of what it
    resolves when blocking. *)
Lemma resolve_prefix (isDone : GpuEvent -> bool) (wait : bool)
    (cbs : list CommandBatch) :
  fst (resolve isDone wait cbs)
  = take (length (fst (resolve isDone wait cbs))) (fst (resolve isDone true cbs)).
Proof.
  induction cbs as [|it rest IH]; [reflexivity|].
  cbn [resolve]. rewrite orb_true_r.
  destruct (_ || wait); [|reflexivity].
  cbn [fst length take]. now rewrite <- IH.
Qed.

(** Resolving what an early loop left, by a blocking loop, completes the
    work of a single blocking loop. *)
Lemma resolve_resume (isDone : GpuEvent -> bool) (wait : bool)
    (cbs : list CommandBatch) :
  fst (resolve isDone wait cbs) ++ fst (resolve isDone true (snd (resolve isDone wait cbs)))
  = fst (resolve isDone true cbs).
Proof.
  induction cbs as [|it rest IH]; [reflexivity|].
  cbn [resolve]. rewrite orb_true_r.
  destruct (_ || wait).
  - cbn [fst snd app]. now rewrite IH.
  - cbn [fst snd app resolve]. now rewrite orb_true_r.
Qed.

(** When every outstanding batch has finished, the early loop does what the
    blocking loop does. *)
Lemma resolve_finished (isDone : GpuEvent -> bool)
    (cbs : list CommandBatch) :
  Forall (fun it => forallb isDone (events_ it) = true) cbs ->
  resolve isDone false cbs = resolve isDone true cbs.
Proof.
  induction 1 as [|it rest Hit _ IH]; [reflexivity|].
  cbn [resolve]. rewrite Hit, IH. reflexivity.
Qed.

Lemma invalidate_id (e : GpuEvent) : isValid e = false -> invalidate e = e.
Proof.
  unfold isValid, invalidate. destruct e as [i g]. cbn [id engineId_].
  intros H. apply negb_false_iff, Z.eqb_eq in H. now subst i.
Qed.

Lemma existsb_invalidate (events : list GpuEvent) :
  existsb isValid (map invalidate events) = false.
Proof. induction events as [|e l IH]; [reflexivity | exact IH]. Qed.

Lemma map_invalidate_id (events : list GpuEvent) :
  existsb isValid events = false -> map invalidate events = events.
Proof.
  induction events as [|e l IH]; [reflexivity|].
  cbn [existsb map]. intros H. apply orb_false_iff in H as [He Hl].
  now rewrite (invalidate_id e He), IH.
Qed.

Lemma map_invalidate_twice (events : list GpuEvent) :
  map invalidate (map invalidate events) = map invalidate events.
Proof. apply map_invalidate_id, existsb_invalidate. Qed.

(** C4.  [flush] resolves batches from the front of the queue only: the
    batches it resolves, in the order it resolves them, followed by the
    batches it leaves, are the queue as it stood with the new batch at its
    end, and each is resolved by [awaitCompletion].  The blocking flush
    resolves all of them; the early flush resolves a beginning of what the
    blocking flush resolves, with the same outcome for each batch, and all
    of it when every batch has finished; and a blocking flush after the
    early one resolves the rest, in order, and leaves the queue as the single
    blocking flush leaves it. *)
Theorem flush_fifo (isDone : GpuEvent -> bool) (gpu : queue)
    (cmdList : list Command) (wait : bool) :
  let queued := cbList_ gpu ++ new_batch gpu cmdList in
  let early := flush isDone gpu cmdList wait in
  let blocking := flush isDone gpu cmdList true in
  map batch (snd early) ++ cbList_ (fst early) = queued
  /\ Forall (fun r => outcome r = awaitCompletion (batch r) None) (snd early)
  /\ map batch (snd blocking) = queued
  /\ cbList_ (fst blocking) = []
  /\ snd early = take (length (snd early)) (snd blocking)
  /\ (Forall (fun it => forallb isDone (events_ it) = true) queued ->
      early = blocking)
  /\ (forall isDone' : GpuEvent -> bool,
        snd early ++ snd (flush isDone' (fst early) [] true) = snd blocking
        /\ fst (flush isDone' (fst early) [] true) = fst blocking).
Proof.
  cbv zeta. unfold flush. cbn [fst snd cbList_ cal_events_ cal_lastTS_ forceWait_].
  set (queued := cbList_ gpu ++ new_batch gpu cmdList).
  set (w := wait || _).
  rewrite !orb_true_l.
  split; [apply resolve_fifo|].
  split; [apply resolve_outcome|].
  split; [rewrite resolve_blocking; cbn [fst]; rewrite map_map; apply map_id|].
  split; [now rewrite resolve_blocking|].
  split; [apply resolve_prefix|].
  split.
  { intros Hfin. destruct w; [reflexivity|].
    now rewrite (resolve_finished isDone queued Hfin). }
  intros isDone'. cbn [new_batch]. rewrite app_nil_r.
  rewrite map_invalidate_twice. split.
  - rewrite (resolve_blocking isDone'), <- (resolve_blocking isDone).
    apply resolve_resume.
  - now rewrite !resolve_blocking.
Qed.

(** C8.  On a queue with no valid event and no outstanding batch, [flush]
    of the [NULL] list resolves no batch (so it waits for nothing), leaves
    the batch list empty and the events as they are, and leaves the
    force-wait flag cleared and no timestamp recorded; a second such flush
    changes nothing; and the queue is unchanged altogether when the flag was
    clear and no timestamp was recorded on entry. *)
Theorem flush_idle (isDone : GpuEvent -> bool) (gpu : queue) (wait : bool) :
  cbList_ gpu = [] ->
  existsb isValid (cal_events_ gpu) = false ->
  let gpu' := fst (flush isDone gpu [] wait) in
  snd (flush isDone gpu [] wait) = []
  /\ cbList_ gpu' = []
  /\ cal_events_ gpu' = cal_events_ gpu
  /\ cal_lastTS_ gpu' = None
  /\ forceWait_ gpu' = false
  /\ flush isDone gpu' [] wait = (gpu', [])
  /\ (forceWait_ gpu = false -> cal_lastTS_ gpu = None -> gpu' = gpu).
Proof.
  intros Hcb Hev. cbv zeta. unfold flush.
  cbn [fst snd cbList_ cal_events_ cal_lastTS_ forceWait_ new_batch].
  rewrite Hcb, Hev, (map_invalidate_id _ Hev), Hev.
  cbn [app resolve fst snd negb andb].
  do 5 (split; [reflexivity|]).
  split; [now rewrite (map_invalidate_id _ Hev)|].
  intros Hfw Hts. destruct gpu as [ev ts cbs fw].
  cbn [cal_events_ cal_lastTS_ cbList_ forceWait_] in *. now subst.
Qed.

Lemma flush_idle_witness :
  let gpu' := fst (flush (fun _ => false) idle_queue [] false) in
  snd (flush (fun _ => false) idle_queue [] false) = []
  /\ cbList_ gpu' = []
  /\ cal_events_ gpu' = cal_events_ idle_queue
  /\ cal_lastTS_ gpu' = None
  /\ forceWait_ gpu' = false
  /\ flush (fun _ => false) gpu' [] false = (gpu', [])
  /\ (forceWait_ idle_queue = false -> cal_lastTS_ idle_queue = None ->
      gpu' = idle_queue).
Proof.
  exact (flush_idle (fun _ => false) idle_queue false eq_refl eq_refl).
Defined.

(** A marker that waits for an event of the batch still being assembled
    finds no batch to search and sets the force-wait flag; the queue has no
    valid event and no outstanding batch, and a flush of the [NULL] list
    changes it: the flag is cleared. *)
Lemma flush_clears_forceWait :
  let gpu := fst (submitMarker idle_queue (Some 7%nat)) in
  let gpu' := fst (flush (fun _ => false) gpu [] false) in
  cbList_ gpu = []
  /\ existsb isValid (cal_events_ gpu) = false
  /\ forceWait_ gpu = true
  /\ forceWait_ gpu' = false
  /\ gpu' <> gpu.
Proof.
  cbv zeta. repeat split. discriminate.
Qed.

Lemma setStatus_submitted (c : Command) (s : Z) :
  status c = CL_SUBMITTED -> s < CL_COMPLETE -> status (setStatus c s) = s.
Proof.
  intros Hc Hs. rewrite setStatus_status, Hc.
  unfold CL_SUBMITTED, CL_COMPLETE in *.
  destruct (Z.leb_spec 2 0); [lia|].
  destruct (Z.leb_spec 2 s); [lia|]. reflexivity.
Qed.

(** The scheduler runs only after the ring check has passed. *)
Lemma scheduler_ring (hwRing : nat) (env : HSAEnv) (ring : nat) :
  In (RunScheduler ring) (snd (submitKernelInternalHSA hwRing env)) ->
  dynamicParallelism env = true /\ defQueue env = Some ring /\ ring <> hwRing.
Proof.
  unfold submitKernelInternalHSA, dispatch.
  destruct (printf_init env); cbn [negb];
    [|cbn; intros [H|[]]; discriminate H].
  destruct (match svmSystemPointersSupport env with
            | FGS_YES => _ | FGS_NO => _ | FGS_DEFAULT => _ end)
    as [supportFineGrainedSystem|]; [|intros []].
  destruct (svm_pointers _ _); cbn [negb]; [|intros []].
  destruct (dynamicParallelism env) eqn:Hdp.
  - destruct (defQueue env) as [gpuDefQueue|] eqn:Hq;
      [|cbn; intros [H|[H|[]]]; discriminate H].
    destruct (Nat.eqb_spec gpuDefQueue hwRing) as [Heq|Hne];
      [cbn; intros [H|[H|[]]]; discriminate H|].
    assert (Hring : ring = gpuDefQueue -> ring <> hwRing) by (intros ->; exact Hne).
    destruct (loadArguments env); cbn [negb].
    + destruct (printf_output env); cbn [negb snd app In];
        rewrite ?in_app_iff; cbn [In];
        intros H; repeat destruct H as [H|H]; try discriminate H;
        try contradiction; injection H as <-; auto.
    + cbn. intros H; repeat destruct H as [H|H]; try discriminate H;
        contradiction.
  - destruct (loadArguments env); cbn [negb].
    + destruct (printf_output env); cbn;
        intros H; repeat destruct H as [H|H]; try discriminate H;
        contradiction.
    + cbn. intros H; repeat destruct H as [H|H]; try discriminate H;
        contradiction.
Qed.

Lemma same_ring_fails (hwRing : nat) (env : HSAEnv) :
  dynamicParallelism env = true ->
  defQueue env = Some hwRing ->
  fst (submitKernelInternalHSA hwRing env) = false
  /\ ~ In (RunAqlDispatch hwRing) (snd (submitKernelInternalHSA hwRing env)).
Proof.
  intros Hdp Hq. unfold submitKernelInternalHSA. rewrite Hdp, Hq, Nat.eqb_refl.
  destruct (printf_init env); cbn [negb];
    [|split; [reflexivity | cbn; intros [H|[]]; discriminate H]].
  destruct (match svmSystemPointersSupport env with
            | FGS_YES => _ | FGS_NO => _ | FGS_DEFAULT => _ end);
    [|split; [reflexivity | intros []]].
  destruct (svm_pointers _ _); cbn [negb];
    [|split; [reflexivity | intros []]].
  split; [reflexivity|].
  cbn. intros [H|[H|[]]]; discriminate H.
Qed.

(** C9.  When a kernel with dynamic parallelism is submitted on a queue
    whose hardware ring is also the ring of the default device queue,
    [submitKernelInternalHSA] returns [false] without dispatching the kernel
    or the child scheduler, and [submitKernel] leaves the submitted command
    with [CL_INVALID_OPERATION]; and whatever the collaborators answer, a
    child scheduler that is dispatched runs on a ring other than that of the
    submitting queue. *)
Theorem child_scheduler_other_ring (hwRing : nat) (env : KernelEnv)
    (vcmd : Command) :
  hsa env = true ->
  dynamicParallelism (hsa_env env) = true ->
  defQueue (hsa_env env) = Some hwRing ->
  status vcmd = CL_SUBMITTED ->
  fst (submitKernelInternalHSA hwRing (hsa_env env)) = false
  /\ (forall ring : nat,
        ~ In (RunScheduler ring)
            (snd (submitKernelInternalHSA hwRing (hsa_env env))))
  /\ ~ In (RunAqlDispatch hwRing)
         (snd (submitKernelInternalHSA hwRing (hsa_env env)))
  /\ status (fst (submitKernel hwRing env vcmd)) = CL_INVALID_OPERATION
  /\ (forall (env' : HSAEnv) (ring : nat),
        In (RunScheduler ring) (snd (submitKernelInternalHSA hwRing env')) ->
        ring <> hwRing).
Proof.
  intros Hhsa Hdp Hq Hst.
  destruct (same_ring_fails hwRing (hsa_env env) Hdp Hq) as [Hres Hrun].
  split; [exact Hres|]. split; [|split; [exact Hrun|split]].
  - intros ring Hin.
    destruct (scheduler_ring _ _ _ Hin) as (_ & Hq' & Hne).
    rewrite Hq in Hq'. injection Hq' as <-. now apply Hne.
  - unfold submitKernel, submitKernelInternal. rewrite Hhsa, Hres.
    apply setStatus_submitted; [exact Hst | reflexivity].
  - intros env' ring Hin. now destruct (scheduler_ring _ _ _ Hin) as (_ & _ & Hne).
Qed.

Lemma child_scheduler_other_ring_witness :
  fst (submitKernelInternalHSA 0 (hsa_env (parent_kernel 0))) = false
  /\ (forall ring : nat,
        ~ In (RunScheduler ring)
            (snd (submitKernelInternalHSA 0 (hsa_env (parent_kernel 0)))))
  /\ ~ In (RunAqlDispatch 0)
         (snd (submitKernelInternalHSA 0 (hsa_env (parent_kernel 0))))
  /\ status (fst (submitKernel 0 (parent_kernel 0) submitted_command))
     = CL_INVALID_OPERATION
  /\ (forall (env' : HSAEnv) (ring : nat),
        In (RunScheduler ring) (snd (submitKernelInternalHSA 0 env')) ->
        ring <> 0%nat).
Proof.
  exact (child_scheduler_other_ring 0 (parent_kernel 0) submitted_command
           eq_refl eq_refl eq_refl eq_refl).
Defined.

(** With the default device queue on another ring the kernel is dispatched
    on the ring of the host queue and the scheduler on the ring of the device
    queue. *)
Example parent_and_scheduler :
  submitKernelInternalHSA 0 (hsa_env (parent_kernel 1))
  = (true, [ProcessMemObjectsHSA; WriteVQueueHeader 1; RunAqlDispatch 0;
            FlushDMA 0; RunScheduler 1; VirtualQueueDispatcherEnd 1;
            VirtualQueueHandshake 0; SetGpuEvent 0]).
Proof. reflexivity. Qed.

End VirtualGPU.

(** ** The tracker in use: the arguments of a kernel *)

Module KernelArguments.

Import MemoryDependency.

(** What [processMemObjectsHSA] finds for one parameter of the kernel: not
    a global pointer ([desc.type_ != T_POINTER] or [HSAIL_ADDRESS_LOCAL]), a
    pointer bound to SVM memory ([boundToSvmPointer]), or a buffer with the
    device memory found for it ([None] for [NULL]) and whether the access
    qualifier is [CL_KERNEL_ARG_ACCESS_READ_ONLY]. *)
Inductive argument :=
| not_a_buffer
| svm_bound
| buffer (memory : option Memory) (readOnly : bool).

(** The loop of [processMemObjectsHSA] over the parameters: the tracker it
    leaves and the number of calls of [flushL1Cache]. *)
Fixpoint check_parameters (t : tracker) (args : list argument)
    : tracker * nat :=
  match args with
  | [] => (t, 0%nat)
  | not_a_buffer :: rest => check_parameters t rest
  | svm_bound :: _ => (t, 1%nat)
  | buffer None _ :: rest => check_parameters t rest
  | buffer (Some memory) readOnly :: rest =>
      let v := validate t memory readOnly in
      let r := check_parameters (fst v) rest in
      (fst r, ((if snd v then 1 else 0) + snd r)%nat)
  end.

(** [VirtualGPU::processMemObjectsHSA]; [globalStore] is the global store of
    the program, [None] for [NULL]. *)
Definition processMemObjectsHSA (t : tracker) (args : list argument)
    (globalStore : option Memory) : tracker * nat :=
  let r := check_parameters (newKernel t) args in
  match globalStore with
  | Some g =>
      let v := validate (fst r) g false in
      (fst v, (snd r + (if snd v then 1 else 0))%nat)
  | None => r
  end.

(** The slots a kernel leaves in the tracker when nothing is flushed. *)
Fixpoint slots_of (args : list argument) : list MemoryState :=
  match args with
  | [] => []
  | buffer (Some memory) readOnly :: rest =>
      slot_of memory readOnly :: slots_of rest
  | _ :: rest => slots_of rest
  end.

Definition no_svm (a : argument) : bool :=
  match a with svm_bound => false | _ => true end.

(** The entries of the kernel being assembled. *)
Definition own (t : tracker) : nat :=
  (numMemObjectsInQueue_ t - endMemObjectsInQueue_ t)%nat.

(** The calls of one kernel that validates the given memory objects. *)
Definition kernel_calls (ms : list (Memory * bool)) : list call :=
  NewKernel :: map (fun m => Validate (fst m) (snd m)) ms.

(** A tracker whose boundary is inside its entries. *)
Definition boundary_ok (t : tracker) : Prop :=
  (endMemObjectsInQueue_ t <= numMemObjectsInQueue_ t)%nat.

(** A tracker that holds a write of bytes 0..1023 by an earlier kernel. *)
Definition after_write : tracker :=
  newKernel (fst (validate (create 4) {| hbOffset := 0; hbSize := 1024 |} false)).

(** *** Properties *)

Lemma validate_max (t : tracker) (m : Memory) (readOnly : bool) :
  maxMemObjectsInQueue_ (fst (validate t m readOnly)) = maxMemObjectsInQueue_ t.
Proof.
  unfold validate. destruct (maxMemObjectsInQueue_ t =? 0)%nat; [reflexivity|].
  cbn [fst maxMemObjectsInQueue_]. destruct (_ || _); [|reflexivity].
  unfold clear. now destruct (0 <? numMemObjectsInQueue_ t)%nat.
Qed.

Lemma clear_boundary (all : bool) (t : tracker) :
  boundary_ok t -> endMemObjectsInQueue_ (clear all t) = 0%nat.
Proof.
  unfold boundary_ok, clear. intros H.
  destruct (0 <? numMemObjectsInQueue_ t)%nat eqn:Hn; [reflexivity|].
  apply Nat.ltb_ge in Hn. lia.
Qed.

(** The [memset] of [clear] ends at most a pointer for each slot of the
    array behind it, when the count is within the capacity. *)
Lemma clear_overrun (all : bool) (t : tracker) :
  (numMemObjectsInQueue_ t <= maxMemObjectsInQueue_ t)%nat ->
  (overrun_ (clear all t)
   <= Nat.max (overrun_ t) (sizeof_pointer * maxMemObjectsInQueue_ t))%nat.
Proof.
  intros Hnum. unfold clear.
  destruct (0 <? numMemObjectsInQueue_ t)%nat; [|lia].
  cbn [overrun_]. unfold memset_end.
  change sizeof_MemoryState with 24%nat. change sizeof_pointer with 8%nat.
  destruct all; lia.
Qed.

Lemma validate_overrun (t : tracker) (m : Memory) (readOnly : bool) :
  (numMemObjectsInQueue_ t <= maxMemObjectsInQueue_ t)%nat ->
  (overrun_ (fst (validate t m readOnly))
   <= Nat.max (overrun_ t) (sizeof_pointer * maxMemObjectsInQueue_ t))%nat.
Proof.
  intros Hnum. unfold validate.
  destruct (maxMemObjectsInQueue_ t =? 0)%nat; [cbn [fst]; lia|].
  cbn [fst overrun_]. destruct (_ || _); [|lia].
  now apply clear_overrun.
Qed.

(** One [validate]: the boundary stays inside the entries, the kernel being
    assembled has one entry more, and the count is within the capacity when
    the kernel had fewer entries than the capacity. *)
Lemma validate_own (t : tracker) (m : Memory) (readOnly : bool) :
  (0 < maxMemObjectsInQueue_ t)%nat ->
  boundary_ok t ->
  let t' := fst (validate t m readOnly) in
  boundary_ok t'
  /\ own t' = (own t + 1)%nat
  /\ (numMemObjectsInQueue_ t <= maxMemObjectsInQueue_ t ->
      own t < maxMemObjectsInQueue_ t ->
      numMemObjectsInQueue_ t' <= maxMemObjectsInQueue_ t)%nat.
Proof.
  intros Hmax Hb. cbv zeta. unfold validate.
  destruct (maxMemObjectsInQueue_ t =? 0)%nat eqn:Hz;
    [apply Nat.eqb_eq in Hz; lia|].
  cbn [fst]. set (found := existsb _ _).
  destruct (Nat.leb_spec (maxMemObjectsInQueue_ t) (numMemObjectsInQueue_ t + 1))
    as [Hlim|Hlim].
  - rewrite orb_true_r.
    unfold boundary_ok, own, numMemObjectsInQueue_ in *.
    cbn [memObjectsInQueue_ endMemObjectsInQueue_].
    rewrite (clear_entries false), (clear_boundary false t Hb).
    rewrite length_app, length_drop. cbn [length]. lia.
  - rewrite orb_false_r. destruct found.
    + unfold boundary_ok, own, numMemObjectsInQueue_ in *.
      cbn [memObjectsInQueue_ endMemObjectsInQueue_].
      rewrite (clear_entries false), (clear_boundary false t Hb).
      rewrite length_app, length_drop. cbn [length]. lia.
    + unfold boundary_ok, own, numMemObjectsInQueue_ in *.
      cbn [memObjectsInQueue_ endMemObjectsInQueue_].
      rewrite length_app. cbn [length]. lia.
Qed.

Lemma run_validates (t : tracker) (ms : list (Memory * bool)) (n : nat)
    (bound : nat) :
  (0 < maxMemObjectsInQueue_ t)%nat ->
  boundary_ok t ->
  (numMemObjectsInQueue_ t <= maxMemObjectsInQueue_ t)%nat ->
  (own t + length ms <= maxMemObjectsInQueue_ t)%nat ->
  (overrun_ t <= bound)%nat ->
  (sizeof_pointer * maxMemObjectsInQueue_ t <= bound)%nat ->
  let t' := run t (take n (map (fun m => Validate (fst m) (snd m)) ms)) in
  (numMemObjectsInQueue_ t' <= maxMemObjectsInQueue_ t)%nat
  /\ (overrun_ t' <= bound)%nat.
Proof.
  cbv zeta. revert t n.
  induction ms as [|[m ro] ms IH]; intros t n Hmax Hb Hnum Hown Hov Hbound.
  - cbn [map]. rewrite take_nil. split; [exact Hnum | exact Hov].
  - destruct n as [|n]; [split; [exact Hnum | exact Hov]|].
    cbn [map take run fold_left step fst snd].
    destruct (validate_own t m ro Hmax Hb) as (Hb' & Hown' & Hnum').
    cbn [length] in Hown.
    pose proof (validate_max t m ro) as Hm.
    pose proof (validate_overrun t m ro Hnum) as Hov'.
    specialize (IH (fst (validate t m ro)) n).
    rewrite Hm in IH.
    apply IH; [exact Hmax | exact Hb' | apply Hnum'; lia | lia | lia | exact Hbound].
Qed.

(** X1.  A kernel that validates at most [maxMemObjectsInQueue_] memory
    objects keeps the entry count within the capacity at every step,
    whatever the ranges and whatever was tracked before, so every entry
    [validate] stores is inside the array.  The [memset] of [clear] is not
    held to the array by this: on these runs it ends at most a pointer for
    each slot of the array behind the end of the array. *)
Theorem kernel_within_capacity (t : tracker) (ms : list (Memory * bool))
    (n : nat) :
  (0 < maxMemObjectsInQueue_ t)%nat ->
  (numMemObjectsInQueue_ t <= maxMemObjectsInQueue_ t)%nat ->
  (length ms <= maxMemObjectsInQueue_ t)%nat ->
  (numMemObjectsInQueue_ (run t (take n (kernel_calls ms)))
   <= maxMemObjectsInQueue_ t)%nat
  /\ (overrun_ (run t (take n (kernel_calls ms)))
      <= Nat.max (overrun_ t) (sizeof_pointer * maxMemObjectsInQueue_ t))%nat.
Proof.
  intros Hmax Hnum Hlen. unfold kernel_calls.
  destruct n as [|n]; [split; [exact Hnum | cbn [take run fold_left]; lia]|].
  cbn [take run fold_left step].
  change (fold_left step ?l ?a) with (run a l).
  apply (run_validates (newKernel t) ms n
           (Nat.max (overrun_ t) (sizeof_pointer * maxMemObjectsInQueue_ t)));
    try assumption.
  - unfold boundary_ok, newKernel, numMemObjectsInQueue_. simpl. lia.
  - unfold own, newKernel, numMemObjectsInQueue_. simpl. lia.
  - cbn [newKernel overrun_]. lia.
  - cbn [newKernel maxMemObjectsInQueue_]. lia.
Qed.

Lemma kernel_within_capacity_witness :
  (numMemObjectsInQueue_
     (run after_write
        (take 3 (kernel_calls [ ({| hbOffset := 0; hbSize := 512 |}, true);
                                ({| hbOffset := 512; hbSize := 512 |}, false) ])))
   <= maxMemObjectsInQueue_ after_write)%nat
  /\ (overrun_
        (run after_write
           (take 3 (kernel_calls [ ({| hbOffset := 0; hbSize := 512 |}, true);
                                   ({| hbOffset := 512; hbSize := 512 |}, false) ])))
      <= Nat.max (overrun_ after_write)
           (sizeof_pointer * maxMemObjectsInQueue_ after_write))%nat.
Proof.
  apply (kernel_within_capacity after_write
           [ ({| hbOffset := 0; hbSize := 512 |}, true);
             ({| hbOffset := 512; hbSize := 512 |}, false) ] 3).
  - vm_compute. lia.
  - vm_compute. lia.
  - vm_compute. lia.
Defined.

(** The [memset] does leave the array on such a run: on a tracker of
    capacity 8, the eighth [validate] of one kernel flushes at the limit with
    seven entries to keep, and the [memset] clears the 56 bytes from byte
    168 on, 32 of them behind the 192 bytes of the array. *)
Example eighth_validate_clears_behind :
  let ms := repeat ({| hbOffset := 0; hbSize := 256 |}, true) 8 in
  overrun_ (run (create 8) (take 8 (kernel_calls ms))) = 0%nat
  /\ run (create 8) (kernel_calls ms)
     = {| memObjectsInQueue_ :=
            repeat {| start_ := 0; end_ := 256; readOnly_ := true |} 8;
          endMemObjectsInQueue_ := 0;
          maxMemObjectsInQueue_ := 8;
          overrun_ := 32 |}.
Proof. vm_compute. split; reflexivity. Qed.

(** X2.  Once [validate] has flushed, the boundary is at 0, and until the
    next [newKernel] a further [validate] flushes exactly when the count
    reaches the capacity, whatever ranges it is given: the accesses of one
    kernel are not checked against each other. *)
Theorem after_flush_capacity_only (t : tracker) (m m' : Memory)
    (readOnly readOnly' : bool) :
  (0 < maxMemObjectsInQueue_ t)%nat ->
  boundary_ok t ->
  snd (validate t m readOnly) = true ->
  let t' := fst (validate t m readOnly) in
  endMemObjectsInQueue_ t' = 0%nat
  /\ snd (validate t' m' readOnly')
     = (maxMemObjectsInQueue_ t <=? numMemObjectsInQueue_ t' + 1)%nat.
Proof.
  intros Hmax Hb Hfl. cbv zeta.
  pose proof (validate_max t m readOnly) as Hm.
  assert (Hend : endMemObjectsInQueue_ (fst (validate t m readOnly)) = 0%nat).
  { revert Hfl. unfold validate.
    destruct (maxMemObjectsInQueue_ t =? 0)%nat; [discriminate|].
    cbn [fst snd endMemObjectsInQueue_]. intros ->.
    apply (clear_boundary false t Hb). }
  split; [exact Hend|].
  set (t' := fst (validate t m readOnly)) in *.
  unfold validate at 1. rewrite Hm.
  destruct (maxMemObjectsInQueue_ t =? 0)%nat eqn:Hz;
    [apply Nat.eqb_eq in Hz; lia|].
  cbn [snd]. rewrite Hend. reflexivity.
Qed.

Lemma after_flush_capacity_only_witness :
  let t' := fst (validate after_write {| hbOffset := 512; hbSize := 512 |} true) in
  endMemObjectsInQueue_ t' = 0%nat
  /\ snd (validate t' {| hbOffset := 512; hbSize := 512 |} false)
     = (maxMemObjectsInQueue_ after_write <=? numMemObjectsInQueue_ t' + 1)%nat.
Proof.
  apply (after_flush_capacity_only after_write
           {| hbOffset := 512; hbSize := 512 |}
           {| hbOffset := 512; hbSize := 512 |} true false).
  - vm_compute. lia.
  - vm_compute. lia.
  - vm_compute. reflexivity.
Defined.

Lemma dependency_read_only (curStart curEnd : Z) (l : list MemoryState) :
  Forall (fun e => readOnly_ e = true) l ->
  existsb (dependency curStart curEnd true) l = false.
Proof.
  induction 1 as [|e l He _ IH]; [reflexivity|].
  cbn [existsb]. rewrite IH. unfold dependency. rewrite He.
  cbn [negb orb]. now rewrite andb_false_r.
Qed.

(** X3.  A read-only access never makes a hazard with read-only entries,
    whatever the ranges: when every entry before the boundary is read-only,
    [validate] of a read-only access flushes exactly when the count reaches
    the capacity. *)
Theorem read_only_no_hazard (t : tracker) (m : Memory) :
  (0 < maxMemObjectsInQueue_ t)%nat ->
  Forall (fun e => readOnly_ e = true)
    (take (endMemObjectsInQueue_ t) (memObjectsInQueue_ t)) ->
  snd (validate t m true)
  = (maxMemObjectsInQueue_ t <=? numMemObjectsInQueue_ t + 1)%nat.
Proof.
  intros Hmax Hro. unfold validate.
  destruct (maxMemObjectsInQueue_ t =? 0)%nat eqn:Hz;
    [apply Nat.eqb_eq in Hz; lia|].
  cbn [snd]. now rewrite (dependency_read_only _ _ _ Hro).
Qed.

Lemma read_only_no_hazard_witness :
  let t := newKernel (fst (validate (create 4)
                             {| hbOffset := 0; hbSize := 1024 |} true)) in
  snd (validate t {| hbOffset := 0; hbSize := 1024 |} true)
  = (maxMemObjectsInQueue_ t <=? numMemObjectsInQueue_ t + 1)%nat.
Proof.
  apply (read_only_no_hazard
           (newKernel (fst (validate (create 4)
                              {| hbOffset := 0; hbSize := 1024 |} true)))).
  - vm_compute. lia.
  - vm_compute. repeat constructor.
Defined.

(** X4.  [validate] is conservative at the edges: an access that starts
    inside a tracked range, with the entry or the access writing, flushes
    whatever its size, also when the size is 0 and no byte is shared. *)
Theorem start_inside_flushes (t : tracker) (m : Memory) (readOnly : bool)
    (j : nat) (e : MemoryState) :
  (0 < maxMemObjectsInQueue_ t)%nat ->
  (j < endMemObjectsInQueue_ t)%nat ->
  memObjectsInQueue_ t !! j = Some e ->
  readOnly_ e = false \/ readOnly = false ->
  (start_ e <= uint64 (hbOffset m) < end_ e)%Z ->
  snd (validate t m readOnly) = true.
Proof.
  intros Hmax Hj He Hrw Hin. unfold validate.
  destruct (maxMemObjectsInQueue_ t =? 0)%nat eqn:Hz;
    [apply Nat.eqb_eq in Hz; lia|].
  cbn [snd]. apply orb_true_iff. left.
  apply existsb_exists. exists e. split.
  - apply list_elem_of_In, list_elem_of_lookup. exists j.
    apply lookup_take_Some. split; assumption.
  - unfold dependency. apply andb_true_iff. split.
    + apply orb_true_iff. left. apply orb_true_iff. left.
      apply andb_true_iff. split; [apply Z.leb_le | apply Z.ltb_lt]; lia.
    + destruct Hrw as [-> | ->]; [reflexivity | apply orb_true_r].
Qed.

Lemma start_inside_flushes_witness :
  snd (validate after_write {| hbOffset := 16; hbSize := 0 |} true) = true.
Proof.
  apply (start_inside_flushes after_write {| hbOffset := 16; hbSize := 0 |}
           true 0 {| start_ := 0; end_ := 1024; readOnly_ := false |}).
  - vm_compute. lia.
  - vm_compute. lia.
  - vm_compute. reflexivity.
  - left. reflexivity.
  - vm_compute. split; [discriminate | reflexivity].
Defined.

(** X5.  A tracker created with capacity 0 tracks nothing: after any calls
    it is as created, and [validate] never flushes. *)
Theorem zero_capacity_inert (cs : list call) (m : Memory) (readOnly : bool) :
  run (create 0) cs = create 0
  /\ validate (run (create 0) cs) m readOnly = (create 0, false).
Proof.
  assert (Hrun : run (create 0) cs = create 0).
  { induction cs as [|c cs IH] using rev_ind; [reflexivity|].
    unfold run in *. rewrite fold_left_app, IH. cbn [fold_left].
    destruct c as [m' ro| |all]; reflexivity. }
  split; [exact Hrun|]. rewrite Hrun. reflexivity.
Qed.

Lemma check_parameters_quiet (args : list argument) :
  forall t : tracker,
    endMemObjectsInQueue_ t = 0%nat ->
    forallb no_svm args = true ->
    (numMemObjectsInQueue_ t + length (slots_of args)
     < maxMemObjectsInQueue_ t)%nat ->
    check_parameters t args
    = ({| memObjectsInQueue_ := memObjectsInQueue_ t ++ slots_of args;
          endMemObjectsInQueue_ := 0;
          maxMemObjectsInQueue_ := maxMemObjectsInQueue_ t;
          overrun_ := overrun_ t |}, 0%nat).
Proof.
  induction args as [|a args IH]; intros t Hend Hsvm Hlen.
  - cbn [check_parameters slots_of]. rewrite app_nil_r.
    destruct t as [l e mx ov]. cbn in Hend. now subst e.
  - cbn [forallb] in Hsvm. apply andb_true_iff in Hsvm as [Ha Hsvm].
    destruct a as [| |[m|] ro]; cbn [check_parameters slots_of] in *;
      try discriminate Ha; try (now apply IH).
    cbn [length] in Hlen.
    assert (Hv : validate t m ro
                 = ({| memObjectsInQueue_ := memObjectsInQueue_ t ++ [slot_of m ro];
                       endMemObjectsInQueue_ := 0;
                       maxMemObjectsInQueue_ := maxMemObjectsInQueue_ t;
                       overrun_ := overrun_ t |}, false)).
    { unfold validate.
      destruct (maxMemObjectsInQueue_ t =? 0)%nat eqn:Hz;
        [apply Nat.eqb_eq in Hz; lia|].
      cbv zeta. rewrite Hend, take_0. cbn [existsb orb].
      destruct (Nat.leb_spec (maxMemObjectsInQueue_ t)
                  (numMemObjectsInQueue_ t + 1)); [lia|].
      now rewrite Hend. }
    rewrite Hv. cbn [fst snd].
    rewrite IH; cbn [memObjectsInQueue_ endMemObjectsInQueue_
                     maxMemObjectsInQueue_ overrun_];
      try assumption; try reflexivity.
    + now rewrite <- app_assoc.
    + unfold numMemObjectsInQueue_ in *. cbn [memObjectsInQueue_].
      rewrite length_app. cbn [length]. lia.
Qed.

(** X6.  The buffers of one kernel are not checked against each other: on
    a tracker without entries, [processMemObjectsHSA] of a kernel without SVM
    pointers whose buffers (with the global store) number fewer than the
    capacity flushes nothing, however the buffers overlap, and leaves the
    tracker with exactly their ranges, in the order of the parameters; no
    [memset] runs, so nothing more is cleared behind the array. *)
Theorem own_arguments_no_flush (t : tracker) (args : list argument)
    (globalStore : option Memory) :
  memObjectsInQueue_ t = [] ->
  forallb no_svm args = true ->
  (length (slots_of args)
   + match globalStore with Some _ => 1 | None => 0 end
   < maxMemObjectsInQueue_ t)%nat ->
  processMemObjectsHSA t args globalStore
  = ({| memObjectsInQueue_ :=
          slots_of args
          ++ match globalStore with
             | Some g => [slot_of g false]
             | None => []
             end;
        endMemObjectsInQueue_ := 0;
        maxMemObjectsInQueue_ := maxMemObjectsInQueue_ t;
        overrun_ := overrun_ t |}, 0%nat).
Proof.
  intros Hnil Hsvm Hlen. unfold processMemObjectsHSA.
  rewrite (check_parameters_quiet args (newKernel t)).
  - cbn [newKernel memObjectsInQueue_ maxMemObjectsInQueue_ overrun_ fst snd].
    rewrite Hnil. cbn [app].
    destruct globalStore as [g|]; [|now rewrite app_nil_r].
    unfold validate. cbv zeta.
    cbn [maxMemObjectsInQueue_ endMemObjectsInQueue_ memObjectsInQueue_
         overrun_].
    rewrite take_0. cbn [existsb orb].
    destruct (maxMemObjectsInQueue_ t =? 0)%nat eqn:Hz;
      [apply Nat.eqb_eq in Hz; lia|].
    unfold numMemObjectsInQueue_. cbn [memObjectsInQueue_].
    destruct (Nat.leb_spec (maxMemObjectsInQueue_ t)
                (length (slots_of args) + 1)); [lia|].
    reflexivity.
  - unfold newKernel, numMemObjectsInQueue_. cbn. now rewrite Hnil.
  - exact Hsvm.
  - unfold newKernel, numMemObjectsInQueue_. cbn. rewrite Hnil. cbn.
    destruct globalStore; lia.
Qed.

Lemma own_arguments_no_flush_witness :
  processMemObjectsHSA (create 4)
    [ buffer (Some {| hbOffset := 0; hbSize := 1024 |}) false;
      not_a_buffer;
      buffer (Some {| hbOffset := 512; hbSize := 1024 |}) false ] None
  = ({| memObjectsInQueue_ :=
          [ {| start_ := 0; end_ := 1024; readOnly_ := false |};
            {| start_ := 512; end_ := 1536; readOnly_ := false |} ];
        endMemObjectsInQueue_ := 0;
        maxMemObjectsInQueue_ := 4;
        overrun_ := 0 |}, 0%nat).
Proof.
  apply (own_arguments_no_flush (create 4)
           [ buffer (Some {| hbOffset := 0; hbSize := 1024 |}) false;
             not_a_buffer;
             buffer (Some {| hbOffset := 512; hbSize := 1024 |}) false ] None).
  - reflexivity.
  - reflexivity.
  - vm_compute. lia.
Defined.

Lemma check_parameters_svm (pre post : list argument) :
  forall t : tracker,
    check_parameters t (pre ++ svm_bound :: post)
    = check_parameters t (pre ++ [svm_bound])
    /\ (1 <= snd (check_parameters t (pre ++ svm_bound :: post)))%nat.
Proof.
  induction pre as [|a pre IH]; intros t.
  - cbn. split; [reflexivity | lia].
  - destruct a as [| |[m|] ro]; cbn [app check_parameters].
    + apply IH.
    + split; [reflexivity | cbn; lia].
    + destruct (IH (fst (validate t m ro))) as [-> Hge].
      split; [reflexivity|]. cbn [snd]. lia.
    + apply IH.
Qed.

(** X7.  A pointer bound to SVM memory ends the tracking of a kernel:
    [processMemObjectsHSA] flushes the cache and validates none of the
    parameters that follow it, so its result does not depend on them. *)
Theorem svm_pointer_stops_tracking (t : tracker) (pre post : list argument)
    (globalStore : option Memory) :
  processMemObjectsHSA t (pre ++ svm_bound :: post) globalStore
  = processMemObjectsHSA t (pre ++ [svm_bound]) globalStore
  /\ (1 <= snd (processMemObjectsHSA t (pre ++ svm_bound :: post) globalStore))%nat.
Proof.
  unfold processMemObjectsHSA.
  destruct (check_parameters_svm pre post (newKernel t)) as [Heq Hge].
  rewrite Heq in *. split; [reflexivity|].
  destruct globalStore; cbn [snd]; lia.
Qed.

End KernelArguments.

(** ** Flush management of the DMA buffer *)

Module DmaFlushMgmt.

Local Open Scope Z_scope.

(** The fields of the device info and of the settings that
    [VirtualGPU::DmaFlushMgmt] reads; they are unsigned 32-bit values, the
    workloads are 64-bit, as the casts and the local declarations of the
    source have them. *)
Record Device := {
  simdPerCU_ : Z;
  simdWidth_ : Z;
  maxComputeUnits_ : Z;
  maxClockFrequency_ : Z;
  maxWorkGroupSize_ : Z;
  maxWorkloadTime_ : Z;
  minWorkloadTime_ : Z;
  workloadSplitSize_ : Z
}.

Record DmaFlushMgmt := {
  cbWorkload_ : Z;
  maxCbWorkload_ : Z;
  maxDispatchWorkload_ : Z;
  aluCnt_ : Z;
  dispatchSplitSize_ : Z
}.

(** [DmaFlushMgmt::resetCbWorkload]. *)
Definition resetCbWorkload (dev : Device) (d : DmaFlushMgmt) : DmaFlushMgmt :=
  {| cbWorkload_ := 0;
     maxCbWorkload_ :=
       uint64 (maxClockFrequency_ dev * 100 * minWorkloadTime_ dev * aluCnt_ d);
     maxDispatchWorkload_ := maxDispatchWorkload_ d;
     aluCnt_ := aluCnt_ d;
     dispatchSplitSize_ := dispatchSplitSize_ d |}.

(** The constructor [DmaFlushMgmt::DmaFlushMgmt]. *)
Definition make (dev : Device) : DmaFlushMgmt :=
  let aluCnt :=
    uint32 (simdPerCU_ dev * simdWidth_ dev * maxComputeUnits_ dev) in
  resetCbWorkload dev
    {| cbWorkload_ := 0;
       maxCbWorkload_ := 0;
       maxDispatchWorkload_ :=
         uint64 (maxClockFrequency_ dev * 100 * maxWorkloadTime_ dev * aluCnt);
       aluCnt_ := aluCnt;
       dispatchSplitSize_ := 0 |}.

(** The full load of the device in [findSplitSize]. *)
Definition fullLoad (dev : Device) : Z :=
  uint32 (maxComputeUnits_ dev * maxWorkGroupSize_ dev).

(** [DmaFlushMgmt::findSplitSize]. *)
Definition findSplitSize (dev : Device) (d : DmaFlushMgmt)
    (threads instructions : Z) : DmaFlushMgmt :=
  let workload := uint64 (threads * instructions) in
  let split :=
    if maxDispatchWorkload_ d <? workload then
      let size := uint32 (maxDispatchWorkload_ d / instructions) in
      if negb (size mod fullLoad dev =? 0)
      then uint32 ((size / fullLoad dev + 1) * fullLoad dev)
      else size
    else
      if workloadSplitSize_ dev <? threads then workloadSplitSize_ dev else 0 in
  {| cbWorkload_ := cbWorkload_ d;
     maxCbWorkload_ := maxCbWorkload_ d;
     maxDispatchWorkload_ := maxDispatchWorkload_ d;
     aluCnt_ := aluCnt_ d;
     dispatchSplitSize_ := split |}.

Section IsCbReady.

(** [amd::alignUp] is defined in utils/util.hpp, which is not among the
    sources; what follows holds whatever it returns. *)
Variable alignUp : Z -> Z -> Z.

(** [DmaFlushMgmt::isCbReady]. *)
Definition isCbReady (d : DmaFlushMgmt) (threads instructions : Z)
    : DmaFlushMgmt * bool :=
  let workload :=
    uint64 (uint64 (alignUp threads (uint32 (4 * aluCnt_ d))) * instructions) in
  let cbWorkload := uint64 (cbWorkload_ d + workload) in
  if maxCbWorkload_ d <? cbWorkload then
    let grown := uint64 (maxCbWorkload_ d * 3) / 2 in
    ({| cbWorkload_ := 0;
        maxCbWorkload_ := if maxDispatchWorkload_ d <? grown
                          then maxDispatchWorkload_ d else grown;
        maxDispatchWorkload_ := maxDispatchWorkload_ d;
        aluCnt_ := aluCnt_ d;
        dispatchSplitSize_ := dispatchSplitSize_ d |}, true)
  else
    ({| cbWorkload_ := cbWorkload;
        maxCbWorkload_ := maxCbWorkload_ d;
        maxDispatchWorkload_ := maxDispatchWorkload_ d;
        aluCnt_ := aluCnt_ d;
        dispatchSplitSize_ := dispatchSplitSize_ d |}, false).

End IsCbReady.

(** A device of 8 compute units with 4 SIMDs of 16 lanes at 1000 MHz. *)
Definition example_device : Device :=
  {| simdPerCU_ := 4; simdWidth_ := 16; maxComputeUnits_ := 8;
     maxClockFrequency_ := 1000; maxWorkGroupSize_ := 256;
     maxWorkloadTime_ := 5000; minWorkloadTime_ := 100;
     workloadSplitSize_ := 1048576 |}.

(** Rounding up to a multiple, for the examples. *)
Definition round_up (value alignment : Z) : Z :=
  (value + alignment - 1) / alignment * alignment.

(** *** Properties *)

Lemma uint64_range (z : Z) : 0 <= uint64 z < 2 ^ 64.
Proof. unfold uint64. apply Z.mod_pos_bound. lia. Qed.

(** X8.  After [isCbReady] the accumulated workload is within the limit of
    the DMA buffer: when the call reports the buffer ready the workload is
    reset to 0 and the limit is at most the limit of one dispatch; otherwise
    the limit is unchanged.  A limit that does not exceed the dispatch limit
    never comes to exceed it, and it does not shrink as long as its triple
    fits 64 bits. *)
Theorem isCbReady_limits (alignUp : Z -> Z -> Z) (d : DmaFlushMgmt)
    (threads instructions : Z) :
  0 <= maxDispatchWorkload_ d ->
  let d' := fst (isCbReady alignUp d threads instructions) in
  let ready := snd (isCbReady alignUp d threads instructions) in
  0 <= cbWorkload_ d' <= maxCbWorkload_ d'
  /\ maxDispatchWorkload_ d' = maxDispatchWorkload_ d
  /\ (ready = true ->
      cbWorkload_ d' = 0 /\ maxCbWorkload_ d' <= maxDispatchWorkload_ d)
  /\ (ready = false -> maxCbWorkload_ d' = maxCbWorkload_ d)
  /\ (maxCbWorkload_ d <= maxDispatchWorkload_ d ->
      maxCbWorkload_ d' <= maxDispatchWorkload_ d)
  /\ (0 <= maxCbWorkload_ d <= maxDispatchWorkload_ d ->
      maxCbWorkload_ d * 3 < 2 ^ 64 ->
      maxCbWorkload_ d <= maxCbWorkload_ d').
Proof.
  intros Hdisp. cbv zeta. unfold isCbReady.
  set (cb := uint64 (cbWorkload_ d + _)).
  pose proof (uint64_range (maxCbWorkload_ d * 3)) as Hg.
  assert (Hgrown : 0 <= uint64 (maxCbWorkload_ d * 3) / 2)
    by (apply Z.div_pos; lia).
  destruct (Z.ltb_spec (maxCbWorkload_ d) cb) as [Hlt|Hge];
    cbn [fst snd cbWorkload_ maxCbWorkload_ maxDispatchWorkload_].
  - destruct (Z.ltb_spec (maxDispatchWorkload_ d)
                (uint64 (maxCbWorkload_ d * 3) / 2)) as [Hc|Hc].
    + repeat split; try lia; try discriminate.
    + repeat split; try lia; try discriminate.
      intros [H0 H1] H3. rewrite uint64_small by lia.
      apply Z.div_le_lower_bound; lia.
  - pose proof (uint64_range (cbWorkload_ d
        + uint64 (uint64 (alignUp threads (uint32 (4 * aluCnt_ d)))
                  * instructions))) as Hcb.
    fold cb in Hcb. repeat split; try lia; try discriminate.
Qed.

Lemma isCbReady_limits_witness :
  let d := make example_device in
  let d' := fst (isCbReady round_up d 1048576 1000) in
  let ready := snd (isCbReady round_up d 1048576 1000) in
  0 <= cbWorkload_ d' <= maxCbWorkload_ d'
  /\ maxDispatchWorkload_ d' = maxDispatchWorkload_ d
  /\ (ready = true ->
      cbWorkload_ d' = 0 /\ maxCbWorkload_ d' <= maxDispatchWorkload_ d)
  /\ (ready = false -> maxCbWorkload_ d' = maxCbWorkload_ d)
  /\ (maxCbWorkload_ d <= maxDispatchWorkload_ d ->
      maxCbWorkload_ d' <= maxDispatchWorkload_ d)
  /\ (0 <= maxCbWorkload_ d <= maxDispatchWorkload_ d ->
      maxCbWorkload_ d * 3 < 2 ^ 64 ->
      maxCbWorkload_ d <= maxCbWorkload_ d').
Proof.
  apply (isCbReady_limits round_up (make example_device) 1048576 1000).
  vm_compute. discriminate.
Defined.

(** X9.  When the workload of a dispatch exceeds the dispatch limit,
    [findSplitSize] sets the split size to the limit per instruction rounded
    up to a whole number of full loads of the device (as long as that fits 32
    bits); and a dispatch of kernels without instructions is never divided
    by the instruction count: its split size is the configured one or 0. *)
Theorem findSplitSize_full_loads (dev : Device) (d : DmaFlushMgmt)
    (threads instructions : Z) :
  0 <= maxDispatchWorkload_ d ->
  0 < fullLoad dev ->
  let size := uint32 (maxDispatchWorkload_ d / instructions) in
  let split := dispatchSplitSize_ (findSplitSize dev d threads instructions) in
  (maxDispatchWorkload_ d < uint64 (threads * instructions) ->
   size + fullLoad dev < 2 ^ 32 ->
   split mod fullLoad dev = 0 /\ size <= split < size + fullLoad dev)
  /\ (instructions = 0 ->
      split = if workloadSplitSize_ dev <? threads
              then workloadSplitSize_ dev else 0).
Proof.
  intros Hdisp Hfull. cbv zeta. unfold findSplitSize. cbn [dispatchSplitSize_].
  set (f := fullLoad dev) in *.
  set (size := uint32 (maxDispatchWorkload_ d / instructions)).
  pose proof (uint32_range (maxDispatchWorkload_ d / instructions)) as Hsize.
  fold size in Hsize.
  split.
  - intros Hover Hfit.
    destruct (Z.ltb_spec (maxDispatchWorkload_ d) (uint64 (threads * instructions)));
      [|lia].
    pose proof (Z.div_mod size f ltac:(lia)) as Hdm.
    pose proof (Z.mod_pos_bound size f Hfull) as Hmb.
    destruct (Z.eqb_spec (size mod f) 0) as [Hz|Hnz]; cbn [negb].
    + split; [exact Hz | lia].
    + assert (Hval : (size / f + 1) * f = size - size mod f + f) by lia.
      rewrite uint32_small by lia.
      split; [apply Z.mod_mul; lia | lia].
  - intros ->. rewrite Z.mul_0_r.
    change (uint64 0) with 0.
    destruct (Z.ltb_spec (maxDispatchWorkload_ d) 0); [lia | reflexivity].
Qed.

Lemma findSplitSize_full_loads_witness :
  let d := make example_device in
  let size := uint32 (maxDispatchWorkload_ d / 1000) in
  let split := dispatchSplitSize_ (findSplitSize example_device d 1073741824 1000) in
  (maxDispatchWorkload_ d < uint64 (1073741824 * 1000) ->
   size + fullLoad example_device < 2 ^ 32 ->
   split mod fullLoad example_device = 0
   /\ size <= split < size + fullLoad example_device)
  /\ (1000 = 0 ->
      split = if workloadSplitSize_ example_device <? 1073741824
              then workloadSplitSize_ example_device else 0).
Proof.
  apply (findSplitSize_full_loads example_device (make example_device)
           1073741824 1000).
  - vm_compute. discriminate.
  - vm_compute. reflexivity.
Defined.

(** On the example device a dispatch of 2^30 threads of 1000 instructions
    exceeds the limit and is split in full loads of 2048 threads. *)
Example findSplitSize_example :
  dispatchSplitSize_
    (findSplitSize example_device (make example_device) 1073741824 1000)
  = 256000 * 1000 /\ fullLoad example_device = 2048.
Proof. vm_compute. split; reflexivity. Qed.

End DmaFlushMgmt.

(** ** Delayed release of transfer buffers, and the list of memory handles *)

Module TransferBuffers.

(** A staging resource or a pinned memory object, by its identity. *)
Definition Resource := nat.

(** What the functions below do outside the queue. *)
Inductive effect :=
| Release (r : Resource)
| FlushDMA (r : Resource).

(** [VirtualGPU::addXferWrite] on [xferWriteBuffers_]: the list it leaves
    and the buffers it gave back to the device. *)
Definition addXferWrite (xferWriteBuffers : list Resource) (resource : Resource)
    : list Resource * list effect :=
  match xferWriteBuffers with
  | front :: rest =>
      if (7 <? length xferWriteBuffers)%nat
      then (rest ++ [resource], [Release front])
      else (xferWriteBuffers ++ [resource], [])
  | [] => ([resource], [])
  end.

(** [VirtualGPU::releaseXferWrite]. *)
Definition releaseXferWrite (xferWriteBuffers : list Resource)
    : list Resource * list effect :=
  ([], map Release xferWriteBuffers).

(** [VirtualGPU::addPinnedMem] on [pinnedMems_]. *)
Definition addPinnedMem (pinnedMems : list Resource) (mem : Resource)
    : list Resource * list effect :=
  match pinnedMems with
  | front :: rest =>
      if (7 <? length pinnedMems)%nat
      then (rest ++ [mem], [Release front; FlushDMA mem])
      else (pinnedMems ++ [mem], [FlushDMA mem])
  | [] => ([mem], [FlushDMA mem])
  end.

(** [VirtualGPU::releasePinnedMem]. *)
Definition releasePinnedMem (pinnedMems : list Resource)
    : list Resource * list effect :=
  ([], map Release pinnedMems).

(** Adding several buffers in turn. *)
Fixpoint addAll (add : list Resource -> Resource -> list Resource * list effect)
    (buffers : list Resource) (resources : list Resource)
    : list Resource * list effect :=
  match resources with
  | [] => (buffers, [])
  | r :: rest =>
      let a := add buffers r in
      let b := addAll add (fst a) rest in
      (fst b, snd a ++ snd b)
  end.

(** The resources an effect list releases, in order. *)
Fixpoint released (es : list effect) : list Resource :=
  match es with
  | [] => []
  | Release r :: rest => r :: released rest
  | FlushDMA _ :: rest => released rest
  end.

(** The memory handles of a kernel ([vmMems_], an array of [numVmMems_]
    handles of which [cal_.memCount_] are in use); a slot of a fresh array
    holds no handle yet. *)
Record VmMems := {
  vmMems_ : list (option nat);
  numVmMems_ : nat;
  memCount_ : nat
}.

(** [VirtualGPU::addVmMemory]; [isVirtual] is [dev().heap()->isVirtual()]
    and [gslResource] the handle of the resource. *)
Definition addVmMemory (isVirtual : bool) (v : VmMems) (gslResource : nat)
    : VmMems :=
  if isVirtual then
    let cnt := S (memCount_ v) in
    let grown := (numVmMems_ v <? cnt)%nat in
    let vmMems :=
      if grown
      then take (numVmMems_ v) (vmMems_ v)
           ++ replicate (cnt - numVmMems_ v) None
      else vmMems_ v in
    {| vmMems_ := <[cnt - 1 := Some gslResource]> vmMems;
       numVmMems_ := if grown then cnt else numVmMems_ v;
       memCount_ := cnt |}
  else v.

(** The start of a kernel submission: [cal_.memCount_ = 0]. *)
Definition resetCount (v : VmMems) : VmMems :=
  {| vmMems_ := vmMems_ v; numVmMems_ := numVmMems_ v; memCount_ := 0 |}.

(** The array has [numVmMems_] slots and the handles in use are within. *)
Definition VmMems_ok (v : VmMems) : Prop :=
  length (vmMems_ v) = numVmMems_ v /\ (memCount_ v <= numVmMems_ v)%nat.

(** *** Properties *)

Lemma released_app (es es' : list effect) :
  released (es ++ es') = released es ++ released es'.
Proof.
  induction es as [|[r|r] es IH]; cbn [app released]; [reflexivity| |exact IH].
  now rewrite IH.
Qed.

Lemma released_map (l : list Resource) : released (map Release l) = l.
Proof. induction l as [|r l IH]; [reflexivity|]. cbn. now rewrite IH. Qed.

Lemma addXferWrite_step (buffers : list Resource) (r : Resource) :
  (length buffers <= 8)%nat ->
  (length (fst (addXferWrite buffers r)) <= 8)%nat
  /\ released (snd (addXferWrite buffers r)) ++ fst (addXferWrite buffers r)
     = buffers ++ [r].
Proof.
  intros Hlen. unfold addXferWrite. destruct buffers as [|front rest].
  - cbn. split; [lia | reflexivity].
  - destruct (Nat.ltb_spec 7 (length (front :: rest))) as [H|H];
      cbn [fst snd released]; rewrite length_app; cbn [length] in *;
      split; try lia; reflexivity.
Qed.

Lemma addPinnedMem_step (buffers : list Resource) (r : Resource) :
  (length buffers <= 8)%nat ->
  (length (fst (addPinnedMem buffers r)) <= 8)%nat
  /\ released (snd (addPinnedMem buffers r)) ++ fst (addPinnedMem buffers r)
     = buffers ++ [r].
Proof.
  intros Hlen. unfold addPinnedMem. destruct buffers as [|front rest].
  - cbn. split; [lia | reflexivity].
  - destruct (Nat.ltb_spec 7 (length (front :: rest))) as [H|H];
      cbn [fst snd released]; rewrite length_app; cbn [length] in *;
      split; try lia; reflexivity.
Qed.

Lemma addAll_conserves
    (add : list Resource -> Resource -> list Resource * list effect) :
  (forall buffers r,
      (length buffers <= 8)%nat ->
      (length (fst (add buffers r)) <= 8)%nat
      /\ released (snd (add buffers r)) ++ fst (add buffers r) = buffers ++ [r]) ->
  forall (resources buffers : list Resource),
    (length buffers <= 8)%nat ->
    (length (fst (addAll add buffers resources)) <= 8)%nat
    /\ released (snd (addAll add buffers resources))
       ++ fst (addAll add buffers resources)
       = buffers ++ resources.
Proof.
  intros Hadd resources.
  induction resources as [|r rest IH]; intros buffers Hlen.
  - cbn. split; [exact Hlen | now rewrite app_nil_r].
  - cbn [addAll fst snd].
    destruct (Hadd buffers r Hlen) as [Hl1 He1].
    destruct (IH (fst (add buffers r)) Hl1) as [Hl2 He2].
    split; [exact Hl2|].
    rewrite released_app, <- app_assoc, He2, app_assoc, He1.
    now rewrite <- app_assoc.
Qed.

(** X10.  The transfer buffers whose release is delayed never number more
    than 8, and none is lost or released twice: the buffers released while
    adding, followed by those [releaseXferWrite] releases, are the buffers
    that were held and those added, each once, oldest first.  The same holds
    for the pinned memory objects of [addPinnedMem] and
    [releasePinnedMem]. *)
Theorem delayed_release_fifo (buffers resources : list Resource) :
  (length buffers <= 8)%nat ->
  let x := addAll addXferWrite buffers resources in
  let p := addAll addPinnedMem buffers resources in
  (length (fst x) <= 8)%nat
  /\ released (snd x) ++ released (snd (releaseXferWrite (fst x)))
     = buffers ++ resources
  /\ fst (releaseXferWrite (fst x)) = []
  /\ (length (fst p) <= 8)%nat
  /\ released (snd p) ++ released (snd (releasePinnedMem (fst p)))
     = buffers ++ resources
  /\ fst (releasePinnedMem (fst p)) = [].
Proof.
  intros Hlen. cbv zeta.
  destruct (addAll_conserves addXferWrite addXferWrite_step resources buffers Hlen)
    as [Hx1 Hx2].
  destruct (addAll_conserves addPinnedMem addPinnedMem_step resources buffers Hlen)
    as [Hp1 Hp2].
  unfold releaseXferWrite, releasePinnedMem. cbn [fst snd].
  rewrite !released_map.
  split; [exact Hx1|]. split; [exact Hx2|]. split; [reflexivity|].
  split; [exact Hp1|]. split; [exact Hp2 | reflexivity].
Qed.

Lemma delayed_release_fifo_witness :
  let x := addAll addXferWrite [1; 2; 3; 4; 5; 6; 7]%nat [8; 9; 10]%nat in
  let p := addAll addPinnedMem [1; 2; 3; 4; 5; 6; 7]%nat [8; 9; 10]%nat in
  (length (fst x) <= 8)%nat
  /\ released (snd x) ++ released (snd (releaseXferWrite (fst x)))
     = [1; 2; 3; 4; 5; 6; 7; 8; 9; 10]%nat
  /\ fst (releaseXferWrite (fst x)) = []
  /\ (length (fst p) <= 8)%nat
  /\ released (snd p) ++ released (snd (releasePinnedMem (fst p)))
     = [1; 2; 3; 4; 5; 6; 7; 8; 9; 10]%nat
  /\ fst (releasePinnedMem (fst p)) = [].
Proof.
  apply (delayed_release_fifo [1; 2; 3; 4; 5; 6; 7]%nat [8; 9; 10]%nat).
  cbn. lia.
Defined.

Lemma addVmMemory_ok (v : VmMems) (r : nat) :
  VmMems_ok v ->
  let v' := addVmMemory true v r in
  VmMems_ok v'
  /\ memCount_ v' = S (memCount_ v)
  /\ vmMems_ v' !! memCount_ v = Some (Some r)
  /\ take (memCount_ v) (vmMems_ v') = take (memCount_ v) (vmMems_ v)
  /\ numVmMems_ v' = Nat.max (numVmMems_ v) (S (memCount_ v)).
Proof.
  intros [Hlen Hcnt]. cbv zeta. unfold addVmMemory, VmMems_ok.
  cbn [vmMems_ numVmMems_ memCount_].
  replace (S (memCount_ v) - 1)%nat with (memCount_ v) by lia.
  destruct (Nat.ltb_spec (numVmMems_ v) (S (memCount_ v))) as [Hg|Hg].
  - assert (Heq : numVmMems_ v = memCount_ v) by lia.
    rewrite Heq in *. rewrite take_ge by lia.
    replace (S (memCount_ v) - memCount_ v)%nat with 1%nat by lia.
    cbn [replicate].
    rewrite length_insert, length_app. cbn [length].
    split; [split; lia|]. split; [reflexivity|].
    split.
    + apply list_lookup_insert_eq. rewrite length_app. cbn [length]. lia.
    + split; [|lia].
      rewrite take_insert_ge by lia. rewrite take_app_le by lia.
      now rewrite take_ge by lia.
  - rewrite length_insert.
    split; [split; lia|]. split; [reflexivity|].
    split; [apply list_lookup_insert_eq; lia|].
    split; [apply take_insert_ge; lia | lia].
Qed.

Lemma lookup_map_Some (l : list nat) :
  forall (i r : nat), l !! i = Some r -> map Some l !! i = Some (Some r).
Proof.
  induction l as [|x l IH]; intros [|i] r H; try discriminate H.
  - cbn in *. now injection H as ->.
  - cbn in *. now apply IH.
Qed.

Lemma addVmMemory_all (resources : list nat) :
  forall v : VmMems,
    VmMems_ok v ->
    let v' := fold_left (addVmMemory true) resources v in
    VmMems_ok v'
    /\ memCount_ v' = (memCount_ v + length resources)%nat
    /\ take (memCount_ v') (vmMems_ v')
       = take (memCount_ v) (vmMems_ v) ++ map Some resources.
Proof.
  induction resources as [|r rest IH]; intros v Hok; cbv zeta.
  - cbn [fold_left length map]. rewrite Nat.add_0_r, app_nil_r. auto.
  - cbn [fold_left length map].
    destruct (addVmMemory_ok v r Hok) as (Hok1 & Hc1 & Hl1 & Ht1 & _).
    destruct (IH (addVmMemory true v r) Hok1) as (Hok2 & Hc2 & Ht2).
    split; [exact Hok2|]. split; [lia|].
    rewrite Ht2, Hc1.
    rewrite (take_S_r _ _ _ Hl1), Ht1. now rewrite <- app_assoc.
Qed.

(** X11.  The memory handles added for a kernel are found at the indices
    they were added at: after the count is reset, adding handles on a
    virtual heap leaves them, in order, in the first slots of the array, with
    the count at their number; the array grows when it must and keeps its
    slots and the count consistent.  Without a virtual heap nothing is
    recorded. *)
Theorem addVmMemory_round_trip (v : VmMems) (resources : list nat) :
  VmMems_ok v ->
  let v' := fold_left (addVmMemory true) resources (resetCount v) in
  VmMems_ok v'
  /\ memCount_ v' = length resources
  /\ (forall i r, resources !! i = Some r -> vmMems_ v' !! i = Some (Some r))
  /\ fold_left (addVmMemory false) resources v = v.
Proof.
  intros [Hlen Hcnt]. cbv zeta.
  assert (Hok0 : VmMems_ok (resetCount v))
    by (unfold VmMems_ok, resetCount; cbn; split; [exact Hlen | lia]).
  destruct (addVmMemory_all resources (resetCount v) Hok0) as (Hok' & Hc & Ht).
  cbn [resetCount memCount_ take Nat.add] in Hc, Ht.
  cbn [app] in Ht.
  split; [exact Hok'|]. split; [exact Hc|]. split.
  - intros i r Hi.
    assert (Hlt : (i < length resources)%nat) by (eapply lookup_lt_Some; eauto).
    rewrite <- (lookup_take_lt _ (memCount_ (fold_left (addVmMemory true)
                                    resources (resetCount v)))) by lia.
    rewrite Ht. now apply lookup_map_Some.
  - clear. induction resources as [|r rest IH]; [reflexivity | exact IH].
Qed.

Lemma addVmMemory_round_trip_witness :
  let v := {| vmMems_ := [Some 5%nat]; numVmMems_ := 1; memCount_ := 1 |} in
  let v' := fold_left (addVmMemory true) [7; 8; 9]%nat (resetCount v) in
  VmMems_ok v'
  /\ memCount_ v' = 3%nat
  /\ (forall i r, [7; 8; 9]%nat !! i = Some r -> vmMems_ v' !! i = Some (Some r))
  /\ fold_left (addVmMemory false) [7; 8; 9]%nat v = v.
Proof.
  apply (addVmMemory_round_trip
           {| vmMems_ := [Some 5%nat]; numVmMems_ := 1; memCount_ := 1 |}
           [7; 8; 9]%nat).
  split; cbn; lia.
Defined.

End TransferBuffers.

(** ** The layout of the virtual queue *)

Module VirtualQueue.

Local Open Scope Z_scope.

Import ManagedBuffer.

(** The sizes of the structures of gpusched.hpp, whose fields are naturally
    aligned: [AmdVQueueHeader] has 64 bytes and [AmdEvent] 32;
    [AmdAqlWrap] has 64 bytes before its [HsaAqlDispatchPacket]. *)
Definition sizeof_AmdVQueueHeader : Z := 4 + 4 + 8 + 8 + 8 + 4 + 4 + 4 + 4 + 8 + 2 * 4.
Definition sizeof_AmdEvent : Z := 4 + 4 + 3 * 8.

(** What [createVirtualQueue] reads from the device: [maxParameterSize_],
    [numWaitEvents_] and [numDeviceEvents_]. *)
Record Device := {
  maxParameterSize_ : Z;
  numWaitEvents_ : Z;
  numDeviceEvents_ : Z
}.

(** One [AmdAqlWrap] slot as [createVirtualQueue] initialises it. *)
Record slot := {
  kernel_arg_address : Z;
  wait_list : Z
}.

(** The virtual queue [createVirtualQueue] lays out: the size of the
    allocation, the offsets it computes, the header it writes and the
    slots. *)
Record VQueue := {
  allocSize : Z;
  argOffs : Z;
  singleArgSize : Z;
  eventsOffs : Z;
  eventMaskOffs : Z;
  slotMaskOffs : Z;
  aql_slot_num : Z;
  event_slot_num : Z;
  event_slot_mask : Z;
  event_slots : Z;
  aql_slot_mask : Z;
  wait_size : Z;
  arg_size : Z;
  slots : list slot
}.

(** What the allocations of [createVirtualQueue] answer: whether the memory
    of the queue is created and mapped, whether [new AmdVQueueHeader] returns
    an object, and whether the memory of the scheduler parameters is
    created. *)
Record Allocations := {
  virtualQueue_created : bool;
  virtualQueue_mapped : bool;
  vqHeader_allocated : bool;
  schedParams_created : bool
}.

Definition all_allocated : Allocations :=
  {| virtualQueue_created := true; virtualQueue_mapped := true;
     vqHeader_allocated := true; schedParams_created := true |}.

Section CreateVirtualQueue.

(** [HsaAqlDispatchPacket] is declared in newcore.h, which is not among the
    sources; its size is a parameter. *)
Variable sizeof_HsaAqlDispatchPacket : Z.

Definition sizeof_AmdAqlWrap : Z :=
  4 * 4 + 3 * 8 + 4 + 5 * 4 + sizeof_HsaAqlDispatchPacket.

(** [VirtualGPU::createVirtualQueue]: the queue it has laid out when it
    returns [true], [None] when it returns [false]; [vaBase] is the GPU
    address of the memory of the queue.  The local variables are [uint], so
    every assignment is taken modulo 2^32. *)
Definition createVirtualQueue (dev : Device) (alloc : Allocations)
    (vaBase : Z) (deviceQueueSize : Z) : option VQueue :=
  let numSlots := uint32 (deviceQueueSize / sizeof_AmdAqlWrap) in
  let allocSize := deviceQueueSize in
  let allocSize := uint32 (allocSize + sizeof_AmdVQueueHeader) in
  let allocSize := uint32 (alignUp allocSize 128) in
  let argOffs := allocSize in
  let singleArgSize :=
    uint32 (alignUp (maxParameterSize_ dev + 64 + numWaitEvents_ dev * 8) 128) in
  let allocSize := uint32 (allocSize + uint32 (singleArgSize * numSlots)) in
  let eventsOffs := allocSize in
  let allocSize := uint32 (allocSize + numDeviceEvents_ dev * sizeof_AmdEvent) in
  let eventMaskOffs := allocSize in
  let allocSize :=
    uint32 (allocSize + uint32 (alignUp (numDeviceEvents_ dev) 32) / 8) in
  let slotMaskOffs := allocSize in
  let allocSize := uint32 (allocSize + uint32 (alignUp numSlots 32) / 8) in
  if negb (virtualQueue_created alloc) then None
  else if negb (virtualQueue_mapped alloc) then None
  else if negb (vqHeader_allocated alloc) then None
  else if negb (schedParams_created alloc) then None
  else
    Some {| allocSize := allocSize;
            argOffs := argOffs;
            singleArgSize := singleArgSize;
            eventsOffs := eventsOffs;
            eventMaskOffs := eventMaskOffs;
            slotMaskOffs := slotMaskOffs;
            aql_slot_num := numSlots;
            event_slot_num := numDeviceEvents_ dev;
            event_slot_mask := uint64 (vaBase + eventMaskOffs);
            event_slots := uint64 (vaBase + eventsOffs);
            aql_slot_mask := uint64 (vaBase + slotMaskOffs);
            wait_size := numWaitEvents_ dev;
            arg_size := uint32 (maxParameterSize_ dev + 64);
            slots :=
              map (fun i : nat =>
                     let argStart :=
                       uint64 (vaBase + argOffs
                               + uint32 (Z.of_nat i * singleArgSize)) in
                     {| kernel_arg_address := argStart;
                        wait_list :=
                          uint64 (argStart + maxParameterSize_ dev + 64) |})
                (seq 0 (Z.to_nat numSlots)) |}.

(** The size of the allocation in unbounded arithmetic. *)
Definition total_size (dev : Device) (deviceQueueSize : Z) : Z :=
  let numSlots := deviceQueueSize / sizeof_AmdAqlWrap in
  alignUp (deviceQueueSize + sizeof_AmdVQueueHeader) 128
  + alignUp (maxParameterSize_ dev + 64 + numWaitEvents_ dev * 8) 128 * numSlots
  + numDeviceEvents_ dev * sizeof_AmdEvent
  + alignUp (numDeviceEvents_ dev) 32 / 8
  + alignUp numSlots 32 / 8.

(** The device's sizes are the values of unsigned variables, and the
    arguments and wait events of one slot fit in a [uint]. *)
Definition Device_ok (dev : Device) : Prop :=
  0 <= maxParameterSize_ dev /\ 0 <= numWaitEvents_ dev /\
  0 <= numDeviceEvents_ dev /\
  alignUp (maxParameterSize_ dev + 64 + numWaitEvents_ dev * 8) 128 < 2 ^ 32.

End CreateVirtualQueue.

(** A device with 1 KiB of kernel parameters, 8 wait events and 1024 device
    events. *)
Definition example_device : Device :=
  {| maxParameterSize_ := 1024; numWaitEvents_ := 8; numDeviceEvents_ := 1024 |}.

(** *** Properties *)

Lemma alignUp_bounds (value alignment : Z) :
  0 < alignment ->
  value <= alignUp value alignment < value + alignment
  /\ alignUp value alignment mod alignment = 0
  /\ alignUp value alignment = (value + alignment - 1) / alignment * alignment.
Proof.
  intros Hal. unfold alignUp.
  pose proof (Z.div_mod (value + alignment - 1) alignment ltac:(lia)) as Hdm.
  pose proof (Z.mod_pos_bound (value + alignment - 1) alignment Hal) as Hb.
  split; [lia|]. split; [apply Z.mod_mul; lia | reflexivity].
Qed.

(** A mask of [alignUp n 32 / 8] bytes has a bit for each of [n] items. *)
Lemma mask_bytes (n : Z) :
  0 <= n -> 0 <= alignUp n 32 / 8 /\ n <= 8 * (alignUp n 32 / 8).
Proof.
  intros Hn. destruct (alignUp_bounds n 32 ltac:(lia)) as (Hb & _ & Heq).
  rewrite Heq. set (q := (n + 32 - 1) / 32) in *.
  replace (q * 32) with (q * 4 * 8) in * by lia.
  rewrite Z.div_mul by lia. lia.
Qed.

Lemma lookup_slots {A} (f : nat -> A) (n i : nat) (x : A) :
  map f (seq 0 n) !! i = Some x -> (i < n)%nat /\ x = f i.
Proof.
  change (map f (seq 0 n)) with (f <$> seq 0 n).
  rewrite list_lookup_fmap. intros H.
  destruct (seq 0 n !! i) as [j|] eqn:Hj; [|discriminate H].
  apply lookup_seq in Hj. cbn in Hj, H. destruct Hj as [-> Hlt].
  injection H as <-. auto.
Qed.

(** X12.  When the sizes do not overflow (the block of one slot and
    [total_size] fit in 32 bits and the allocation ends inside the 64-bit
    address space), the queue
    [createVirtualQueue] lays out has disjoint regions in this order: the
    header and the [aql_slot_num] slots end at or before [argOffs], which is a
    multiple of 128; the argument block of slot [i] is
    [vaBase + argOffs + i * singleArgSize], its wait list starts
    [maxParameterSize_ + 64] bytes later and has room for [numWaitEvents_]
    64-bit entries inside the block, and the block ends at or before the
    events; the events end exactly where the event mask starts; each mask has
    a bit for every event, respectively every slot, and ends where the next
    region starts, the slot mask at [allocSize]. *)
Theorem createVirtualQueue_layout (packet : Z) (dev : Device)
    (alloc : Allocations) (vaBase deviceQueueSize : Z) (q : VQueue) :
  0 <= packet -> Device_ok dev -> 0 <= deviceQueueSize -> 0 <= vaBase ->
  total_size packet dev deviceQueueSize < 2 ^ 32 ->
  vaBase + total_size packet dev deviceQueueSize < 2 ^ 64 ->
  createVirtualQueue packet dev alloc vaBase deviceQueueSize = Some q ->
  allocSize q = total_size packet dev deviceQueueSize
  /\ Z.of_nat (length (slots q)) = aql_slot_num q
  /\ sizeof_AmdVQueueHeader + aql_slot_num q * sizeof_AmdAqlWrap packet
     <= argOffs q
  /\ argOffs q mod 128 = 0
  /\ (forall (i : nat) (s : slot), slots q !! i = Some s ->
        kernel_arg_address s = vaBase + argOffs q + Z.of_nat i * singleArgSize q
        /\ wait_list s = kernel_arg_address s + maxParameterSize_ dev + 64
        /\ wait_list s + numWaitEvents_ dev * 8
           <= kernel_arg_address s + singleArgSize q
        /\ kernel_arg_address s + singleArgSize q <= vaBase + eventsOffs q)
  /\ eventsOffs q = argOffs q + aql_slot_num q * singleArgSize q
  /\ eventMaskOffs q = eventsOffs q + numDeviceEvents_ dev * sizeof_AmdEvent
  /\ eventMaskOffs q <= slotMaskOffs q
  /\ numDeviceEvents_ dev <= 8 * (slotMaskOffs q - eventMaskOffs q)
  /\ slotMaskOffs q <= allocSize q
  /\ aql_slot_num q <= 8 * (allocSize q - slotMaskOffs q)
  /\ event_slots q = vaBase + eventsOffs q
  /\ event_slot_mask q = vaBase + eventMaskOffs q
  /\ aql_slot_mask q = vaBase + slotMaskOffs q.
Proof.
  intros Hp (Hmax & Hw & He & HS32) Hq Hva Ht Hta.
  unfold total_size in Ht, Hta. cbv zeta in Ht, Hta.
  unfold createVirtualQueue. cbv zeta.
  assert (Hwrap : 0 < sizeof_AmdAqlWrap packet)
    by (unfold sizeof_AmdAqlWrap; lia).
  set (n := deviceQueueSize / sizeof_AmdAqlWrap packet) in *.
  set (S := alignUp (maxParameterSize_ dev + 64 + numWaitEvents_ dev * 8) 128) in *.
  set (a := alignUp (deviceQueueSize + sizeof_AmdVQueueHeader) 128) in *.
  assert (Hn : 0 <= n) by (apply Z.div_pos; lia).
  assert (Hnq : n * sizeof_AmdAqlWrap packet <= deviceQueueSize).
  { pose proof (Z.mul_div_le deviceQueueSize (sizeof_AmdAqlWrap packet) Hwrap).
    unfold n. lia. }
  destruct (alignUp_bounds (maxParameterSize_ dev + 64 + numWaitEvents_ dev * 8)
              128 ltac:(lia)) as (HS & _ & _). fold S in HS.
  destruct (alignUp_bounds (deviceQueueSize + sizeof_AmdVQueueHeader)
              128 ltac:(lia)) as (Ha & Hamod & _). fold a in Ha, Hamod.
  destruct (mask_bytes (numDeviceEvents_ dev) He) as (Hme0 & Hme).
  destruct (mask_bytes n Hn) as (Hms0 & Hms).
  assert (HSn : 0 <= S * n) by nia.
  assert (HSn' : S <= S * n \/ n = 0) by nia.
  assert (Hev : 0 <= numDeviceEvents_ dev * sizeof_AmdEvent)
    by (unfold sizeof_AmdEvent; lia).
  assert (Hhdr : sizeof_AmdVQueueHeader = 64) by reflexivity.
  assert (Hae : alignUp (numDeviceEvents_ dev) 32 < 2 ^ 32).
  { destruct (alignUp_bounds (numDeviceEvents_ dev) 32 ltac:(lia)) as (Hb & _ & Heq).
    unfold sizeof_AmdEvent in *. lia. }
  assert (Han : alignUp n 32 < 2 ^ 32).
  { destruct (alignUp_bounds n 32 ltac:(lia)) as (Hb & _ & Heq).
    unfold sizeof_AmdAqlWrap in *. lia. }
  assert (Hae0 : 0 <= alignUp (numDeviceEvents_ dev) 32)
    by (destruct (alignUp_bounds (numDeviceEvents_ dev) 32 ltac:(lia)); lia).
  assert (Han0 : 0 <= alignUp n 32)
    by (destruct (alignUp_bounds n 32 ltac:(lia)); lia).
  rewrite (uint32_small n) by lia.
  rewrite (uint32_small (deviceQueueSize + sizeof_AmdVQueueHeader)) by lia.
  fold a. rewrite (uint32_small a) by lia.
  rewrite (uint32_small S) by (unfold S; lia).
  rewrite (uint32_small (S * n)) by lia.
  rewrite (uint32_small (a + S * n)) by lia.
  rewrite (uint32_small (a + S * n + numDeviceEvents_ dev * sizeof_AmdEvent))
    by lia.
  rewrite (uint32_small (alignUp (numDeviceEvents_ dev) 32)) by lia.
  rewrite (uint32_small (alignUp n 32)) by lia.
  rewrite (uint32_small (a + S * n + numDeviceEvents_ dev * sizeof_AmdEvent
                         + alignUp (numDeviceEvents_ dev) 32 / 8)) by lia.
  rewrite (uint32_small (a + S * n + numDeviceEvents_ dev * sizeof_AmdEvent
                         + alignUp (numDeviceEvents_ dev) 32 / 8
                         + alignUp n 32 / 8)) by lia.
  destruct (virtualQueue_created alloc); [|discriminate].
  destruct (virtualQueue_mapped alloc); [|discriminate].
  destruct (vqHeader_allocated alloc); [|discriminate].
  destruct (schedParams_created alloc); [|discriminate].
  cbn [negb]. intros [= <-]. cbn.
  split; [reflexivity|].
  split; [rewrite length_map, length_seq; lia|].
  split; [lia|]. split; [exact Hamod|].
  split.
  { intros i s Hs. apply lookup_slots in Hs. destruct Hs as [Hi ->]. cbn.
    assert (Hin : Z.of_nat i < n) by lia.
    assert (HiS : 0 <= Z.of_nat i * S /\ Z.of_nat i * S + S <= S * n) by nia.
    rewrite (uint32_small (Z.of_nat i * S)) by lia.
    rewrite (uint64_small (vaBase + a + Z.of_nat i * S)) by lia.
    rewrite (uint64_small (vaBase + a + Z.of_nat i * S + maxParameterSize_ dev + 64))
      by lia.
    lia. }
  rewrite !uint64_small by lia.
  repeat (split; [lia|]). reflexivity.
Qed.

(** The layout holds for a queue of 128 KiB with 64-byte packets based at
    1 MiB. *)
Lemma createVirtualQueue_layout_witness :
  exists q,
    createVirtualQueue 64 example_device all_allocated 1048576 131072 = Some q
    /\ allocSize q = total_size 64 example_device 131072
    /\ argOffs q mod 128 = 0
    /\ eventMaskOffs q
       = eventsOffs q + numDeviceEvents_ example_device * sizeof_AmdEvent.
Proof.
  eexists. split; [reflexivity|].
  assert (Hdev : Device_ok example_device).
  { unfold Device_ok. cbn. repeat split; first [lia | vm_compute; reflexivity]. }
  destruct (createVirtualQueue_layout 64 example_device all_allocated
              1048576 131072 _
              ltac:(lia) Hdev ltac:(lia) ltac:(lia)
              ltac:(vm_compute; reflexivity)
              ltac:(vm_compute; reflexivity)
              eq_refl) as (H1 & _ & _ & H4 & _ & _ & H7 & _).
  split; [exact H1|]. split; [exact H4 | exact H7].
Defined.

End VirtualQueue.

(** ** Markers and forced waits *)

Module Markers.

Import VirtualGPU.

(** Whether a batch holds the command a marker waits for. *)
Definition holds (w : nat) (cb : CommandBatch) : bool :=
  existsb (is_waiting (Some w)) (head_ cb).

(** A batch as [submitMarker] resolves it. *)
Definition awaited (w : nat) (it : CommandBatch) : resolved :=
  {| batch := it; outcome := awaitCompletion it (Some w) |}.

(** A batch as [flush] resolves it. *)
Definition flushed (it : CommandBatch) : resolved :=
  {| batch := it; outcome := awaitCompletion it None |}.

(** A queue with three outstanding batches and an event on the first
    engine. *)
Definition busy_queue : queue :=
  {| cal_events_ := [ {| id := 21; engineId_ := 0 |};
                      {| id := InvalidID; engineId_ := 0 |} ];
     cal_lastTS_ := Some 4%nat;
     cbList_ := [ batch_failed_last; batch_with_failure; batch_failed_last ];
     forceWait_ := false |}.

Definition one_command : list Command :=
  [ {| ident := 9; status := CL_SUBMITTED; profilingInfo_enabled := false |} ].

(** *** Properties *)

Lemma awaitCompletion_found (cb : CommandBatch) (waitingEvent : option nat) :
  found (awaitCompletion cb waitingEvent)
  = existsb (is_waiting waitingEvent) (head_ cb).
Proof.
  unfold awaitCompletion, profilingCollectResults.
  destruct (head_ cb) as [|head rest]; [reflexivity|].
  destruct (profilingInfo_enabled head); reflexivity.
Qed.

(** The event waited for changes nothing but the answer [found]. *)
Lemma awaitCompletion_event (cb : CommandBatch) (waitingEvent : option nat) :
  commands (awaitCompletion cb waitingEvent) = commands (awaitCompletion cb None)
  /\ errors (awaitCompletion cb waitingEvent) = errors (awaitCompletion cb None)
  /\ waited (awaitCompletion cb waitingEvent) = waited (awaitCompletion cb None).
Proof.
  unfold awaitCompletion, profilingCollectResults.
  destruct (head_ cb) as [|head rest]; [now repeat split|].
  destruct (profilingInfo_enabled head); now repeat split.
Qed.

Lemma await_marker_found (w : nat) (pre : list CommandBatch) :
  forall (cb : CommandBatch) (post : list CommandBatch),
    Forall (fun it => holds w it = false) pre ->
    holds w cb = true ->
    await_marker w (pre ++ cb :: post)
    = (true, map (awaited w) (pre ++ [cb]), post).
Proof.
  induction pre as [|it pre IH]; intros cb post Hpre Hcb.
  - cbn [app await_marker outcome map]. rewrite awaitCompletion_found.
    unfold holds in Hcb. rewrite Hcb. reflexivity.
  - apply Forall_cons_1 in Hpre as [Hit Hpre].
    cbn [app await_marker outcome map]. rewrite awaitCompletion_found.
    unfold holds in Hit. rewrite Hit.
    rewrite (IH cb post Hpre Hcb). reflexivity.
Qed.

Lemma await_marker_missing (w : nat) (cbs : list CommandBatch) :
  Forall (fun it => holds w it = false) cbs ->
  await_marker w cbs = (false, map (awaited w) cbs, []).
Proof.
  induction 1 as [|it cbs Hit _ IH]; [reflexivity|].
  cbn [await_marker outcome map]. rewrite awaitCompletion_found.
  unfold holds in Hit. rewrite Hit, IH. reflexivity.
Qed.

Lemma awaited_as_flushed (w : nat) (cbs : list CommandBatch) :
  Forall (fun r =>
            commands (outcome r) = commands (outcome (flushed (batch r)))
            /\ errors (outcome r) = errors (outcome (flushed (batch r))))
    (map (awaited w) cbs).
Proof.
  induction cbs as [|it cbs IH]; [apply Forall_nil_2|].
  cbn [map]. apply Forall_cons_2; [|exact IH].
  cbn [awaited flushed outcome batch].
  destruct (awaitCompletion_event it (Some w)) as (Hc & He & _). now split.
Qed.

(** With the force-wait flag set, or on a queue with no valid event and no
    outstanding batch, [flush] blocks whatever [wait] says. *)
Lemma flush_forced (isDone : GpuEvent -> bool) (gpu : queue)
    (cmdList : list Command) (wait : bool) :
  forceWait_ gpu = true
  \/ (cbList_ gpu = [] /\ existsb isValid (cal_events_ gpu) = false) ->
  flush isDone gpu cmdList wait
  = ({| cal_events_ := map invalidate (cal_events_ gpu);
        cal_lastTS_ := None;
        cbList_ := [];
        forceWait_ := false |},
     map flushed (cbList_ gpu ++ new_batch gpu cmdList)).
Proof.
  intros H. unfold flush.
  assert (Hw : wait
               || (if negb (existsb isValid (cal_events_ gpu))
                      && match cbList_ gpu with [] => true | _ => false end
                   then true else forceWait_ gpu) = true).
  { destruct H as [-> | [-> ->]].
    - destruct (_ && _); apply orb_true_r.
    - apply orb_true_r. }
  rewrite Hw, resolve_blocking. reflexivity.
Qed.

(** X13.  When the command a marker waits for is in an outstanding batch,
    [submitMarker] resolves the batches from the front of the list up to and
    including the first batch that holds the command, in that order, and no
    batch behind it; these leave the list, the batches behind stay in their
    order, and the force-wait flag, the events and the timestamp of the queue
    are not touched.  Each batch gets the statuses and the error reports a
    flush would give it. *)
Theorem submitMarker_found (gpu : queue) (w : nat)
    (pre : list CommandBatch) (cb : CommandBatch) (post : list CommandBatch) :
  cbList_ gpu = pre ++ cb :: post ->
  Forall (fun it => holds w it = false) pre ->
  holds w cb = true ->
  submitMarker gpu (Some w)
  = ({| cal_events_ := cal_events_ gpu;
        cal_lastTS_ := cal_lastTS_ gpu;
        cbList_ := post;
        forceWait_ := forceWait_ gpu |},
     map (awaited w) (pre ++ [cb]))
  /\ Forall (fun r =>
               commands (outcome r) = commands (outcome (flushed (batch r)))
               /\ errors (outcome r) = errors (outcome (flushed (batch r))))
       (snd (submitMarker gpu (Some w))).
Proof.
  intros Hcbs Hpre Hcb. unfold submitMarker.
  rewrite Hcbs, (await_marker_found w pre cb post Hpre Hcb).
  split; [reflexivity|]. cbn [snd]. apply awaited_as_flushed.
Qed.

Lemma submitMarker_found_witness :
  submitMarker busy_queue (Some 3%nat)
  = ({| cal_events_ := cal_events_ busy_queue;
        cal_lastTS_ := cal_lastTS_ busy_queue;
        cbList_ := [batch_failed_last];
        forceWait_ := forceWait_ busy_queue |},
     map (awaited 3) ([batch_failed_last] ++ [batch_with_failure]))
  /\ Forall (fun r =>
               commands (outcome r) = commands (outcome (flushed (batch r)))
               /\ errors (outcome r) = errors (outcome (flushed (batch r))))
       (snd (submitMarker busy_queue (Some 3%nat))).
Proof.
  apply (submitMarker_found busy_queue 3 [batch_failed_last]
           batch_with_failure [batch_failed_last]).
  - reflexivity.
  - apply Forall_cons_2; [reflexivity | apply Forall_nil_2].
  - reflexivity.
Defined.

(** X14.  When no outstanding batch holds the command a marker waits for,
    [submitMarker] resolves every outstanding batch, empties the list and sets
    the force-wait flag; the next [flush] then blocks whatever its [wait]
    argument and whatever the engines report: it resolves the batch of the
    commands it is given, leaves no batch outstanding and clears the flag. *)
Theorem submitMarker_missing_forces_wait (isDone : GpuEvent -> bool)
    (gpu : queue) (w : nat) (cmdList : list Command) (wait : bool) :
  Forall (fun it => holds w it = false) (cbList_ gpu) ->
  let marked := submitMarker gpu (Some w) in
  marked
  = ({| cal_events_ := cal_events_ gpu;
        cal_lastTS_ := cal_lastTS_ gpu;
        cbList_ := [];
        forceWait_ := true |},
     map (awaited w) (cbList_ gpu))
  /\ flush isDone (fst marked) cmdList wait
     = ({| cal_events_ := map invalidate (cal_events_ gpu);
           cal_lastTS_ := None;
           cbList_ := [];
           forceWait_ := false |},
        map flushed (new_batch gpu cmdList)).
Proof.
  intros Hcbs. cbv zeta.
  assert (Hm : submitMarker gpu (Some w)
               = ({| cal_events_ := cal_events_ gpu;
                     cal_lastTS_ := cal_lastTS_ gpu;
                     cbList_ := [];
                     forceWait_ := true |},
                  map (awaited w) (cbList_ gpu))).
  { unfold submitMarker. now rewrite (await_marker_missing w _ Hcbs). }
  rewrite Hm. split; [reflexivity|]. cbn [fst].
  rewrite flush_forced by (left; reflexivity). reflexivity.
Qed.

Lemma submitMarker_missing_forces_wait_witness :
  let marked := submitMarker busy_queue (Some 7%nat) in
  cbList_ (fst marked) = []
  /\ forceWait_ (fst marked) = true
  /\ map batch (snd marked) = cbList_ busy_queue
  /\ map batch (snd (flush (fun _ => false) (fst marked) one_command false))
     = [ {| head_ := one_command; events_ := cal_events_ busy_queue;
            lastTS_ := Some 4%nat |} ].
Proof.
  assert (H : Forall (fun it => holds 7 it = false) (cbList_ busy_queue)).
  { repeat (apply Forall_cons_2; [reflexivity|]). apply Forall_nil_2. }
  destruct (submitMarker_missing_forces_wait (fun _ => false) busy_queue 7
              one_command false H) as [Hm Hf].
  cbv zeta. rewrite Hf, Hm. repeat split.
Defined.

(** X15.  On a queue with no valid event and no outstanding batch, [flush]
    of a list of commands does not return before the batch of these commands
    is resolved, whatever its [wait] argument and whatever the engines
    report: the batch is the only one resolved, it carries the events and the
    timestamp of the queue, and no batch is left outstanding. *)
Theorem flush_idle_queue_blocks (isDone : GpuEvent -> bool) (gpu : queue)
    (head : Command) (rest : list Command) (wait : bool) :
  cbList_ gpu = [] ->
  existsb isValid (cal_events_ gpu) = false ->
  flush isDone gpu (head :: rest) wait
  = ({| cal_events_ := cal_events_ gpu;
        cal_lastTS_ := None;
        cbList_ := [];
        forceWait_ := false |},
     [ flushed {| head_ := head :: rest; events_ := cal_events_ gpu;
                  lastTS_ := cal_lastTS_ gpu |} ]).
Proof.
  intros Hcbs Hev. rewrite flush_forced by (right; now split).
  rewrite Hcbs, (map_invalidate_id _ Hev). reflexivity.
Qed.

Lemma flush_idle_queue_blocks_witness :
  flush (fun _ => false) idle_queue one_command false
  = ({| cal_events_ := cal_events_ idle_queue;
        cal_lastTS_ := None;
        cbList_ := [];
        forceWait_ := false |},
     [ flushed {| head_ := one_command; events_ := cal_events_ idle_queue;
                  lastTS_ := cal_lastTS_ idle_queue |} ]).
Proof.
  exact (flush_idle_queue_blocks (fun _ => false) idle_queue
           {| ident := 9; status := CL_SUBMITTED;
              profilingInfo_enabled := false |} [] false eq_refl eq_refl).
Defined.

End Markers.

(** ** The time line of a profiled batch *)

Module Profiling.

Local Open Scope Z_scope.

(** The values [TimeStamp::value] reports for a command that submitted work
    to the GPU. *)
Record TimeStamp := { start_value : Z; end_value : Z }.

(** The first step of [VirtualGPU::profilingCollectResults]: the walk that
    looks for the first command with a timestamp object.  [cmds] holds
    [data()] of each command of the batch, [now] is [amd::Os::timeNanos()];
    the result is [startTimeStamp] and [endTimeStamp] after the walk. *)
Fixpoint first_valid (readjustTimeGPU_ now : Z) (cmds : list (option TimeStamp))
    : Z * Z :=
  match cmds with
  | [] => (now, now)
  | Some ts :: _ =>
      let startTimeStamp := uint64 (start_value ts - readjustTimeGPU_) in
      (startTimeStamp, startTimeStamp)
  | None :: rest => first_valid readjustTimeGPU_ now rest
  end.

(** The second step: the start and the end the walk has for each command
    when it updates the status of the command. *)
Fixpoint time_line (readjustTimeGPU_ : Z) (startTimeStamp endTimeStamp : Z)
    (cmds : list (option TimeStamp)) : list (Z * Z) :=
  match cmds with
  | [] => []
  | Some ts :: rest =>
      let endTimeStamp := uint64 (end_value ts - readjustTimeGPU_) in
      let startTimeStamp := uint64 (start_value ts - readjustTimeGPU_) in
      (startTimeStamp, endTimeStamp)
      :: time_line readjustTimeGPU_ startTimeStamp endTimeStamp rest
  | None :: rest =>
      let startTimeStamp := endTimeStamp in
      (startTimeStamp, endTimeStamp)
      :: time_line readjustTimeGPU_ startTimeStamp endTimeStamp rest
  end.

(** Both steps. *)
Definition profilingTimeLine (readjustTimeGPU_ now : Z)
    (cmds : list (option TimeStamp)) : list (Z * Z) :=
  let '(startTimeStamp, endTimeStamp) := first_valid readjustTimeGPU_ now cmds in
  time_line readjustTimeGPU_ startTimeStamp endTimeStamp cmds.

(** The GPU ran the timed commands one after the other between [prev] and
    [hi]. *)
Fixpoint gpu_ordered (prev hi : Z) (cmds : list (option TimeStamp)) : Prop :=
  match cmds with
  | [] => True
  | Some ts :: rest =>
      prev <= start_value ts /\ start_value ts <= end_value ts
      /\ end_value ts <= hi /\ gpu_ordered (end_value ts) hi rest
  | None :: rest => gpu_ordered prev hi rest
  end.

(** A time line that does not go back: each command starts at or after [lo],
    ends at or after its start, and the next command starts at or after its
    end. *)
Fixpoint ascending (lo : Z) (l : list (Z * Z)) : Prop :=
  match l with
  | [] => True
  | (s, e) :: rest => lo <= s /\ s <= e /\ ascending e rest
  end.

(** [e] is not after the start of the first timed command. *)
Fixpoint before (readjust e : Z) (cmds : list (option TimeStamp)) : Prop :=
  match cmds with
  | [] => True
  | Some ts :: _ => e <= start_value ts - readjust
  | None :: rest => before readjust e rest
  end.

(** A marker, a kernel, a marker and a copy, on a GPU whose clock is 1000
    ahead. *)
Definition example_batch : list (option TimeStamp) :=
  [ None;
    Some {| start_value := 5000; end_value := 5400 |};
    None;
    Some {| start_value := 5400; end_value := 6100 |} ].

(** *** Properties *)

Lemma gpu_ordered_before (readjust hi : Z) (cmds : list (option TimeStamp)) :
  forall prev : Z,
    gpu_ordered prev hi cmds -> before readjust (prev - readjust) cmds.
Proof.
  induction cmds as [|[ts|] rest IH]; intros prev H.
  - exact I.
  - cbn in *. lia.
  - cbn in *. now apply IH.
Qed.

Lemma time_line_ascending (readjust : Z) (cmds : list (option TimeStamp)) :
  forall (s e prev : Z),
    0 <= readjust <= prev ->
    gpu_ordered prev (2 ^ 64 - 1) cmds ->
    before readjust e cmds ->
    ascending e (time_line readjust s e cmds).
Proof.
  induction cmds as [|[ts|] rest IH]; intros s e prev Hr Hord Hbef.
  - exact I.
  - cbn [gpu_ordered before] in Hord, Hbef.
    destruct Hord as (H1 & H2 & H3 & Hrest).
    cbn [time_line ascending]. cbv zeta.
    rewrite !uint64_small by lia.
    split; [lia|]. split; [lia|].
    apply (IH _ _ (end_value ts)); [lia | exact Hrest |].
    now apply gpu_ordered_before with (hi := 2 ^ 64 - 1).
  - cbn [gpu_ordered before] in Hord, Hbef.
    cbn [time_line ascending]. cbv zeta.
    split; [lia|]. split; [lia|].
    now apply (IH _ _ prev).
Qed.

Lemma time_line_length (readjust : Z) (cmds : list (option TimeStamp)) :
  forall s e : Z, length (time_line readjust s e cmds) = length cmds.
Proof.
  induction cmds as [|[ts|] rest IH]; intros s e; [reflexivity| |];
    cbn [time_line length]; cbv zeta; now rewrite IH.
Qed.

Lemma time_line_all_empty (readjust : Z) (cmds : list (option TimeStamp)) :
  forall s e : Z,
    cmds = replicate (length cmds) None ->
    time_line readjust s e cmds = replicate (length cmds) (e, e).
Proof.
  induction cmds as [|c rest IH]; intros s e Hall; [reflexivity|].
  cbn [length replicate] in Hall. injection Hall as -> Hall.
  cbn [time_line length replicate]. cbv zeta. f_equal. now apply IH.
Qed.

Lemma first_valid_before (readjust now : Z) (cmds : list (option TimeStamp)) :
  forall prev : Z,
    0 <= readjust <= prev ->
    gpu_ordered prev (2 ^ 64 - 1) cmds ->
    fst (first_valid readjust now cmds) = snd (first_valid readjust now cmds)
    /\ before readjust (fst (first_valid readjust now cmds)) cmds.
Proof.
  induction cmds as [|[ts|] rest IH]; intros prev Hr Hord.
  - split; [reflexivity | exact I].
  - cbn [gpu_ordered] in Hord. cbn [first_valid before fst snd]. cbv zeta.
    cbn [fst snd]. rewrite uint64_small by lia. split; [reflexivity | lia].
  - cbn [gpu_ordered] in Hord. cbn [first_valid before]. now apply (IH prev).
Qed.

(** X16.  When the GPU reports, for the timed commands of a batch in their
    order, intervals that follow one another and do not start before the
    adjustment value, the time line [profilingCollectResults] constructs does
    not go back: it has one entry for each command, no command ends before it
    starts, and no command starts before the command in front of it has
    ended. *)
Theorem time_line_monotone (readjust now : Z) (cmds : list (option TimeStamp)) :
  0 <= readjust ->
  gpu_ordered readjust (2 ^ 64 - 1) cmds ->
  length (profilingTimeLine readjust now cmds) = length cmds
  /\ ascending (fst (first_valid readjust now cmds))
       (profilingTimeLine readjust now cmds).
Proof.
  intros Hr Hord. unfold profilingTimeLine.
  destruct (first_valid_before readjust now cmds readjust ltac:(lia) Hord)
    as [Heq Hbef].
  destruct (first_valid readjust now cmds) as [s e]. cbn [fst snd] in *.
  subst e. split.
  - apply time_line_length.
  - now apply (time_line_ascending readjust cmds s s readjust).
Qed.

Lemma time_line_monotone_witness :
  profilingTimeLine 1000 9999 example_batch
  = [ (4000, 4000); (4000, 4400); (4400, 4400); (4400, 5100) ]
  /\ ascending 4000 (profilingTimeLine 1000 9999 example_batch).
Proof.
  split; [reflexivity|].
  apply (time_line_monotone 1000 9999 example_batch); [lia|].
  cbn. lia.
Defined.

(** X17.  A command without a timestamp object takes no time on the time
    line: it starts and ends where the command in front of it ended, and the
    commands in front of the first timed command start and end where that
    command starts; in a batch without any timed command every command
    starts and ends at the time of the call. *)
Theorem empty_commands_take_no_time (readjust now : Z)
    (cmds : list (option TimeStamp)) :
  let tl := profilingTimeLine readjust now cmds in
  (forall (i : nat) (p q : Z * Z),
     cmds !! S i = Some None -> tl !! i = Some p -> tl !! S i = Some q ->
     q = (snd p, snd p))
  /\ (forall (n : nat) (ts : TimeStamp) (i : nat),
        take n cmds = replicate n None -> cmds !! n = Some (Some ts) ->
        (i < n)%nat ->
        tl !! i = Some (uint64 (start_value ts - readjust),
                        uint64 (start_value ts - readjust)))
  /\ (cmds = replicate (length cmds) None ->
      tl = replicate (length cmds) (now, now)).
Proof.
  cbv zeta. unfold profilingTimeLine.
  destruct (first_valid readjust now cmds) as [s0 e0] eqn:Hfirst.
  split; [|split].
  - clear Hfirst. revert s0 e0.
    induction cmds as [|c rest IH]; intros s0 e0 i p q Hc Hp Hq;
      [discriminate Hc|].
    destruct i as [|i].
    + destruct rest as [|c' rest]; [discriminate Hc|].
      cbn in Hc. injection Hc as ->.
      destruct c as [ts|]; cbn in Hp, Hq; injection Hp as <-;
        injection Hq as <-; reflexivity.
    + destruct c as [ts|]; cbn [time_line] in Hp, Hq; cbv zeta in Hp, Hq;
        exact (IH _ _ i p q Hc Hp Hq).
  - intros n ts. revert cmds s0 e0 Hfirst.
    induction n as [|n IH]; intros cmds s0 e0 Hfirst i Htake Hn Hi; [lia|].
    destruct cmds as [|c rest]; [discriminate Hn|].
    cbn [take replicate] in Htake. injection Htake as -> Htake.
    cbn [first_valid] in Hfirst. cbn in Hn.
    assert (He0 : s0 = uint64 (start_value ts - readjust)
                  /\ e0 = uint64 (start_value ts - readjust)).
    { clear IH Hi i. revert rest Htake Hn Hfirst.
      induction n as [|n IHn]; intros rest Htake Hn Hfirst.
      - destruct rest as [|c rest]; [discriminate Hn|].
        cbn in Hn. injection Hn as ->. cbn in Hfirst.
        injection Hfirst as <- <-. now split.
      - destruct rest as [|c rest]; [discriminate Hn|].
        cbn [take replicate] in Htake. injection Htake as -> Htake.
        cbn in Hn. cbn [first_valid] in Hfirst.
        exact (IHn rest Htake Hn Hfirst). }
    destruct He0 as [-> ->].
    destruct i as [|i]; [reflexivity|].
    cbn [time_line]. cbv zeta. cbn [lookup list_lookup].
    apply (IH rest _ _ Hfirst i Htake Hn). lia.
  - intros Hall.
    assert (Hnow : s0 = now /\ e0 = now).
    { revert Hall Hfirst. clear. revert s0 e0.
      induction cmds as [|c rest IH]; intros s0 e0 Hall Hfirst.
      - cbn in Hfirst. injection Hfirst as <- <-. now split.
      - cbn [length replicate] in Hall. injection Hall as -> Hall.
        cbn [first_valid] in Hfirst. exact (IH _ _ Hall Hfirst). }
    destruct Hnow as [-> ->]. now apply time_line_all_empty.
Qed.

Lemma empty_commands_take_no_time_witness :
  (4400, 4400) = (snd (4000, 4400), snd (4000, 4400))
  /\ profilingTimeLine 1000 9999 example_batch !! 0%nat
     = Some (uint64 (5000 - 1000), uint64 (5000 - 1000)).
Proof.
  destruct (empty_commands_take_no_time 1000 9999 example_batch)
    as (Hprev & Hlead & _).
  split.
  - exact (Hprev 1%nat (4000, 4400) (4400, 4400) eq_refl eq_refl eq_refl).
  - exact (Hlead 1%nat {| start_value := 5000; end_value := 5400 |} 0%nat
             eq_refl eq_refl ltac:(lia)).
Defined.

End Profiling.

(** ** Reservations that follow one another *)

Module Reservations.

Local Open Scope Z_scope.

Import ManagedBuffer.

Section ReserveAll.

Variable MaxNumberOfBuffers : nat.

(** The reservations of a caller that reserves one size after the other. *)
Fixpoint reserve_all (b : ManagedBuffer) (sizes : list Z)
    : ManagedBuffer * list reservation :=
  match sizes with
  | [] => (b, [])
  | size :: rest =>
      let r := reserve MaxNumberOfBuffers b size in
      let rs := reserve_all (fst r) rest in
      (fst rs, snd r :: snd rs)
  end.

(** The bytes the sizes take, each aligned. *)
Fixpoint aligned_total (sizes : list Z) : Z :=
  match sizes with
  | [] => 0
  | size :: rest => alignUp size MemAlignment + aligned_total rest
  end.

(** Where blocks of the sizes start when laid out one behind the other from
    [base]. *)
Fixpoint laid_out (base : Z) (sizes : list Z) : list Z :=
  match sizes with
  | [] => []
  | size :: rest => base :: laid_out (base + alignUp size MemAlignment) rest
  end.

(** *** Properties *)

Lemma aligned_total_nonneg (sizes : list Z) :
  Forall (fun size => 0 <= size < 2 ^ 32) sizes -> 0 <= aligned_total sizes.
Proof.
  induction 1 as [|size rest Hs _ IH]; [reflexivity|].
  cbn [aligned_total]. pose proof (alignUp_ge size). lia.
Qed.

(** A reservation that fits behind the cursor. *)
Lemma reserve_in_place (b : ManagedBuffer) (size : Z) :
  ManagedBuffer_ok MaxNumberOfBuffers b ->
  cursor_in_slab b ->
  0 <= size < 2 ^ 32 ->
  wrtOffset_ b + alignUp size MemAlignment <= size_ b ->
  reserve MaxNumberOfBuffers b size
  = ({| buffers_ := buffers_ b;
        activeBuffer_ := activeBuffer_ b;
        size_ := size_ b;
        wrtOffset_ := wrtOffset_ b + alignUp size MemAlignment;
        wrtAddress_ := wrtAddress_ b |},
     {| cpu_address := data (slab b) + wrtOffset_ b;
        gpu_address := vmAddress (slab b) + wrtOffset_ b;
        waits := [] |}).
Proof.
  intros Hok [Hcur Hcap] Hsize Hfit.
  pose proof (alignUp_ge size) as Hge.
  pose proof Hok as (_ & _ & Hsz & Hoff & _ & Hadr & _).
  pose proof (slab_slab_ok _ _ Hok) as (Hv0 & Hv1 & Hd0 & Hd1).
  unfold reserve.
  rewrite (uint32_small (alignUp size MemAlignment)) by lia.
  rewrite (uint32_small (wrtOffset_ b + alignUp size MemAlignment)) by lia.
  cbv zeta.
  destruct (Z.ltb_spec (size_ b) (wrtOffset_ b + alignUp size MemAlignment));
    [lia|].
  cbv iota.
  rewrite (uint32_small (wrtOffset_ b + alignUp size MemAlignment)) by lia.
  rewrite Hadr, !uint64_small by lia. reflexivity.
Qed.

Lemma reserve_all_in_place (sizes : list Z) :
  forall b : ManagedBuffer,
    ManagedBuffer_ok MaxNumberOfBuffers b ->
    cursor_in_slab b ->
    Forall (fun size => 0 <= size < 2 ^ 32) sizes ->
    wrtOffset_ b + aligned_total sizes <= size_ b ->
    fst (reserve_all b sizes)
    = {| buffers_ := buffers_ b;
         activeBuffer_ := activeBuffer_ b;
         size_ := size_ b;
         wrtOffset_ := wrtOffset_ b + aligned_total sizes;
         wrtAddress_ := wrtAddress_ b |}
    /\ Forall (fun r => waits r = []) (snd (reserve_all b sizes))
    /\ map gpu_address (snd (reserve_all b sizes))
       = laid_out (vmAddress (slab b) + wrtOffset_ b) sizes
    /\ map cpu_address (snd (reserve_all b sizes))
       = laid_out (data (slab b) + wrtOffset_ b) sizes.
Proof.
  induction sizes as [|size rest IH]; intros b Hok Hcur Hsizes Hfit.
  - cbn [reserve_all aligned_total fst snd map laid_out]. rewrite Z.add_0_r.
    split; [now destruct b|]. split; [apply Forall_nil_2|]. now split.
  - apply Forall_cons_1 in Hsizes as [Hsize Hrest].
    pose proof (aligned_total_nonneg rest Hrest) as Hnn.
    cbn [aligned_total] in Hfit.
    pose proof (reserve_ok MaxNumberOfBuffers b size Hok) as Hok1.
    revert Hok1. cbn [reserve_all]. cbv zeta.
    rewrite (reserve_in_place b size Hok Hcur Hsize ltac:(lia)).
    cbn [fst snd]. set (b1 := {| buffers_ := buffers_ b |}). intros Hok1.
    assert (Hcur1 : cursor_in_slab b1).
    { destruct Hcur as [Hc1 Hc2]. split; cbn [b1 wrtOffset_ size_]; lia. }
    destruct (IH b1 Hok1 Hcur1 Hrest) as (Hb & Hw & Hg & Hc).
    { cbn [b1 wrtOffset_ size_]. lia. }
    rewrite Hb. cbn [b1 buffers_ activeBuffer_ size_ wrtOffset_ wrtAddress_].
    cbn [aligned_total map laid_out gpu_address cpu_address].
    split; [f_equal; lia|].
    split; [apply Forall_cons_2; [reflexivity | exact Hw]|].
    rewrite Hg, Hc. change (slab b1) with (slab b).
    cbn [b1 wrtOffset_]. rewrite !Z.add_assoc. now split.
Qed.

End ReserveAll.

(** X18.  As long as the aligned sizes fit behind the cursor of the active
    slab, reservations that follow one another are laid out one behind the
    other: none rotates or waits, each starts where the one before it ends
    (at the same offset in the CPU and in the GPU address space), and the
    cursor ends behind the last. *)
Theorem reservations_contiguous (N : nat) (b : ManagedBuffer) (sizes : list Z) :
  ManagedBuffer_ok N b ->
  cursor_in_slab b ->
  Forall (fun size => 0 <= size < 2 ^ 32) sizes ->
  wrtOffset_ b + aligned_total sizes <= size_ b ->
  let b' := fst (reserve_all N b sizes) in
  let rs := snd (reserve_all N b sizes) in
  activeBuffer_ b' = activeBuffer_ b
  /\ buffers_ b' = buffers_ b
  /\ wrtOffset_ b' = wrtOffset_ b + aligned_total sizes
  /\ Forall (fun r => waits r = []) rs
  /\ map gpu_address rs = laid_out (vmAddress (slab b) + wrtOffset_ b) sizes
  /\ map cpu_address rs = laid_out (data (slab b) + wrtOffset_ b) sizes.
Proof.
  intros Hok Hcur Hsizes Hfit. cbv zeta.
  destruct (reserve_all_in_place N sizes b Hok Hcur Hsizes Hfit)
    as (-> & Hw & Hg & Hc).
  cbn [activeBuffer_ buffers_ wrtOffset_]. now repeat split.
Qed.

Lemma reservations_contiguous_witness :
  let b := fst (reserve 3 staging 512) in
  let b' := fst (reserve_all 3 b [100; 1]) in
  let rs := snd (reserve_all 3 b [100; 1]) in
  activeBuffer_ b' = 1%nat
  /\ buffers_ b' = buffers_ b
  /\ wrtOffset_ b' = 512 + aligned_total [100; 1]
  /\ Forall (fun r => waits r = []) rs
  /\ map gpu_address rs = laid_out (131072 + 512) [100; 1]
  /\ map cpu_address rs = laid_out (2097152 + 512) [100; 1].
Proof.
  apply (reservations_contiguous 3 (fst (reserve 3 staging 512)) [100; 1]
           (reserve_ok 3 staging 512 staging_ok)).
  - split; vm_compute; [discriminate | reflexivity].
  - apply Forall_cons_2; [lia|]. apply Forall_cons_2; [lia | apply Forall_nil_2].
  - vm_compute. discriminate.
Defined.

End Reservations.

(** ** Copies and fills through a buffer created from an image *)

Module Transfers.

Local Open Scope Z_scope.

(** What [copyMemory] and [fillMemory] ask of an [amd::Memory]: which object
    it is, whether [getType()] is [CL_MEM_OBJECT_IMAGE1D_BUFFER], and the
    element size of its image format. *)
Record Memory := {
  handle : nat;
  IMAGE1D_BUFFER : bool;
  elementSize : Z
}.

(** The buffers a call creates from images: one for its source, one for its
    destination. *)
Inductive side := Source | Destination.

Definition side_eqb (a b : side) : bool :=
  match a, b with
  | Source, Source | Destination, Destination => true
  | _, _ => false
  end.

(** [dev().getGpuMemory] of a memory object, or of a buffer created from an
    image. *)
Inductive gpu_Memory :=
  | of_memory (m : nat)
  | of_buffer (b : side).

Inductive copy_type :=
  | CL_COMMAND_SVM_MEMCPY
  | CL_COMMAND_COPY_BUFFER
  | CL_COMMAND_COPY_BUFFER_RECT
  | CL_COMMAND_COPY_IMAGE_TO_BUFFER
  | CL_COMMAND_COPY_BUFFER_TO_IMAGE
  | CL_COMMAND_COPY_IMAGE
  | CL_COMMAND_copy_other.

Inductive fill_type :=
  | CL_COMMAND_FILL_BUFFER
  | CL_COMMAND_SVM_MEMFILL
  | CL_COMMAND_FILL_IMAGE
  | CL_COMMAND_fill_other.

(** The operations of the blit manager the queue calls: those of
    [copyMemory] and [fillMemory], and the reads into and the writes from
    host memory of [submitReadMemory] and [submitWriteMemory].  For the
    buffer operations the first coordinate of the origins and of the size is
    kept, which is the one the functions compute; the other operations are
    passed the coordinates of the caller. *)
Inductive blit :=
  | copyBuffer (src dst : gpu_Memory) (srcOrigin dstOrigin size : Z)
      (entire : bool)
  | copyBufferRect (src dst : gpu_Memory) (entire : bool)
  | copyImageToBuffer (src dst : gpu_Memory) (entire : bool)
  | copyBufferToImage (src dst : gpu_Memory) (entire : bool)
  | copyImage (src dst : gpu_Memory) (entire : bool)
  | fillBuffer (memory : gpu_Memory) (patternSize origin size : Z)
      (entire : bool)
  | fillImage (memory : gpu_Memory) (entire : bool)
  | readBuffer (src : gpu_Memory) (origin size : Z) (entire : bool)
  | readBufferRect (src : gpu_Memory) (entire : bool)
  | readImage (src : gpu_Memory) (entire : bool)
  | writeBuffer (dst : gpu_Memory) (origin size : Z) (entire : bool)
  | writeBufferRect (dst : gpu_Memory) (entire : bool)
  | writeImage (dst : gpu_Memory) (entire : bool).

Inductive message :=
  | buffer_creation_failed
  | unsupported_copy
  | copy_failed
  | unsupported_fill
  | fill_failed
  | unmap_copy_failed
  | unhandled_unmap
  | unsupported_read
  | read_failed
  | unsupported_write
  | write_failed
  | map_copy_failed
  | unhandled_map
  | wrong_svm_address
  | svm_map_copy_failed
  | unhandled_svm_map.

(** What a call does, in the order it does it. *)
Inductive effect :=
  | SyncCacheFromHost (m : nat) (skipEntire : option bool)
  | Release (b : side)
  | SetVirtualDevice (b : side)
  | LogError (m : message)
  | Blit (op : blit)
  | SignalWrite (m : nat)
  | SignalWriteOwner
  | RemoveVACache (m : nat)
  | Unmap (m : nat)
  | ClearUnmapWrite (m : nat)
  | ProfilingBegin
  | ProfilingEnd
  | SaveWriteMapInfo (m : nat)
  | Wait (m : nat)
  | CacheWriteBack (m : nat)
  | AddVACache (m : nat)
  | LogWarning (m : message)
  | Dispatch (a : VirtualGPU.action)
  | Resolve (r : VirtualGPU.resolved)
  | SvmFree (p : nat)
  | FreeFunc (svmPointers : list nat).

(** The answers of the runtime: whether [new amd::Buffer] returned an
    object, whether its [create()] succeeded, and the result of each blit
    operation. *)
Record Env := {
  allocated : side -> bool;
  created : side -> bool;
  blit_result : blit -> bool
}.

(** [VirtualGPU::createBufferFromImage]: the pointer it returns ([None] for
    [NULL]) and what it does. *)
Definition createBufferFromImage (env : Env) (b : side)
    : option side * list effect :=
  if allocated env b then
    (Some b, if created env b then [] else [Release b])
  else (None, []).

(** The block "Force buffer read/write for IMAGE1D_BUFFER" behind its
    test. *)
Definition forceBuffer (env : Env) (b : side) : option side * list effect :=
  let r := createBufferFromImage env b in
  match fst r with
  | None => (None, snd r ++ [LogError buffer_creation_failed])
  | Some buffer => (Some buffer, snd r ++ [SetVirtualDevice buffer])
  end.

Definition release (bufferFromImage : option side) : list effect :=
  match bufferFromImage with
  | Some b => [Release b]
  | None => []
  end.

Definition is_set (bufferFromImage : option side) : bool :=
  match bufferFromImage with Some _ => true | None => false end.

(** [VirtualGPU::copyMemory]; [srcOrigin], [dstOrigin] and [size] are the
    first coordinates. *)
Definition copyMemory (env : Env) (type : copy_type) (srcMem dstMem : Memory)
    (entire : bool) (srcOrigin dstOrigin size : Z) : bool * list effect :=
  let sync := [ SyncCacheFromHost (handle dstMem) (Some entire);
                SyncCacheFromHost (handle srcMem) None ] in
  let src := if IMAGE1D_BUFFER srcMem then forceBuffer env Source
             else (None, []) in
  let bufferFromImageSrc := fst src in
  let type := if is_set bufferFromImageSrc then CL_COMMAND_COPY_BUFFER
              else type in
  let srcMemory := match bufferFromImageSrc with
                   | Some b => of_buffer b
                   | None => of_memory (handle srcMem)
                   end in
  let dst := if IMAGE1D_BUFFER dstMem then forceBuffer env Destination
             else (None, []) in
  let bufferFromImageDst := fst dst in
  let type := if is_set bufferFromImageDst then CL_COMMAND_COPY_BUFFER
              else type in
  let dstMemory := match bufferFromImageDst with
                   | Some b => of_buffer b
                   | None => of_memory (handle dstMem)
                   end in
  let switch :=
    match type with
    | CL_COMMAND_SVM_MEMCPY | CL_COMMAND_COPY_BUFFER =>
        let realSrcOrigin :=
          if is_set bufferFromImageSrc
          then uint64 (srcOrigin * elementSize srcMem) else srcOrigin in
        let realDstOrigin :=
          if is_set bufferFromImageSrc then
            if is_set bufferFromImageDst
            then uint64 (dstOrigin * elementSize srcMem) else dstOrigin
          else if is_set bufferFromImageDst
          then uint64 (dstOrigin * elementSize dstMem) else dstOrigin in
        let realSize :=
          if is_set bufferFromImageSrc
          then uint64 (size * elementSize srcMem)
          else if is_set bufferFromImageDst
          then uint64 (size * elementSize dstMem) else size in
        (Some (copyBuffer srcMemory dstMemory realSrcOrigin realDstOrigin
                 realSize entire),
         release bufferFromImageSrc ++ release bufferFromImageDst)
    | CL_COMMAND_COPY_BUFFER_RECT =>
        (Some (copyBufferRect srcMemory dstMemory entire), [])
    | CL_COMMAND_COPY_IMAGE_TO_BUFFER =>
        (Some (copyImageToBuffer srcMemory dstMemory entire), [])
    | CL_COMMAND_COPY_BUFFER_TO_IMAGE =>
        (Some (copyBufferToImage srcMemory dstMemory entire), [])
    | CL_COMMAND_COPY_IMAGE =>
        (Some (copyImage srcMemory dstMemory entire), [])
    | CL_COMMAND_copy_other => (None, [LogError unsupported_copy])
    end in
  let result := match fst switch with
                | Some op => blit_result env op
                | None => false
                end in
  (result,
   sync ++ snd src ++ snd dst
   ++ match fst switch with Some op => [Blit op] | None => [] end
   ++ snd switch
   ++ if result then [SignalWrite (handle dstMem)] else [LogError copy_failed]).

(** [VirtualGPU::fillMemory]; [entire] is
    [amdMemory->isEntirelyCovered(origin, size)], [origin] and [size] are the
    first coordinates. *)
Definition fillMemory (env : Env) (type : fill_type) (amdMemory : Memory)
    (patternSize : Z) (entire : bool) (origin size : Z) : bool * list effect :=
  let sync := [ SyncCacheFromHost (handle amdMemory) (Some entire) ] in
  let forced :=
    match type with
    | CL_COMMAND_FILL_IMAGE =>
        if IMAGE1D_BUFFER amdMemory then forceBuffer env Destination
        else (None, [])
    | _ => (None, [])
    end in
  let bufferFromImage := fst forced in
  let type := if is_set bufferFromImage then CL_COMMAND_FILL_BUFFER else type in
  let memory := match bufferFromImage with
                | Some b => of_buffer b
                | None => of_memory (handle amdMemory)
                end in
  let switch :=
    match type with
    | CL_COMMAND_FILL_BUFFER | CL_COMMAND_SVM_MEMFILL =>
        let realOrigin :=
          if is_set bufferFromImage
          then uint64 (origin * elementSize amdMemory) else origin in
        let realSize :=
          if is_set bufferFromImage
          then uint64 (size * elementSize amdMemory) else size in
        let patternSize :=
          if is_set bufferFromImage then elementSize amdMemory
          else patternSize in
        (Some (fillBuffer memory patternSize realOrigin realSize entire),
         release bufferFromImage)
    | CL_COMMAND_FILL_IMAGE => (Some (fillImage memory entire), [])
    | CL_COMMAND_fill_other => (None, [LogError unsupported_fill])
    end in
  let result := match fst switch with
                | Some op => blit_result env op
                | None => false
                end in
  (result,
   sync ++ snd forced
   ++ match fst switch with Some op => [Blit op] | None => [] end
   ++ snd switch
   ++ if result then [SignalWrite (handle amdMemory)]
      else [LogError fill_failed]).

(** What [submitUnmapMemory] asks of the [gpu::Memory] of the object it
    unmaps: whether its owner has host memory, whether the mapping was for
    writing, whether it is mapped directly and has an address, its map
    target ([mapMemory()], [None] for [NULL]), whether it is a buffer
    ([cal()->buffer_]), and the first coordinates and the flag of
    [writeMapInfo()]. *)
Record Mapping := {
  getHostMem : bool;
  isUnmapWrite : bool;
  isPersistentDirectMap : bool;
  data : bool;
  mapMemory : option nat;
  buffer_ : bool;
  origin_ : Z;
  region_ : Z;
  entire_ : bool
}.

(** [VirtualGPU::submitUnmapMemory]; [vmem] is [vcmd.memory()]. *)
Definition submitUnmapMemory (env : Env) (vmem : Memory) (memory : Mapping)
    (vcmd : VirtualGPU.Command) : VirtualGPU.Command * list effect :=
  let copy op before after :=
    if blit_result env op
    then (vcmd, before ++ [Blit op] ++ after)
    else (VirtualGPU.setStatus vcmd VirtualGPU.CL_OUT_OF_RESOURCES,
          before ++ [Blit op; LogError unmap_copy_failed] ++ after) in
  let r :=
    if getHostMem memory then
      (vcmd,
       (if isUnmapWrite memory
        then [SignalWriteOwner; SyncCacheFromHost (handle vmem) None]
        else [])
       ++ [RemoveVACache (handle vmem)])
    else if isPersistentDirectMap memory && data memory then
      (vcmd, [Unmap (handle vmem)])
    else
      match mapMemory memory with
      | Some map =>
          if isUnmapWrite memory then
            if buffer_ memory then
              copy (copyBuffer (of_memory map) (of_memory (handle vmem)) 0
                      (origin_ memory) (region_ memory) (entire_ memory))
                [] []
            else if IMAGE1D_BUFFER vmem then
              let origin := uint64 (origin_ memory * elementSize vmem) in
              let size := uint64 (region_ memory * elementSize vmem) in
              let forced := forceBuffer env Destination in
              let memoryBuf := match fst forced with
                               | Some b => of_buffer b
                               | None => of_memory (handle vmem)
                               end in
              copy (copyBuffer (of_memory map) memoryBuf 0 origin size
                      (entire_ memory))
                (snd forced) (release (fst forced))
            else
              copy (copyBufferToImage (of_memory map)
                      (of_memory (handle vmem)) (entire_ memory))
                [] []
          else (vcmd, [])
      | None =>
          (VirtualGPU.setStatus vcmd VirtualGPU.CL_INVALID_VALUE,
           [LogError unhandled_unmap])
      end in
  (fst r, snd r ++ [ClearUnmapWrite (handle vmem)]).

(** How often a call releases a buffer. *)
Definition released (b : side) (trace : list effect) : nat :=
  length (List.filter (fun e => match e with
                                | Release b' => side_eqb b b'
                                | _ => false
                                end) trace).

(** The blit operations of a call. *)
Fixpoint blits (trace : list effect) : list blit :=
  match trace with
  | [] => []
  | Blit op :: rest => op :: blits rest
  | _ :: rest => blits rest
  end.

(** Whether a call marks a memory object as written. *)
Definition signals (m : nat) (trace : list effect) : bool :=
  existsb (fun e => match e with
                    | SignalWrite m' => (m =? m')%nat
                    | _ => false
                    end) trace.

(** A test that looks for none of the effects of obtaining a buffer. *)
Definition quiet (f : effect -> bool) : Prop :=
  (forall b, f (Release b) = false)
  /\ (forall b, f (SetVirtualDevice b) = false)
  /\ f (LogError buffer_creation_failed) = false.

Definition message_eqb (a b : message) : bool :=
  match a, b with
  | buffer_creation_failed, buffer_creation_failed
  | unsupported_copy, unsupported_copy
  | copy_failed, copy_failed
  | unsupported_fill, unsupported_fill
  | fill_failed, fill_failed
  | unmap_copy_failed, unmap_copy_failed
  | unhandled_unmap, unhandled_unmap
  | unsupported_read, unsupported_read
  | read_failed, read_failed
  | unsupported_write, unsupported_write
  | write_failed, write_failed
  | map_copy_failed, map_copy_failed
  | unhandled_map, unhandled_map
  | wrong_svm_address, wrong_svm_address
  | svm_map_copy_failed, svm_map_copy_failed
  | unhandled_svm_map, unhandled_svm_map => true
  | _, _ => false
  end.

(** Whether a call reports an error. *)
Definition reports (m : message) (trace : list effect) : bool :=
  existsb (fun e => match e with
                    | LogError m' => message_eqb m m'
                    | _ => false
                    end) trace.

(** How often a buffer of an image-buffer object is released, by what the
    runtime answered. *)
Definition releases_of (env : Env) (b : side) (image : bool) : nat :=
  if image && allocated env b
  then (if created env b then 1 else 2)%nat else 0%nat.

Definition image_buffer (m : nat) : Memory :=
  {| handle := m; IMAGE1D_BUFFER := true; elementSize := 16 |}.

Definition plain_buffer (m : nat) : Memory :=
  {| handle := m; IMAGE1D_BUFFER := false; elementSize := 1 |}.

(** A runtime on which the buffer of the source is allocated and its
    [create()] fails; the blits succeed. *)
Definition create_fails : Env :=
  {| allocated := fun _ => true;
     created := fun b => negb (side_eqb b Source);
     blit_result := fun _ => true |}.

(** *** Properties *)

Lemma blits_app (a b : list effect) : blits (a ++ b) = blits a ++ blits b.
Proof.
  induction a as [|e a IH]; [reflexivity|].
  destruct e; cbn [app blits]; now rewrite ?IH.
Qed.

Lemma quiet_signals (m : nat) :
  quiet (fun e => match e with
                  | SignalWrite m' => (m =? m')%nat
                  | _ => false
                  end).
Proof. now repeat split. Qed.

Lemma quiet_reports (m : message) :
  message_eqb m buffer_creation_failed = false ->
  quiet (fun e => match e with
                  | LogError m' => message_eqb m m'
                  | _ => false
                  end).
Proof. now repeat split. Qed.

(** Obtaining a buffer issues no blit, marks nothing as written and reports
    no failure of the call. *)
Lemma forced_quiet (env : Env) (image : bool) (b : side) :
  let r := if image then forceBuffer env b else (None, []) in
  blits (snd r) = []
  /\ forall f : effect -> bool, quiet f -> existsb f (snd r) = false.
Proof.
  cbv zeta. unfold forceBuffer, createBufferFromImage.
  destruct image; [|now split].
  destruct (allocated env b), (created env b); cbn; (split; [reflexivity|]);
    intros f (H1 & H2 & H3); now rewrite ?H1, ?H2, ?H3.
Qed.

Ltac blit_cases :=
  repeat match goal with
         | |- context [blit_result ?env ?op] => destruct (blit_result env op)
         end.

Ltac runtime_cases env srcMem dstMem :=
  destruct (IMAGE1D_BUFFER srcMem), (IMAGE1D_BUFFER dstMem),
    (allocated env Source), (created env Source),
    (allocated env Destination), (created env Destination).

(** X19.  When the source or the destination of [copyMemory] is an
    image-buffer object for which a buffer is obtained, the type of the copy
    the caller asked for is ignored: the call does what it does for
    [CL_COMMAND_COPY_BUFFER], and the one blit operation it issues is
    [copyBuffer]. *)
Theorem copyMemory_ignores_type (env : Env) (type : copy_type)
    (srcMem dstMem : Memory) (entire : bool) (srcOrigin dstOrigin size : Z) :
  (IMAGE1D_BUFFER srcMem = true /\ allocated env Source = true)
  \/ (IMAGE1D_BUFFER dstMem = true /\ allocated env Destination = true) ->
  copyMemory env type srcMem dstMem entire srcOrigin dstOrigin size
  = copyMemory env CL_COMMAND_COPY_BUFFER srcMem dstMem entire
      srcOrigin dstOrigin size
  /\ exists (src dst : gpu_Memory) (o1 o2 n : Z),
       blits (snd (copyMemory env type srcMem dstMem entire
                     srcOrigin dstOrigin size))
       = [copyBuffer src dst o1 o2 n entire]
       /\ (src = of_buffer Source \/ dst = of_buffer Destination).
Proof.
  intros H. unfold copyMemory, forceBuffer, createBufferFromImage.
  destruct H as [[-> ->] | [-> ->]].
  - split.
    + now destruct (IMAGE1D_BUFFER dstMem), (allocated env Destination).
    + destruct (IMAGE1D_BUFFER dstMem), (allocated env Destination),
        (created env Source), (created env Destination);
        cbn -[uint64]; blit_cases; cbn -[uint64]; do 5 eexists; (split; [reflexivity|]); auto.
  - split.
    + now destruct (IMAGE1D_BUFFER srcMem), (allocated env Source).
    + destruct (IMAGE1D_BUFFER srcMem), (allocated env Source),
        (created env Source), (created env Destination), type;
        cbn -[uint64]; blit_cases; cbn -[uint64]; do 5 eexists; (split; [reflexivity|]); auto.
Qed.

(** A copy of images whose source is an image buffer runs as a buffer copy
    on the buffer created from the source. *)
Lemma copyMemory_ignores_type_witness :
  copyMemory create_fails CL_COMMAND_COPY_IMAGE (image_buffer 1)
    (plain_buffer 2) false 4 0 8
  = copyMemory create_fails CL_COMMAND_COPY_BUFFER (image_buffer 1)
      (plain_buffer 2) false 4 0 8
  /\ exists (src dst : gpu_Memory) (o1 o2 n : Z),
       blits (snd (copyMemory create_fails CL_COMMAND_COPY_IMAGE
                     (image_buffer 1) (plain_buffer 2) false 4 0 8))
       = [copyBuffer src dst o1 o2 n false]
       /\ (src = of_buffer Source \/ dst = of_buffer Destination).
Proof.
  apply (copyMemory_ignores_type create_fails CL_COMMAND_COPY_IMAGE
           (image_buffer 1) (plain_buffer 2) false 4 0 8).
  left. split; reflexivity.
Defined.

(** X20.  [copyMemory] and [fillMemory] release every buffer that
    [createBufferFromImage] hands them, once, whatever the type of the
    command and the result of the blit; as [createBufferFromImage] hands out
    a buffer whose [create()] failed after releasing it, such a buffer is
    used by the blit and released a second time.  No buffer is released for
    an object that is not an image buffer, or when no buffer was
    allocated. *)
Theorem image_buffers_released (env : Env) (srcMem dstMem : Memory)
    (entire : bool) (srcOrigin dstOrigin size patternSize : Z) :
  (forall type : copy_type,
     let trace := snd (copyMemory env type srcMem dstMem entire
                         srcOrigin dstOrigin size) in
     released Source trace = releases_of env Source (IMAGE1D_BUFFER srcMem)
     /\ released Destination trace
        = releases_of env Destination (IMAGE1D_BUFFER dstMem))
  /\ (forall type : fill_type,
        let trace := snd (fillMemory env type dstMem patternSize entire
                            dstOrigin size) in
        released Source trace = 0%nat
        /\ released Destination trace
           = match type with
             | CL_COMMAND_FILL_IMAGE =>
                 releases_of env Destination (IMAGE1D_BUFFER dstMem)
             | _ => 0%nat
             end).
Proof.
  split; intros type; cbv zeta.
  - unfold copyMemory, forceBuffer, createBufferFromImage, releases_of.
    runtime_cases env srcMem dstMem; destruct type; cbn -[uint64]; blit_cases;
      split; reflexivity.
  - unfold fillMemory, forceBuffer, createBufferFromImage, releases_of.
    destruct (IMAGE1D_BUFFER dstMem), (allocated env Destination),
      (created env Destination), type; cbn -[uint64]; blit_cases; split; reflexivity.
Qed.

(** The buffer of the source is released by [createBufferFromImage], used by
    the copy, and released again. *)
Example copyMemory_releases_twice :
  snd (copyMemory create_fails CL_COMMAND_COPY_BUFFER (image_buffer 1)
         (plain_buffer 2) false 4 0 8)
  = [ SyncCacheFromHost 2 (Some false); SyncCacheFromHost 1 None;
      Release Source; SetVirtualDevice Source;
      Blit (copyBuffer (of_buffer Source) (of_memory 2) 64 0 128 false);
      Release Source;
      SignalWrite 2 ].
Proof. reflexivity. Qed.

(** X21.  [copyMemory] and [fillMemory] issue at most one blit operation;
    they return its result, and [false] when they issue none (a type they do
    not support); they mark the destination as written exactly when they
    return [true], and report a failure exactly when they return [false]. *)
Theorem result_signals_write (env : Env) (srcMem dstMem : Memory)
    (entire : bool) (srcOrigin dstOrigin size patternSize : Z) :
  (forall type : copy_type,
     let r := copyMemory env type srcMem dstMem entire
                srcOrigin dstOrigin size in
     (length (blits (snd r)) <= 1)%nat
     /\ fst r = existsb (blit_result env) (blits (snd r))
     /\ signals (handle dstMem) (snd r) = fst r
     /\ reports copy_failed (snd r) = negb (fst r))
  /\ (forall type : fill_type,
        let r := fillMemory env type dstMem patternSize entire
                   dstOrigin size in
        (length (blits (snd r)) <= 1)%nat
        /\ fst r = existsb (blit_result env) (blits (snd r))
        /\ signals (handle dstMem) (snd r) = fst r
        /\ reports fill_failed (snd r) = negb (fst r)).
Proof.
  split; intros type; cbv zeta.
  - destruct (forced_quiet env (IMAGE1D_BUFFER srcMem) Source) as [Hb1 Hq1].
    destruct (forced_quiet env (IMAGE1D_BUFFER dstMem) Destination)
      as [Hb2 Hq2].
    unfold copyMemory. cbv zeta.
    destruct (if IMAGE1D_BUFFER srcMem then forceBuffer env Source
              else (None, [])) as [src es].
    destruct (if IMAGE1D_BUFFER dstMem then forceBuffer env Destination
              else (None, [])) as [dst ed].
    cbn [fst snd] in *. unfold signals, reports.
    pose proof (Hq1 _ (quiet_signals (handle dstMem))) as Hs1.
    pose proof (Hq2 _ (quiet_signals (handle dstMem))) as Hs2.
    pose proof (Hq1 _ (quiet_reports copy_failed eq_refl)) as Hr1.
    pose proof (Hq2 _ (quiet_reports copy_failed eq_refl)) as Hr2.
    clear Hq1 Hq2.
    destruct src as [s|], dst as [d|], type;
      cbn [fst snd is_set release app blits existsb];
      rewrite ?blits_app, ?existsb_app, ?Hb1, ?Hb2, ?Hs1, ?Hs2, ?Hr1, ?Hr2;
      cbn [fst snd is_set release app blits existsb length orb message_eqb];
      blit_cases;
      cbn [fst snd is_set release app blits existsb length orb message_eqb
           negb];
      rewrite ?Nat.eqb_refl; repeat split; lia.
  - destruct (forced_quiet env (IMAGE1D_BUFFER dstMem) Destination)
      as [Hb2 Hq2].
    unfold fillMemory. cbv zeta.
    assert (Hf : exists dst ed,
               match type with
               | CL_COMMAND_FILL_IMAGE =>
                   if IMAGE1D_BUFFER dstMem then forceBuffer env Destination
                   else (None, [])
               | _ => (None, [])
               end = (dst, ed)
               /\ blits ed = [] /\ forall f, quiet f -> existsb f ed = false).
    { destruct type;
        try (exists None, []; split; [reflexivity|]; split; [reflexivity|];
             intros; reflexivity).
      destruct (if IMAGE1D_BUFFER dstMem then forceBuffer env Destination
                else (None, [])) as [dst ed].
      exists dst, ed. split; [reflexivity|]. split; [exact Hb2 | exact Hq2]. }
    destruct Hf as (dst & ed & -> & Hb & Hq).
    cbn [fst snd] in *. unfold signals, reports.
    pose proof (Hq _ (quiet_signals (handle dstMem))) as Hs.
    pose proof (Hq _ (quiet_reports fill_failed eq_refl)) as Hr.
    clear Hq Hq2.
    destruct dst as [d|], type;
      cbn [fst snd is_set release app blits existsb];
      rewrite ?blits_app, ?existsb_app, ?Hb, ?Hs, ?Hr;
      cbn [fst snd is_set release app blits existsb length orb message_eqb];
      blit_cases;
      cbn [fst snd is_set release app blits existsb length orb message_eqb
           negb];
      rewrite ?Nat.eqb_refl; repeat split; lia.
Qed.


End Transfers.

(** ** The entry points of the queue and their failures *)

(** The entry points for the memory commands, their SVM variants and the
    kernel command, with the pointers they follow without a test.  Each takes
    the lock of the queue for the time of the call; the destructor of the
    [ScopedLock] releases it on every return. *)
Module Submit.

Import VirtualGPU Transfers.

Local Open Scope Z_scope.

(** What a call leaves when it returns: its result and what it did, in the
    order it did it.  [None] stands for a call that follows a [NULL] pointer
    or uses an object that has been deleted: the source gives such a call no
    result. *)
Definition call (A : Type) : Type := option (A * list effect).

Definition ret {A : Type} (a : A) : call A := Some (a, []).

Definition bind {A B : Type} (m : call A) (k : A -> call B) : call B :=
  match m with
  | Some (a, done) =>
      match k a with
      | Some (b, more) => Some (b, done ++ more)
      | None => None
      end
  | None => None
  end.

Notation "'let*' x ':=' m 'in' k" := (bind m (fun x => k))
  (at level 10, x pattern, m at level 100, k at level 200).

Definition does (es : list effect) : call unit := Some (tt, es).

(** Following a pointer; [found] tells that it is not [NULL] and that the
    object it points to is there. *)
Definition deref (found : bool) : call unit :=
  if found then ret tt else None.

Inductive read_type :=
  | CL_COMMAND_READ_BUFFER
  | CL_COMMAND_READ_BUFFER_RECT
  | CL_COMMAND_READ_IMAGE
  | CL_COMMAND_read_other.

Inductive write_type :=
  | CL_COMMAND_WRITE_BUFFER
  | CL_COMMAND_WRITE_BUFFER_RECT
  | CL_COMMAND_WRITE_IMAGE
  | CL_COMMAND_write_other.

Section Calls.

(** Whether [dev().getGpuMemory] finds device memory: the pointer it returns
    is not [NULL]. *)
Variable getGpuMemory : gpu_Memory -> bool.

(** The answers of the runtime and of the blit manager. *)
Variable env : Env.

(** The device memory a call works on: that of the buffer obtained from the
    image when there is one, that of the memory object otherwise. *)
Definition device_memory (bufferFromImage : option side) (m : Memory)
    : gpu_Memory :=
  match bufferFromImage with
  | Some b => of_buffer b
  | None => of_memory (handle m)
  end.

(** The block "Force buffer read/write for IMAGE1D_BUFFER" behind its test,
    with the pointer it follows: [setVirtualDevice] is called on the buffer
    [createBufferFromImage] returns, and that function has released the
    buffer, which deletes it, when its [create()] failed. *)
Definition forceBuffer (b : side) : call (option side) :=
  let r := createBufferFromImage env b in
  let* _ := does (snd r) in
  match fst r with
  | None =>
      let* _ := does [LogError buffer_creation_failed] in
      ret None
  | Some buffer =>
      let* _ := deref (created env buffer) in
      let* _ := does [SetVirtualDevice buffer] in
      ret (Some buffer)
  end.

(** A call of the blit manager; [memories] are the device memory objects
    the call passes by reference ([*memory]) whose pointers come from
    [getGpuMemory]. *)
Definition blitMgr (op : blit) (memories : list gpu_Memory) : call bool :=
  let* _ := deref (forallb getGpuMemory memories) in
  let* _ := does [Blit op] in
  ret (blit_result env op).

(** [VirtualGPU::submitReadMemory]; [source] is [vcmd.source()],
    [hostMemory] what [findMemoryFromVA] finds for [vcmd.destination()] (the
    memory object that holds the address and the offset of the address in
    it, [None] for [NULL]), [origin] and [size] are the first coordinates. *)
Definition submitReadMemory (type : read_type) (source : Memory)
    (hostMemory : option (nat * Z)) (origin size : Z)
    (isEntireMemory : bool) (vcmd : Command) : call Command :=
  let* _ := does [ProfilingBegin] in
  let* _ := deref (getGpuMemory (of_memory (handle source))) in
  let* _ := does [SyncCacheFromHost (handle source) None] in
  let* bufferFromImage :=
    match type with
    | CL_COMMAND_READ_IMAGE =>
        if IMAGE1D_BUFFER source then forceBuffer Source else ret None
    | _ => ret None
    end in
  let type := if is_set bufferFromImage then CL_COMMAND_READ_BUFFER
              else type in
  let memory := device_memory bufferFromImage source in
  let* result :=
    match type with
    | CL_COMMAND_READ_BUFFER =>
        let origin := if is_set bufferFromImage
                      then uint64 (origin * elementSize source) else origin in
        let size := if is_set bufferFromImage
                    then uint64 (size * elementSize source) else size in
        let* result :=
          match hostMemory with
          | Some (h, offset) =>
              blitMgr (copyBuffer memory (of_memory h) origin offset size
                         isEntireMemory) [memory]
          | None =>
              blitMgr (readBuffer memory origin size isEntireMemory) [memory]
          end in
        let* _ := does (release bufferFromImage) in
        ret result
    | CL_COMMAND_READ_BUFFER_RECT =>
        match hostMemory with
        | Some (h, offset) =>
            if offset =? 0
            then blitMgr (copyBufferRect memory (of_memory h) isEntireMemory)
                   [memory]
            else blitMgr (readBufferRect memory isEntireMemory) [memory]
        | None => blitMgr (readBufferRect memory isEntireMemory) [memory]
        end
    | CL_COMMAND_READ_IMAGE =>
        match hostMemory with
        | Some (h, offset) =>
            blitMgr (copyImageToBuffer memory (of_memory h) isEntireMemory)
              [memory]
        | None => blitMgr (readImage memory isEntireMemory) [memory]
        end
    | CL_COMMAND_read_other =>
        let* _ := does [LogError unsupported_read] in
        ret false
    end in
  if result then
    let* _ := does [ProfilingEnd] in
    ret vcmd
  else
    let* _ := does [LogError read_failed; ProfilingEnd] in
    ret (setStatus vcmd CL_INVALID_OPERATION).

(** [VirtualGPU::submitWriteMemory]; [destination] is [vcmd.destination()],
    [hostMemory] what [findMemoryFromVA] finds for [vcmd.source()]. *)
Definition submitWriteMemory (type : write_type) (destination : Memory)
    (hostMemory : option (nat * Z)) (origin size : Z)
    (isEntireMemory : bool) (vcmd : Command) : call Command :=
  let* _ := does [ProfilingBegin] in
  let* _ := deref (getGpuMemory (of_memory (handle destination))) in
  let* _ :=
    does [SyncCacheFromHost (handle destination) (Some isEntireMemory)] in
  let* bufferFromImage :=
    match type with
    | CL_COMMAND_WRITE_IMAGE =>
        if IMAGE1D_BUFFER destination then forceBuffer Destination
        else ret None
    | _ => ret None
    end in
  let type := if is_set bufferFromImage then CL_COMMAND_WRITE_BUFFER
              else type in
  let memory := device_memory bufferFromImage destination in
  let* result :=
    match type with
    | CL_COMMAND_WRITE_BUFFER =>
        let origin := if is_set bufferFromImage
                      then uint64 (origin * elementSize destination)
                      else origin in
        let size := if is_set bufferFromImage
                    then uint64 (size * elementSize destination) else size in
        let* result :=
          match hostMemory with
          | Some (h, offset) =>
              blitMgr (copyBuffer (of_memory h) memory offset origin size
                         isEntireMemory) [memory]
          | None =>
              blitMgr (writeBuffer memory origin size isEntireMemory) [memory]
          end in
        let* _ := does (release bufferFromImage) in
        ret result
    | CL_COMMAND_WRITE_BUFFER_RECT =>
        match hostMemory with
        | Some (h, offset) =>
            if offset =? 0
            then blitMgr (copyBufferRect (of_memory h) memory isEntireMemory)
                   [memory]
            else blitMgr (writeBufferRect memory isEntireMemory) [memory]
        | None => blitMgr (writeBufferRect memory isEntireMemory) [memory]
        end
    | CL_COMMAND_WRITE_IMAGE =>
        match hostMemory with
        | Some (h, offset) =>
            blitMgr (copyBufferToImage (of_memory h) memory isEntireMemory)
              [memory]
        | None => blitMgr (writeImage memory isEntireMemory) [memory]
        end
    | CL_COMMAND_write_other =>
        let* _ := does [LogError unsupported_write] in
        ret false
    end in
  if result then
    let* _ := does [SignalWrite (handle destination); ProfilingEnd] in
    ret vcmd
  else
    let* _ := does [LogError write_failed; ProfilingEnd] in
    ret (setStatus vcmd CL_INVALID_OPERATION).

(** [VirtualGPU::copyMemory] with the pointers it follows; [srcOrigin],
    [dstOrigin] and [size] are the first coordinates. *)
Definition copyMemory (type : copy_type) (srcMem dstMem : Memory)
    (entire : bool) (srcOrigin dstOrigin size : Z) : call bool :=
  let* _ := deref (getGpuMemory (of_memory (handle dstMem))) in
  let* _ := deref (getGpuMemory (of_memory (handle srcMem))) in
  let* _ := does [ SyncCacheFromHost (handle dstMem) (Some entire);
                   SyncCacheFromHost (handle srcMem) None ] in
  let* bufferFromImageSrc :=
    if IMAGE1D_BUFFER srcMem then forceBuffer Source else ret None in
  let type := if is_set bufferFromImageSrc then CL_COMMAND_COPY_BUFFER
              else type in
  let srcMemory := device_memory bufferFromImageSrc srcMem in
  let* bufferFromImageDst :=
    if IMAGE1D_BUFFER dstMem then forceBuffer Destination else ret None in
  let type := if is_set bufferFromImageDst then CL_COMMAND_COPY_BUFFER
              else type in
  let dstMemory := device_memory bufferFromImageDst dstMem in
  let* result :=
    match type with
    | CL_COMMAND_SVM_MEMCPY | CL_COMMAND_COPY_BUFFER =>
        let realSrcOrigin :=
          if is_set bufferFromImageSrc
          then uint64 (srcOrigin * elementSize srcMem) else srcOrigin in
        let realDstOrigin :=
          if is_set bufferFromImageSrc then
            if is_set bufferFromImageDst
            then uint64 (dstOrigin * elementSize srcMem) else dstOrigin
          else if is_set bufferFromImageDst
          then uint64 (dstOrigin * elementSize dstMem) else dstOrigin in
        let realSize :=
          if is_set bufferFromImageSrc
          then uint64 (size * elementSize srcMem)
          else if is_set bufferFromImageDst
          then uint64 (size * elementSize dstMem) else size in
        let* result :=
          blitMgr (copyBuffer srcMemory dstMemory realSrcOrigin realDstOrigin
                     realSize entire) [srcMemory; dstMemory] in
        let* _ := does (release bufferFromImageSrc
                        ++ release bufferFromImageDst) in
        ret result
    | CL_COMMAND_COPY_BUFFER_RECT =>
        blitMgr (copyBufferRect srcMemory dstMemory entire)
          [srcMemory; dstMemory]
    | CL_COMMAND_COPY_IMAGE_TO_BUFFER =>
        blitMgr (copyImageToBuffer srcMemory dstMemory entire)
          [srcMemory; dstMemory]
    | CL_COMMAND_COPY_BUFFER_TO_IMAGE =>
        blitMgr (copyBufferToImage srcMemory dstMemory entire)
          [srcMemory; dstMemory]
    | CL_COMMAND_COPY_IMAGE =>
        blitMgr (copyImage srcMemory dstMemory entire) [srcMemory; dstMemory]
    | CL_COMMAND_copy_other =>
        let* _ := does [LogError unsupported_copy] in
        ret false
    end in
  if result then
    let* _ := does [SignalWrite (handle dstMem)] in
    ret true
  else
    let* _ := does [LogError copy_failed] in
    ret false.

(** [VirtualGPU::submitCopyMemory]. *)
Definition submitCopyMemory (type : copy_type) (source destination : Memory)
    (isEntireMemory : bool) (srcOrigin dstOrigin size : Z) (vcmd : Command)
    : call Command :=
  let* _ := does [ProfilingBegin] in
  let* result := copyMemory type source destination isEntireMemory
                   srcOrigin dstOrigin size in
  let* _ := does [ProfilingEnd] in
  ret (if result then vcmd else setStatus vcmd CL_INVALID_OPERATION).

(** [VirtualGPU::submitSvmCopyMemory]; [srcMem] and [dstMem] are what
    [FindSvmBuffer] finds for the two pointers, [srcOrigin] and [dstOrigin]
    the offsets of the pointers in them, [size] is [vcmd.srcSize()]; the
    booleans are the answers of [validateRegion] and [isEntirelyCovered].
    The two early returns leave without [profilingEnd]. *)
Definition submitSvmCopyMemory (type : copy_type) (srcMem dstMem : option Memory)
    (srcOrigin dstOrigin size : Z)
    (validateRegion_src validateRegion_dst : bool)
    (isEntirelyCovered_src isEntirelyCovered_dst : bool) (vcmd : Command)
    : call Command :=
  let* _ := does [ProfilingBegin] in
  match srcMem, dstMem with
  | Some srcMem, Some dstMem =>
      if negb validateRegion_src || negb validateRegion_dst then
        ret (setStatus vcmd CL_INVALID_OPERATION)
      else
        let entire := isEntirelyCovered_src && isEntirelyCovered_dst in
        let* result := copyMemory type srcMem dstMem entire
                         srcOrigin dstOrigin size in
        let* _ := does [ProfilingEnd] in
        ret (if result then vcmd else setStatus vcmd CL_INVALID_OPERATION)
  | _, _ => ret (setStatus vcmd CL_INVALID_OPERATION)
  end.

(** [VirtualGPU::submitMapMemory]; [vmem] is [vcmd.memory()], [memory] what
    its device memory answers, [mapFlags_WRITE] tells that the flags have
    [CL_MAP_WRITE] or [CL_MAP_WRITE_INVALIDATE_REGION], [mapFlags_READ_WRITE]
    that they have [CL_MAP_READ] or [CL_MAP_WRITE]; [origin] and [size] are
    the first coordinates. *)
Definition submitMapMemory (vmem : Memory) (memory : Mapping)
    (isHostMemDirectAccess : bool) (mapFlags_WRITE mapFlags_READ_WRITE : bool)
    (origin size : Z) (isEntireMemory : bool) (vcmd : Command)
    : call Command :=
  let copy op memories :=
    let* result := blitMgr op memories in
    if result then ret vcmd
    else
      let* _ := does [LogError map_copy_failed] in
      ret (setStatus vcmd CL_MAP_FAILURE) in
  let* _ := does [ProfilingBegin] in
  let* _ := deref (getGpuMemory (of_memory (handle vmem))) in
  let* _ := does (if mapFlags_WRITE then [SaveWriteMapInfo (handle vmem)]
                  else []) in
  let* vcmd :=
    if getHostMem memory then
      let* _ := does ((if isHostMemDirectAccess then []
                       else [Wait (handle vmem)])
                      ++ [CacheWriteBack (handle vmem);
                          AddVACache (handle vmem)]) in
      ret vcmd
    else if isPersistentDirectMap memory then ret vcmd
    else
      match mapMemory memory with
      | Some map =>
          if mapFlags_READ_WRITE then
            if buffer_ memory then
              copy (copyBuffer (of_memory (handle vmem)) (of_memory map)
                      origin 0 size isEntireMemory)
                [of_memory (handle vmem)]
            else if IMAGE1D_BUFFER vmem then
              let origin := uint64 (origin * elementSize vmem) in
              let size := uint64 (size * elementSize vmem) in
              let* bufferFromImage := forceBuffer Source in
              let memoryBuf := device_memory bufferFromImage vmem in
              let* vcmd :=
                copy (copyBuffer memoryBuf (of_memory map) origin 0 size
                        isEntireMemory) [memoryBuf] in
              let* _ := does (release bufferFromImage) in
              ret vcmd
            else
              copy (copyImageToBuffer (of_memory (handle vmem))
                      (of_memory map) isEntireMemory)
                [of_memory (handle vmem)]
          else ret vcmd
      | None =>
          let* _ := does [LogError unhandled_map] in
          ret vcmd
      end in
  let* _ := does [ProfilingEnd] in
  ret vcmd.

(** [VirtualGPU::submitUnmapMemory] with the pointers it follows; [vmem] is
    [vcmd.memory()]. *)
Definition submitUnmapMemory (vmem : Memory) (memory : Mapping)
    (vcmd : Command) : call Command :=
  let copy op memories :=
    let* result := blitMgr op memories in
    if result then ret vcmd
    else
      let* _ := does [LogError unmap_copy_failed] in
      ret (setStatus vcmd CL_OUT_OF_RESOURCES) in
  let* _ := does [ProfilingBegin] in
  let* _ := deref (getGpuMemory (of_memory (handle vmem))) in
  let* vcmd :=
    if getHostMem memory then
      let* _ := does ((if isUnmapWrite memory
                       then [SignalWriteOwner;
                             SyncCacheFromHost (handle vmem) None]
                       else [])
                      ++ [RemoveVACache (handle vmem)]) in
      ret vcmd
    else if isPersistentDirectMap memory && data memory then
      let* _ := does [Unmap (handle vmem)] in
      ret vcmd
    else
      match mapMemory memory with
      | Some map =>
          if isUnmapWrite memory then
            if buffer_ memory then
              copy (copyBuffer (of_memory map) (of_memory (handle vmem)) 0
                      (origin_ memory) (region_ memory) (entire_ memory))
                [of_memory (handle vmem)]
            else if IMAGE1D_BUFFER vmem then
              let origin := uint64 (origin_ memory * elementSize vmem) in
              let size := uint64 (region_ memory * elementSize vmem) in
              let* bufferFromImage := forceBuffer Destination in
              let memoryBuf := device_memory bufferFromImage vmem in
              let* vcmd :=
                copy (copyBuffer (of_memory map) memoryBuf 0 origin size
                        (entire_ memory)) [memoryBuf] in
              let* _ := does (release bufferFromImage) in
              ret vcmd
            else
              copy (copyBufferToImage (of_memory map)
                      (of_memory (handle vmem)) (entire_ memory))
                [of_memory (handle vmem)]
          else ret vcmd
      | None =>
          let* _ := does [LogError unhandled_unmap] in
          ret (setStatus vcmd CL_INVALID_VALUE)
      end in
  let* _ := does [ClearUnmapWrite (handle vmem); ProfilingEnd] in
  ret vcmd.

(** [VirtualGPU::fillMemory] with the pointers it follows; [entire] is
    [amdMemory->isEntirelyCovered(origin, size)], [origin] and [size] are the
    first coordinates. *)
Definition fillMemory (type : fill_type) (amdMemory : Memory)
    (patternSize : Z) (entire : bool) (origin size : Z) : call bool :=
  let* _ := deref (getGpuMemory (of_memory (handle amdMemory))) in
  let* _ := does [SyncCacheFromHost (handle amdMemory) (Some entire)] in
  let* bufferFromImage :=
    match type with
    | CL_COMMAND_FILL_IMAGE =>
        if IMAGE1D_BUFFER amdMemory then forceBuffer Destination
        else ret None
    | _ => ret None
    end in
  let type := if is_set bufferFromImage then CL_COMMAND_FILL_BUFFER
              else type in
  let memory := device_memory bufferFromImage amdMemory in
  let* result :=
    match type with
    | CL_COMMAND_FILL_BUFFER | CL_COMMAND_SVM_MEMFILL =>
        let realOrigin :=
          if is_set bufferFromImage
          then uint64 (origin * elementSize amdMemory) else origin in
        let realSize :=
          if is_set bufferFromImage
          then uint64 (size * elementSize amdMemory) else size in
        let patternSize :=
          if is_set bufferFromImage then elementSize amdMemory
          else patternSize in
        let* result :=
          blitMgr (fillBuffer memory patternSize realOrigin realSize entire)
            [memory] in
        let* _ := does (release bufferFromImage) in
        ret result
    | CL_COMMAND_FILL_IMAGE => blitMgr (fillImage memory entire) [memory]
    | CL_COMMAND_fill_other =>
        let* _ := does [LogError unsupported_fill] in
        ret false
    end in
  if result then
    let* _ := does [SignalWrite (handle amdMemory)] in
    ret true
  else
    let* _ := does [LogError fill_failed] in
    ret false.

(** [VirtualGPU::submitFillMemory]. *)
Definition submitFillMemory (type : fill_type) (memory : Memory)
    (patternSize : Z) (entire : bool) (origin size : Z) (vcmd : Command)
    : call Command :=
  let* _ := does [ProfilingBegin] in
  let* result := fillMemory type memory patternSize entire origin size in
  let* _ := does [ProfilingEnd] in
  ret (if result then vcmd else setStatus vcmd CL_INVALID_OPERATION).

(** [VirtualGPU::submitSvmFillMemory]; [dstMemory] is what [FindSvmBuffer]
    finds for [vcmd.dst()], on which [getSvmPtr] is called, and [offset] the
    offset of the pointer in it. *)
Definition submitSvmFillMemory (type : fill_type) (dstMemory : option Memory)
    (offset patternSize times : Z) (entire : bool) (vcmd : Command)
    : call Command :=
  let* _ := does [ProfilingBegin] in
  match dstMemory with
  | Some dstMemory =>
      let fillSize := uint64 (patternSize * times) in
      let* result := fillMemory type dstMemory patternSize entire
                       offset fillSize in
      let* _ := does [ProfilingEnd] in
      ret (if result then vcmd else setStatus vcmd CL_INVALID_OPERATION)
  | None => None
  end.

(** [VirtualGPU::submitSvmMapMemory]; [svmMem] is [vcmd.getSvmMem()] and
    [memory] what its device memory answers.  The early return leaves
    without [profilingEnd]. *)
Definition submitSvmMapMemory (svmMem : option Memory) (memory : Mapping)
    (mapFlags_WRITE mapFlags_READ_WRITE : bool) (origin size : Z)
    (isEntireMemory : bool) (vcmd : Command) : call Command :=
  let* _ := does [ProfilingBegin] in
  match svmMem with
  | None =>
      let* _ := does [LogWarning wrong_svm_address] in
      ret (setStatus vcmd CL_INVALID_VALUE)
  | Some svmMem =>
      let* _ := deref (getGpuMemory (of_memory (handle svmMem))) in
      let* _ := does (if mapFlags_WRITE
                      then [SaveWriteMapInfo (handle svmMem)] else []) in
      let* vcmd :=
        match mapMemory memory with
        | Some map =>
            if mapFlags_READ_WRITE then
              if buffer_ memory then
                let* result :=
                  blitMgr (copyBuffer (of_memory (handle svmMem))
                             (of_memory map) origin 0 size isEntireMemory)
                    [of_memory (handle svmMem)] in
                if result then ret vcmd
                else
                  let* _ := does [LogError svm_map_copy_failed] in
                  ret (setStatus vcmd CL_MAP_FAILURE)
              else ret vcmd
            else ret vcmd
        | None =>
            let* _ := does [LogError unhandled_svm_map] in
            ret vcmd
        end in
      let* _ := does [ProfilingEnd] in
      ret vcmd
  end.

(** [VirtualGPU::submitSvmUnmapMemory]. *)
Definition submitSvmUnmapMemory (svmMem : option Memory) (memory : Mapping)
    (vcmd : Command) : call Command :=
  let* _ := does [ProfilingBegin] in
  match svmMem with
  | None =>
      let* _ := does [LogWarning wrong_svm_address] in
      ret (setStatus vcmd CL_INVALID_VALUE)
  | Some svmMem =>
      let* _ := deref (getGpuMemory (of_memory (handle svmMem))) in
      let* vcmd :=
        match mapMemory memory with
        | Some map =>
            if isUnmapWrite memory then
              if buffer_ memory then
                let* result :=
                  blitMgr (copyBuffer (of_memory map)
                             (of_memory (handle svmMem)) 0 (origin_ memory)
                             (region_ memory) (entire_ memory))
                    [of_memory (handle svmMem)] in
                if result then ret vcmd
                else
                  let* _ := does [LogError unmap_copy_failed] in
                  ret (setStatus vcmd CL_OUT_OF_RESOURCES)
              else ret vcmd
            else ret vcmd
        | None => ret vcmd
        end in
      let* _ := does [ProfilingEnd] in
      ret vcmd
  end.

(** [VirtualGPU::submitKernel] with the pointer [submitKernelInternal]
    follows first: [getDeviceKernel] tells that [kernel.getDeviceKernel]
    finds the device kernel, on which [hsa()] is called.  The other objects
    the submission of a kernel goes through (the scratch memory of the
    device, the virtual queue and the scheduler parameters of the device
    queue, the kernel table of the program) are made when the device, the
    queues and the program are, and are taken to be there. *)
Definition submitKernel (getDeviceKernel : bool) (hwRing : nat)
    (kernel : KernelEnv) (vcmd : Command) : call Command :=
  let* _ := does [ProfilingBegin] in
  let* _ := deref getDeviceKernel in
  let r := submitKernelInternal hwRing kernel in
  let* _ := does (map Dispatch (snd r)) in
  let* _ := does [ProfilingEnd] in
  ret (if fst r then vcmd else setStatus vcmd CL_INVALID_OPERATION).

(** [VirtualGPU::submitSvmFreeMemory]; [pfnFreeFunc] tells that the command
    has a function to free the pointers with. *)
Definition submitSvmFreeMemory (pfnFreeFunc : bool) (svmPointers : list nat)
    (vcmd : Command) : call Command :=
  let* _ := does [ProfilingBegin] in
  let* _ := does (if pfnFreeFunc then [FreeFunc svmPointers]
                  else map SvmFree svmPointers) in
  let* _ := does [ProfilingEnd] in
  ret vcmd.

(** [VirtualGPU::submitMarker] as an entry point: it takes no lock and
    leaves the marker as it is; of what [VirtualGPU.submitMarker] does to the
    queue, the batches it resolves are kept. *)
Definition submitMarker (gpu : queue) (waitingEvent : option nat)
    (vcmd : Command) : call Command :=
  let* _ :=
    does (map Resolve (snd (VirtualGPU.submitMarker gpu waitingEvent))) in
  ret vcmd.

(** The entry points, each with what it is given besides the command. *)
Inductive entry :=
  | ReadMemory (type : read_type) (source : Memory)
      (hostMemory : option (nat * Z)) (origin size : Z)
      (isEntireMemory : bool)
  | WriteMemory (type : write_type) (destination : Memory)
      (hostMemory : option (nat * Z)) (origin size : Z)
      (isEntireMemory : bool)
  | CopyMemory (type : copy_type) (source destination : Memory)
      (isEntireMemory : bool) (srcOrigin dstOrigin size : Z)
  | SvmCopyMemory (type : copy_type) (srcMem dstMem : option Memory)
      (srcOrigin dstOrigin size : Z)
      (validateRegion_src validateRegion_dst : bool)
      (isEntirelyCovered_src isEntirelyCovered_dst : bool)
  | MapMemory (vmem : Memory) (memory : Mapping)
      (isHostMemDirectAccess : bool)
      (mapFlags_WRITE mapFlags_READ_WRITE : bool) (origin size : Z)
      (isEntireMemory : bool)
  | UnmapMemory (vmem : Memory) (memory : Mapping)
  | FillMemory (type : fill_type) (memory : Memory) (patternSize : Z)
      (entire : bool) (origin size : Z)
  | SvmFillMemory (type : fill_type) (dstMemory : option Memory)
      (offset patternSize times : Z) (entire : bool)
  | SvmMapMemory (svmMem : option Memory) (memory : Mapping)
      (mapFlags_WRITE mapFlags_READ_WRITE : bool) (origin size : Z)
      (isEntireMemory : bool)
  | SvmUnmapMemory (svmMem : option Memory) (memory : Mapping)
  | SvmFreeMemory (pfnFreeFunc : bool) (svmPointers : list nat)
  | Kernel (getDeviceKernel : bool) (hwRing : nat) (kernel : KernelEnv)
  | Marker (gpu : queue) (waitingEvent : option nat).

(** A command is handed to the entry point of its kind. *)
Definition submit (e : entry) (vcmd : Command) : call Command :=
  match e with
  | ReadMemory type source hostMemory origin size isEntireMemory =>
      submitReadMemory type source hostMemory origin size isEntireMemory vcmd
  | WriteMemory type destination hostMemory origin size isEntireMemory =>
      submitWriteMemory type destination hostMemory origin size
        isEntireMemory vcmd
  | CopyMemory type source destination isEntireMemory srcOrigin dstOrigin
      size =>
      submitCopyMemory type source destination isEntireMemory srcOrigin
        dstOrigin size vcmd
  | SvmCopyMemory type srcMem dstMem srcOrigin dstOrigin size valid_src
      valid_dst covered_src covered_dst =>
      submitSvmCopyMemory type srcMem dstMem srcOrigin dstOrigin size
        valid_src valid_dst covered_src covered_dst vcmd
  | MapMemory vmem memory isHostMemDirectAccess mapFlags_WRITE
      mapFlags_READ_WRITE origin size isEntireMemory =>
      submitMapMemory vmem memory isHostMemDirectAccess mapFlags_WRITE
        mapFlags_READ_WRITE origin size isEntireMemory vcmd
  | UnmapMemory vmem memory => submitUnmapMemory vmem memory vcmd
  | FillMemory type memory patternSize entire origin size =>
      submitFillMemory type memory patternSize entire origin size vcmd
  | SvmFillMemory type dstMemory offset patternSize times entire =>
      submitSvmFillMemory type dstMemory offset patternSize times entire vcmd
  | SvmMapMemory svmMem memory mapFlags_WRITE mapFlags_READ_WRITE origin
      size isEntireMemory =>
      submitSvmMapMemory svmMem memory mapFlags_WRITE mapFlags_READ_WRITE
        origin size isEntireMemory vcmd
  | SvmUnmapMemory svmMem memory => submitSvmUnmapMemory svmMem memory vcmd
  | SvmFreeMemory pfnFreeFunc svmPointers =>
      submitSvmFreeMemory pfnFreeFunc svmPointers vcmd
  | Kernel getDeviceKernel hwRing kernel =>
      submitKernel getDeviceKernel hwRing kernel vcmd
  | Marker gpu waitingEvent => submitMarker gpu waitingEvent vcmd
  end.

(** *** The pointers a call follows *)

(** The device has no memory for the object. *)
Definition missing (m : Memory) : bool :=
  negb (getGpuMemory (of_memory (handle m))).

(** A buffer obtained for an image-buffer object that the call cannot use:
    it was allocated, and its [create()] failed, which deleted it, or the
    device has no memory for it. *)
Definition unusable (b : side) (m : Memory) : bool :=
  IMAGE1D_BUFFER m
  && allocated env b
  && (negb (created env b) || negb (getGpuMemory (of_buffer b))).

(** The copy of a map or of an unmap that goes through a buffer obtained
    from the image. *)
Definition maps_image (memory : Mapping) (direct requested : bool) : bool :=
  negb (getHostMem memory) && negb direct
  && match mapMemory memory with Some _ => true | None => false end
  && requested && negb (buffer_ memory).

Definition copy_dangling (srcMem dstMem : Memory) : bool :=
  missing dstMem || missing srcMem
  || unusable Source srcMem || unusable Destination dstMem.

Definition fill_dangling (type : fill_type) (amdMemory : Memory) : bool :=
  missing amdMemory
  || match type with
     | CL_COMMAND_FILL_IMAGE => unusable Destination amdMemory
     | _ => false
     end.

(** Whether the call follows a pointer that is [NULL] or uses an object that
    has been deleted. *)
Definition dangling (e : entry) : bool :=
  match e with
  | ReadMemory type source _ _ _ _ =>
      missing source
      || match type with
         | CL_COMMAND_READ_IMAGE => unusable Source source
         | _ => false
         end
  | WriteMemory type destination _ _ _ _ =>
      missing destination
      || match type with
         | CL_COMMAND_WRITE_IMAGE => unusable Destination destination
         | _ => false
         end
  | CopyMemory _ source destination _ _ _ _ =>
      copy_dangling source destination
  | SvmCopyMemory _ (Some srcMem) (Some dstMem) _ _ _ valid_src valid_dst
      _ _ =>
      valid_src && valid_dst && copy_dangling srcMem dstMem
  | SvmCopyMemory _ _ _ _ _ _ _ _ _ _ => false
  | MapMemory vmem memory _ _ mapFlags_READ_WRITE _ _ _ =>
      missing vmem
      || (maps_image memory (isPersistentDirectMap memory)
            mapFlags_READ_WRITE
          && unusable Source vmem)
  | UnmapMemory vmem memory =>
      missing vmem
      || (maps_image memory (isPersistentDirectMap memory && data memory)
            (isUnmapWrite memory)
          && unusable Destination vmem)
  | FillMemory type memory _ _ _ _ => fill_dangling type memory
  | SvmFillMemory type (Some dstMemory) _ _ _ _ =>
      fill_dangling type dstMemory
  | SvmFillMemory _ None _ _ _ _ => true
  | SvmMapMemory (Some svmMem) _ _ _ _ _ _ => missing svmMem
  | SvmMapMemory None _ _ _ _ _ _ => false
  | SvmUnmapMemory (Some svmMem) _ => missing svmMem
  | SvmUnmapMemory None _ => false
  | SvmFreeMemory _ _ => false
  | Kernel getDeviceKernel _ _ => negb getDeviceKernel
  | Marker _ _ => false
  end.

(** *** The status a call leaves *)

(** The call issued a blit operation that succeeded. *)
Definition succeeded (trace : list effect) : bool :=
  existsb (blit_result env) (blits trace).

(** The call issued a blit operation that failed. *)
Definition failed (trace : list effect) : bool :=
  existsb (fun op => negb (blit_result env op)) (blits trace).

(** The status of a command that was SUBMITTED, after the call. *)
Definition status_after (e : entry) (trace : list effect) : Z :=
  match e with
  | ReadMemory _ _ _ _ _ _
  | WriteMemory _ _ _ _ _ _
  | CopyMemory _ _ _ _ _ _ _
  | SvmCopyMemory _ _ _ _ _ _ _ _ _ _
  | FillMemory _ _ _ _ _ _
  | SvmFillMemory _ _ _ _ _ _ =>
      if succeeded trace then CL_SUBMITTED else CL_INVALID_OPERATION
  | Kernel _ hwRing kernel =>
      if fst (submitKernelInternal hwRing kernel) then CL_SUBMITTED
      else CL_INVALID_OPERATION
  | MapMemory _ _ _ _ _ _ _ _ =>
      if failed trace then CL_MAP_FAILURE else CL_SUBMITTED
  | SvmMapMemory svmMem _ _ _ _ _ _ =>
      match svmMem with
      | None => CL_INVALID_VALUE
      | Some _ => if failed trace then CL_MAP_FAILURE else CL_SUBMITTED
      end
  | UnmapMemory _ memory =>
      if failed trace then CL_OUT_OF_RESOURCES
      else if negb (getHostMem memory)
              && negb (isPersistentDirectMap memory && data memory)
              && match mapMemory memory with Some _ => false | None => true end
      then CL_INVALID_VALUE
      else CL_SUBMITTED
  | SvmUnmapMemory svmMem _ =>
      match svmMem with
      | None => CL_INVALID_VALUE
      | Some _ => if failed trace then CL_OUT_OF_RESOURCES else CL_SUBMITTED
      end
  | SvmFreeMemory _ _ | Marker _ _ => CL_SUBMITTED
  end.

End Calls.


(** A device that has memory for every object, and one that has none. *)
Definition every_memory : gpu_Memory -> bool := fun _ => true.


(** A runtime on which buffers are obtained and every blit fails, one on
    which no buffer is allocated and every blit succeeds. *)
Definition blits_fail : Env :=
  {| allocated := fun _ => true;
     created := fun _ => true;
     blit_result := fun _ => false |}.


(** The device memory of a buffer with a map target and no host memory. *)
Definition remote_buffer : Mapping :=
  {| getHostMem := false; isUnmapWrite := true;
     isPersistentDirectMap := false; data := false; mapMemory := Some 9%nat;
     buffer_ := true; origin_ := 0; region_ := 64; entire_ := true |}.


Definition read_of_buffer : entry :=
  ReadMemory CL_COMMAND_READ_BUFFER (plain_buffer 1) None 0 64 true.


(** *** Properties *)





Ltac known :=
  repeat match goal with
         | H : ?b = true |- context [?b] => rewrite H
         | H : ?b = false |- context [?b] => rewrite H
         end.

Ltac atomic b :=
  lazymatch b with
  | context [if _ then _ else _] => fail
  | context [match _ with _ => _ end] => fail
  | _ => idtac
  end.

Ltac leftmost c :=
  lazymatch c with
  | andb ?a _ => leftmost a
  | orb ?a _ => leftmost a
  | negb ?a => leftmost a
  | _ => c
  end.

Ltac cases :=
  repeat (known; cbn -[uint64]; rewrite ?andb_true_r, ?orb_false_r;
          match goal with
          | |- context [if ?c then _ else _] =>
              let b := leftmost c in atomic b; destruct b eqn:?
          | |- context [match ?x with _ => _ end] => atomic x; destruct x eqn:?
          | |- _ <-> ?c = true =>
              let b := leftmost c in
              lazymatch b with true => fail | false => fail | _ => idtac end;
              atomic b; destruct b eqn:?
          end);
  known; cbn -[uint64].

Lemma by_cases {A : Type} (m : call A) (P : A -> list effect -> Prop) :
  match m with Some (a, trace) => P a trace | None => True end ->
  forall (a : A) (trace : list effect), m = Some (a, trace) -> P a trace.
Proof. intros H a trace E. now rewrite E in H. Qed.




Ltac unfold_calls :=
  unfold submit, dangling, status_after, submitReadMemory, submitWriteMemory,
    submitCopyMemory, submitSvmCopyMemory, submitMapMemory, submitUnmapMemory,
    submitFillMemory, submitSvmFillMemory, submitSvmMapMemory,
    submitSvmUnmapMemory, submitSvmFreeMemory, submitKernel, submitMarker,
    copyMemory, fillMemory, forceBuffer,
    blitMgr, createBufferFromImage, copy_dangling, fill_dangling, maps_image,
    missing, unusable, succeeded, failed, device_memory, bind, ret, does,
    deref.

(** Where they return, [copyMemory], [fillMemory] and [submitUnmapMemory]
    do what their descriptions without the pointers do. *)
Lemma copyMemory_returns (getGpuMemory : gpu_Memory -> bool) (env : Env)
    (type : copy_type) (srcMem dstMem : Memory) (entire : bool)
    (srcOrigin dstOrigin size : Z) :
  forall (result : bool) (trace : list effect),
    copyMemory getGpuMemory env type srcMem dstMem entire srcOrigin dstOrigin
      size = Some (result, trace) ->
    Transfers.copyMemory env type srcMem dstMem entire srcOrigin dstOrigin size
    = (result, trace).
Proof.
  apply by_cases.
  unfold Transfers.copyMemory, Transfers.forceBuffer. unfold_calls.
  cases; try exact I; try discriminate; known; reflexivity.
Qed.

Lemma fillMemory_returns (getGpuMemory : gpu_Memory -> bool) (env : Env)
    (type : fill_type) (amdMemory : Memory) (patternSize : Z) (entire : bool)
    (origin size : Z) :
  forall (result : bool) (trace : list effect),
    fillMemory getGpuMemory env type amdMemory patternSize entire origin size
    = Some (result, trace) ->
    Transfers.fillMemory env type amdMemory patternSize entire origin size
    = (result, trace).
Proof.
  apply by_cases.
  unfold Transfers.fillMemory, Transfers.forceBuffer. unfold_calls.
  cases; try exact I; try discriminate; known; reflexivity.
Qed.

Lemma submitUnmapMemory_returns (getGpuMemory : gpu_Memory -> bool)
    (env : Env) (vmem : Memory) (memory : Mapping) (vcmd : Command) :
  forall (vcmd' : Command) (trace : list effect),
    submitUnmapMemory getGpuMemory env vmem memory vcmd = Some (vcmd', trace) ->
    vcmd' = fst (Transfers.submitUnmapMemory env vmem memory vcmd)
    /\ trace = [ProfilingBegin]
               ++ snd (Transfers.submitUnmapMemory env vmem memory vcmd)
               ++ [ProfilingEnd].
Proof.
  apply by_cases.
  unfold Transfers.submitUnmapMemory, Transfers.forceBuffer. unfold_calls.
  cases; try exact I; try discriminate; known; split; reflexivity.
Qed.

Lemma submitKernel_returns (getDeviceKernel : bool) (hwRing : nat)
    (kernel : KernelEnv) (vcmd : Command) :
  forall (vcmd' : Command) (trace : list effect),
    submitKernel getDeviceKernel hwRing kernel vcmd = Some (vcmd', trace) ->
    vcmd' = fst (VirtualGPU.submitKernel hwRing kernel vcmd)
    /\ trace = [ProfilingBegin]
               ++ map Dispatch (snd (VirtualGPU.submitKernel hwRing kernel vcmd))
               ++ [ProfilingEnd].
Proof.
  apply by_cases. unfold submitKernel, VirtualGPU.submitKernel, bind, does, ret, deref.
  destruct getDeviceKernel; [|exact I].
  destruct (submitKernelInternal hwRing kernel) as [result actions].
  cbn. split; reflexivity.
Qed.




(** A read that fails leaves [CL_INVALID_OPERATION], and an unmap whose copy
    fails [CL_OUT_OF_RESOURCES]. *)
Example failure_statuses :
  option_map (fun r => status (fst r))
    (submit every_memory blits_fail read_of_buffer submitted_command)
  = Some CL_INVALID_OPERATION
  /\ option_map (fun r => status (fst r))
       (submit every_memory blits_fail
          (UnmapMemory (plain_buffer 1) remote_buffer) submitted_command)
     = Some CL_OUT_OF_RESOURCES.
Proof. split; reflexivity. Qed.

End Submit.

(** ** The kernel descriptors of a queue *)

Module KernelDescriptors.

(** The fields of [GslKernelDesc] that [allocKernelDesc] sets and
    [freeKernelDesc] reads; a handle is 0 when it is not set. *)
Record GslKernelDesc := {
  image_ : nat;
  func_ : nat;
  intCb_ : nat;
  uavMask_ : Z
}.

(** The calls into GSL and the C library. *)
Inductive call :=
  | SetScratchBuffer (mem : nat) (i : nat)
  | SetUavMask (mask : Z)
  | SetProgram (func : nat)
  | SetConstants (cb : nat)
  | Free (image : nat)
  | DestroyConstants (cb : nat)
  | DestroyProgramObject (func : nat)
  | LogError.

(** The part of [VirtualGPU] the descriptors live in.  [heap] holds the
    descriptors made by [new GslKernelDesc], at the index that stands for
    their address, [None] once deleted; [gslKernels_] maps an image to the
    address of its descriptor, [None] for [NULL]; [slots_] is
    [slots_.size()]. *)
Record VirtualGPU := {
  heap : list (option GslKernelDesc);
  gslKernels_ : gmap nat (option nat);
  activeKernelDesc_ : option nat;
  slots_ : nat;
  scratchRegNum_ : Z
}.

(** [dev().scratch(hwRing())]: the registers and the memory objects, [None]
    for a [NULL] entry. *)
Record Scratch := {
  regNum_ : Z;
  memObjs_ : list (option nat)
}.

(** A kernel: its image, the size of its arguments, and what its
    [setInternalSamplers] and [bindGlobalHwCb] answer. *)
Record Kernel := {
  calImage : nat;
  argSize : nat;
  setInternalSamplers : bool;
  bindGlobalHwCb : bool
}.

(** What the runtime answers when a descriptor is made: whether [new]
    returns an object, and the function, the constants and the UAV mask
    [moduleLoad] reports, [None] when it fails. *)
Record Loader := {
  allocates : bool;
  moduleLoad : option (nat * nat * Z)
}.

(** [VirtualGPU::VirtualGPU] for these fields. *)
Definition constructed : VirtualGPU :=
  {| heap := []; gslKernels_ := empty; activeKernelDesc_ := None;
     slots_ := 0; scratchRegNum_ := 0 |}.

(** [gslKernels_[calImage]]: the subscript of a map enters a [NULL] for a
    key that is missing. *)
Definition subscript (m : gmap nat (option nat)) (calImage : nat)
    : gmap nat (option nat) * option nat :=
  match m !! calImage with
  | Some desc => (m, desc)
  | None => (<[calImage := None]> m, None)
  end.

(** Following a pointer to a descriptor; [None] when it is [NULL] or the
    object has been deleted. *)
Definition deref (heap : list (option GslKernelDesc)) (desc : option nat)
    : option GslKernelDesc :=
  match desc with
  | Some d => mjoin (heap !! d)
  | None => None
  end.

(** [VirtualGPU::validateScratchBuffer]; [None] when a memory object of the
    scratch is [NULL]. *)
Definition validateScratchBuffer (gpu : VirtualGPU) (scratch : Scratch)
    : option (VirtualGPU * list call) :=
  if (scratchRegNum_ gpu <? regNum_ scratch)%Z then
    match mapM id (memObjs_ scratch) with
    | Some mems =>
        Some ({| heap := heap gpu; gslKernels_ := gslKernels_ gpu;
                 activeKernelDesc_ := activeKernelDesc_ gpu;
                 slots_ := slots_ gpu;
                 scratchRegNum_ := regNum_ scratch |},
              imap (fun i mem => SetScratchBuffer mem i) mems)
    | None => None
    end
  else Some (gpu, []).

(** [VirtualGPU::allocKernelDesc]. *)
Definition allocKernelDesc (gpu : VirtualGPU) (loader : Loader)
    (kernel : Kernel) (image : nat) : VirtualGPU * option nat * list call :=
  let resized heap :=
    {| heap := heap; gslKernels_ := gslKernels_ gpu;
       activeKernelDesc_ := activeKernelDesc_ gpu;
       slots_ := if (slots_ gpu <? argSize kernel)%nat then argSize kernel
                 else slots_ gpu;
       scratchRegNum_ := scratchRegNum_ gpu |} in
  if allocates loader then
    match moduleLoad loader with
    | None =>
        ({| heap := heap gpu ++ [None]; gslKernels_ := gslKernels_ gpu;
            activeKernelDesc_ := activeKernelDesc_ gpu;
            slots_ := slots_ gpu;
            scratchRegNum_ := scratchRegNum_ gpu |},
         None, [LogError])
    | Some (func, intCb, uavMask) =>
        let desc :=
          {| image_ := if (calImage kernel =? image)%nat then 0%nat else image;
             func_ := func; intCb_ := intCb; uavMask_ := uavMask |} in
        (resized (heap gpu ++ [Some desc]), Some (length (heap gpu)), [])
    end
  else (resized (heap gpu), None, []).

(** [VirtualGPU::setActiveKernelDesc]: the queue, the result and the calls,
    or [None] when it follows a pointer to no object. *)
Definition setActiveKernelDesc (gpu : VirtualGPU) (scratch : Scratch)
    (loader : Loader) (kernel : Kernel)
    : option (VirtualGPU * bool * list call) :=
  let s := subscript (gslKernels_ gpu) (calImage kernel) in
  let desc := snd s in
  let gpu :=
    {| heap := heap gpu; gslKernels_ := fst s;
       activeKernelDesc_ := activeKernelDesc_ gpu;
       slots_ := slots_ gpu; scratchRegNum_ := scratchRegNum_ gpu |} in
  match validateScratchBuffer gpu scratch with
  | None => None
  | Some (gpu, calls) =>
      if bool_decide (activeKernelDesc_ gpu = desc)
         && bool_decide (desc <> None)
      then Some (gpu, true, calls)
      else
        let '(gpu, desc, calls') :=
          match desc with
          | Some d => (gpu, Some d, [])
          | None =>
              let '(gpu, desc, calls') :=
                allocKernelDesc gpu loader kernel (calImage kernel) in
              match desc with
              | None => (gpu, None, calls')
              | Some d =>
                  ({| heap := heap gpu;
                      gslKernels_ :=
                        <[calImage kernel := Some d]> (gslKernels_ gpu);
                      activeKernelDesc_ := activeKernelDesc_ gpu;
                      slots_ := slots_ gpu;
                      scratchRegNum_ := scratchRegNum_ gpu |},
                   Some d, calls')
              end
          end in
        match desc with
        | None => Some (gpu, false, calls ++ calls')
        | Some d =>
            match deref (heap gpu) (Some d) with
            | None => None
            | Some new =>
                let mask :=
                  match activeKernelDesc_ gpu with
                  | None => Some [SetUavMask (uavMask_ new)]
                  | Some a =>
                      match deref (heap gpu) (Some a) with
                      | None => None
                      | Some old =>
                          Some (if (uavMask_ old =? uavMask_ new)%Z then []
                                else [SetUavMask (uavMask_ new)])
                      end
                  end in
                match mask with
                | None => None
                | Some mask =>
                    let result :=
                      setInternalSamplers kernel && bindGlobalHwCb kernel in
                    Some ({| heap := heap gpu;
                             gslKernels_ := gslKernels_ gpu;
                             activeKernelDesc_ := Some d;
                             slots_ := slots_ gpu;
                             scratchRegNum_ := scratchRegNum_ gpu |},
                          result,
                          calls ++ calls' ++ mask
                          ++ if result
                             then SetProgram (func_ new)
                                  :: (if (intCb_ new =? 0)%nat then []
                                      else [SetConstants (intCb_ new)])
                             else [])
                end
            end
        end
  end.

Section Accessor.

(** [gslKernelDesc()] is declared in gpuvirtual.hpp, which is not among the
    sources; it is a parameter here, and the properties below take it to be
    the accessor of [activeKernelDesc_], as the comment of the branch that
    tests it, "Clear active kernel desc", has it. *)
Variable gslKernelDesc : VirtualGPU -> option nat.

(** [VirtualGPU::freeKernelDesc] of a pointer that is not [NULL]. *)
Definition freeKernelDesc (gpu : VirtualGPU) (d : nat)
    : option (VirtualGPU * list call) :=
  match deref (heap gpu) (Some d) with
  | None => None
  | Some desc =>
      let active := bool_decide (gslKernelDesc gpu = Some d) in
      Some ({| heap := <[d := None]> (heap gpu);
               gslKernels_ := gslKernels_ gpu;
               activeKernelDesc_ := if active then None
                                    else activeKernelDesc_ gpu;
               slots_ := slots_ gpu;
               scratchRegNum_ := scratchRegNum_ gpu |},
            (if active then [SetProgram 0] else [])
            ++ (if (image_ desc =? 0)%nat then [] else [Free (image_ desc)])
            ++ (if (func_ desc =? 0)%nat then []
                else (if (intCb_ desc =? 0)%nat then []
                      else [DestroyConstants (intCb_ desc)])
                     ++ [DestroyProgramObject (func_ desc)]))
  end.

(** [VirtualGPU::releaseKernel]. *)
Definition releaseKernel (gpu : VirtualGPU) (image : nat)
    : option (VirtualGPU * list call) :=
  let s := subscript (gslKernels_ gpu) image in
  let gpu :=
    {| heap := heap gpu; gslKernels_ := fst s;
       activeKernelDesc_ := activeKernelDesc_ gpu;
       slots_ := slots_ gpu; scratchRegNum_ := scratchRegNum_ gpu |} in
  let freed :=
    match snd s with
    | Some d => freeKernelDesc gpu d
    | None => Some (gpu, [])
    end in
  match freed with
  | None => None
  | Some (gpu, calls) =>
      Some ({| heap := heap gpu;
               gslKernels_ := delete image (gslKernels_ gpu);
               activeKernelDesc_ := activeKernelDesc_ gpu;
               slots_ := slots_ gpu;
               scratchRegNum_ := scratchRegNum_ gpu |},
            calls)
  end.

(** What a queue is asked to do, one call after the other. *)
Inductive request :=
  | Activate (scratch : Scratch) (loader : Loader) (kernel : Kernel)
  | ReleaseKernel (image : nat).

Definition serve (gpu : VirtualGPU) (r : request)
    : option (VirtualGPU * list call) :=
  match r with
  | Activate scratch loader kernel =>
      match setActiveKernelDesc gpu scratch loader kernel with
      | Some (gpu, _, calls) => Some (gpu, calls)
      | None => None
      end
  | ReleaseKernel image => releaseKernel gpu image
  end.

Fixpoint serve_all (gpu : VirtualGPU) (rs : list request)
    : option (VirtualGPU * list call) :=
  match rs with
  | [] => Some (gpu, [])
  | r :: rest =>
      match serve gpu r with
      | None => None
      | Some (gpu, calls) =>
          match serve_all gpu rest with
          | None => None
          | Some (gpu, calls') => Some (gpu, calls ++ calls')
          end
      end
  end.

End Accessor.

(** The descriptors of the table exist, no two images share one, and the
    active descriptor is one of the table. *)
Definition consistent (gpu : VirtualGPU) : Prop :=
  (forall image d, gslKernels_ gpu !! image = Some (Some d) ->
                   is_Some (deref (heap gpu) (Some d)))
  /\ (forall image image' d,
        gslKernels_ gpu !! image = Some (Some d) ->
        gslKernels_ gpu !! image' = Some (Some d) -> image = image')
  /\ (forall a, activeKernelDesc_ gpu = Some a ->
                exists image, gslKernels_ gpu !! image = Some (Some a)).

(** The scratch of a request has no [NULL] memory object. *)
Definition scratch_ok (r : request) : Prop :=
  match r with
  | Activate scratch _ _ => Forall is_Some (memObjs_ scratch)
  | ReleaseKernel _ => True
  end.

(** The same of a heap, a table and an active descriptor. *)
Definition tracked (heap : list (option GslKernelDesc))
    (kernels : gmap nat (option nat)) (active : option nat) : Prop :=
  (forall image d, kernels !! image = Some (Some d) ->
                   is_Some (deref heap (Some d)))
  /\ (forall image image' d,
        kernels !! image = Some (Some d) ->
        kernels !! image' = Some (Some d) -> image = image')
  /\ (forall a, active = Some a ->
                exists image, kernels !! image = Some (Some a)).

(** Two kernels, the scratch of a device and a loader that succeeds. *)
Definition kernel_one : Kernel :=
  {| calImage := 1; argSize := 4; setInternalSamplers := true;
     bindGlobalHwCb := true |}.

Definition kernel_two : Kernel :=
  {| calImage := 2; argSize := 9; setInternalSamplers := true;
     bindGlobalHwCb := false |}.

Definition scratch_of_two : Scratch :=
  {| regNum_ := 8; memObjs_ := [Some 31%nat; Some 32%nat] |}.

Definition loads (func : nat) : Loader :=
  {| allocates := true; moduleLoad := Some (func, 0%nat, 3%Z) |}.

Definition example_requests : list request :=
  [ Activate scratch_of_two (loads 11) kernel_one;
    Activate scratch_of_two (loads 12) kernel_two;
    ReleaseKernel 2;
    Activate scratch_of_two (loads 13) kernel_one;
    ReleaseKernel 1;
    ReleaseKernel 5 ].

(** *** Properties *)

Lemma subscript_lookup (m : gmap nat (option nat)) (image : nat) :
  fst (subscript m image) !! image = Some (snd (subscript m image))
  /\ (forall image' d, fst (subscript m image) !! image' = Some (Some d) <->
                       m !! image' = Some (Some d)).
Proof.
  unfold subscript. destruct (m !! image) as [desc|] eqn:Hm; cbn [fst snd].
  - split; [exact Hm | reflexivity].
  - split; [apply lookup_insert_eq|]. intros image' d.
    destruct (decide (image = image')) as [<-|Hne].
    + rewrite lookup_insert_eq, Hm. split; intros H; discriminate H.
    + now rewrite lookup_insert_ne.
Qed.

Lemma deref_live (heap : list (option GslKernelDesc)) (d : nat) :
  is_Some (deref heap (Some d)) -> (d < length heap)%nat.
Proof.
  unfold deref. intros [desc H].
  destruct (heap !! d) as [o|] eqn:Hd; [|discriminate H].
  now apply lookup_lt_Some in Hd.
Qed.

Lemma deref_grow (heap : list (option GslKernelDesc))
    (x : option GslKernelDesc) (d : nat) :
  is_Some (deref heap (Some d)) ->
  deref (heap ++ [x]) (Some d) = deref heap (Some d).
Proof.
  intros H. apply deref_live in H. unfold deref.
  now rewrite lookup_app_l.
Qed.

Lemma deref_new (heap : list (option GslKernelDesc)) (desc : GslKernelDesc) :
  deref (heap ++ [Some desc]) (Some (length heap)) = Some desc.
Proof.
  unfold deref. rewrite lookup_app_r by lia. now rewrite Nat.sub_diag.
Qed.

Lemma deref_delete (heap : list (option GslKernelDesc)) (d x : nat) :
  x <> d -> deref (<[d := None]> heap) (Some x) = deref heap (Some x).
Proof. intros H. unfold deref. now rewrite list_lookup_insert_ne. Qed.

Lemma tracked_subscript heap m a image :
  tracked heap m a -> tracked heap (fst (subscript m image)) a.
Proof.
  intros (Ha & Hb & Hc).
  destruct (subscript_lookup m image) as [_ Hs].
  split; [|split].
  - intros k d Hk. apply Hs in Hk. eauto.
  - intros k k' d Hk Hk'. apply Hs in Hk, Hk'. eauto.
  - intros x Hx. destruct (Hc x Hx) as [k Hk]. exists k. now apply Hs.
Qed.

Lemma tracked_grow heap m a x :
  tracked heap m a -> tracked (heap ++ [x]) m a.
Proof.
  intros (Ha & Hb & Hc). split; [|split]; [|exact Hb|exact Hc].
  intros k d Hk. rewrite deref_grow; eauto.
Qed.

Lemma tracked_alloc heap m a image desc :
  tracked heap m a ->
  m !! image = Some None ->
  tracked (heap ++ [Some desc]) (<[image := Some (length heap)]> m)
    (Some (length heap)).
Proof.
  intros (Ha & Hb & Hc) Hnull. split; [|split].
  - intros k d Hk. destruct (decide (image = k)) as [<-|Hne].
    + rewrite lookup_insert_eq in Hk. injection Hk as <-.
      rewrite deref_new. eauto.
    + rewrite lookup_insert_ne in Hk by exact Hne.
      rewrite deref_grow; eauto.
  - intros k k' d Hk Hk'.
    destruct (decide (image = k)) as [<-|Hne];
      destruct (decide (image = k')) as [<-|Hne']; [reflexivity| | |].
    + rewrite lookup_insert_eq in Hk. injection Hk as <-.
      rewrite lookup_insert_ne in Hk' by exact Hne'.
      apply Ha, deref_live in Hk'. lia.
    + rewrite lookup_insert_eq in Hk'. injection Hk' as <-.
      rewrite lookup_insert_ne in Hk by exact Hne.
      apply Ha, deref_live in Hk. lia.
    + rewrite lookup_insert_ne in Hk by exact Hne.
      rewrite lookup_insert_ne in Hk' by exact Hne'. eauto.
  - intros x [= <-]. exists image. apply lookup_insert_eq.
Qed.

Lemma tracked_activate heap m a image d :
  tracked heap m a -> m !! image = Some (Some d) -> tracked heap m (Some d).
Proof.
  intros (Ha & Hb & Hc) Hd. split; [exact Ha|]. split; [exact Hb|].
  intros x [= <-]. eauto.
Qed.

Lemma tracked_free heap m a image d :
  tracked heap m a ->
  m !! image = Some (Some d) ->
  tracked (<[d := None]> heap) (delete image m)
    (if bool_decide (a = Some d) then None else a).
Proof.
  intros (Ha & Hb & Hc) Hd. split; [|split].
  - intros k x Hk. apply lookup_delete_Some in Hk as [Hne Hk].
    rewrite deref_delete; [eauto|].
    intros ->. apply Hne. eauto.
  - intros k k' x Hk Hk'.
    apply lookup_delete_Some in Hk as [_ Hk].
    apply lookup_delete_Some in Hk' as [_ Hk']. eauto.
  - intros x Hx. destruct (bool_decide_reflect (a = Some d)) as [_|Hne];
      [discriminate Hx|].
    destruct (Hc x Hx) as [k Hk]. exists k.
    apply lookup_delete_Some. split; [|exact Hk].
    intros <-. rewrite Hd in Hk. injection Hk as <-. now apply Hne.
Qed.

Lemma tracked_erase heap m a image :
  tracked heap m a ->
  m !! image = Some None ->
  tracked heap (delete image m) a.
Proof.
  intros (Ha & Hb & Hc) Hnull. split; [|split].
  - intros k x Hk. apply lookup_delete_Some in Hk as [_ Hk]. eauto.
  - intros k k' x Hk Hk'.
    apply lookup_delete_Some in Hk as [_ Hk].
    apply lookup_delete_Some in Hk' as [_ Hk']. eauto.
  - intros x Hx. destruct (Hc x Hx) as [k Hk]. exists k.
    apply lookup_delete_Some. split; [|exact Hk].
    intros <-. rewrite Hnull in Hk. discriminate Hk.
Qed.

Lemma consistent_tracked (gpu : VirtualGPU) :
  consistent gpu
  <-> tracked (heap gpu) (gslKernels_ gpu) (activeKernelDesc_ gpu).
Proof. reflexivity. Qed.

Lemma validateScratchBuffer_ok (gpu : VirtualGPU) (scratch : Scratch) :
  Forall is_Some (memObjs_ scratch) ->
  exists gpu' calls,
    validateScratchBuffer gpu scratch = Some (gpu', calls)
    /\ heap gpu' = heap gpu
    /\ gslKernels_ gpu' = gslKernels_ gpu
    /\ activeKernelDesc_ gpu' = activeKernelDesc_ gpu.
Proof.
  intros Hs. unfold validateScratchBuffer.
  destruct (_ <? _)%Z; [|now eauto 6].
  assert (Hm : is_Some (mapM id (memObjs_ scratch)))
    by (apply mapM_is_Some; exact Hs).
  destruct Hm as [mems ->]. now eauto 6.
Qed.

Lemma setActiveKernelDesc_consistent (gpu : VirtualGPU) (scratch : Scratch)
    (loader : Loader) (kernel : Kernel) :
  consistent gpu ->
  Forall is_Some (memObjs_ scratch) ->
  exists gpu' result calls,
    setActiveKernelDesc gpu scratch loader kernel = Some (gpu', result, calls)
    /\ consistent gpu'.
Proof.
  intros Hok Hscratch. apply consistent_tracked in Hok.
  apply (tracked_subscript _ _ _ (calImage kernel)) in Hok.
  destruct (subscript_lookup (gslKernels_ gpu) (calImage kernel)) as [Hk _].
  unfold setActiveKernelDesc. cbv zeta.
  destruct (subscript (gslKernels_ gpu) (calImage kernel)) as [m desc].
  cbn [fst snd] in *.
  destruct (validateScratchBuffer_ok
              {| heap := heap gpu; gslKernels_ := m;
                 activeKernelDesc_ := activeKernelDesc_ gpu;
                 slots_ := slots_ gpu; scratchRegNum_ := scratchRegNum_ gpu |}
              scratch Hscratch) as (gpu1 & calls & -> & Hh & Hm & Hact).
  cbn [heap gslKernels_ activeKernelDesc_] in Hh, Hm, Hact.
  assert (Hok1 : tracked (heap gpu1) (gslKernels_ gpu1) (activeKernelDesc_ gpu1))
    by (now rewrite Hh, Hm, Hact).
  rewrite <- Hm in Hk. clear Hok Hh Hm Hact Hscratch gpu m.
  destruct (_ && _); [now eauto 6|].
  assert (Hactive : forall (h : list (option GslKernelDesc)) x,
            (forall d, is_Some (deref (heap gpu1) (Some d)) ->
                       deref h (Some d) = deref (heap gpu1) (Some d)) ->
            exists mask,
              match activeKernelDesc_ gpu1 with
              | None => Some [SetUavMask x]
              | Some a =>
                  match deref h (Some a) with
                  | None => None
                  | Some old =>
                      Some (if (uavMask_ old =? x)%Z then []
                            else [SetUavMask x])
                  end
              end = Some mask).
  { intros h x Hh. destruct (activeKernelDesc_ gpu1) as [a|] eqn:Ha;
      [|now eauto].
    destruct Hok1 as (Hlive & _ & Hc).
    destruct (Hc a eq_refl) as [k Hka]. pose proof (Hlive _ _ Hka) as Hl.
    rewrite (Hh a Hl). destruct Hl as [old ->]. now eauto. }
  destruct desc as [d|].
  - destruct Hok1 as (Hlive & Hb & Hc).
    destruct (Hlive _ _ Hk) as [new Hnew]. rewrite Hnew.
    destruct (Hactive (heap gpu1) (uavMask_ new) ltac:(auto)) as [mask ->].
    do 3 eexists. split; [reflexivity|].
    apply (tracked_activate _ _ (activeKernelDesc_ gpu1) (calImage kernel));
      [now repeat split | exact Hk].
  - unfold allocKernelDesc.
    destruct (allocates loader);
      [destruct (moduleLoad loader) as [[[func intCb] mask]|]|].
    + cbn [heap gslKernels_ activeKernelDesc_ slots_ scratchRegNum_].
      rewrite deref_new.
      destruct (Hactive (heap gpu1
                         ++ [Some {| image_ := if (calImage kernel
                                                   =? calImage kernel)%nat
                                               then 0%nat else calImage kernel;
                                     func_ := func; intCb_ := intCb;
                                     uavMask_ := mask |}])
                  mask) as [mask' Hmask'].
      { intros d Hd. now apply deref_grow. }
      cbn [uavMask_]. rewrite Hmask'.
      do 3 eexists. split; [reflexivity|].
      now apply (tracked_alloc _ _ (activeKernelDesc_ gpu1)).
    + do 3 eexists. split; [reflexivity|]. now apply tracked_grow.
    + do 3 eexists. split; [reflexivity|]. exact Hok1.
Qed.

Lemma releaseKernel_consistent (gslKernelDesc : VirtualGPU -> option nat)
    (gpu : VirtualGPU) (image : nat) :
  (forall gpu, gslKernelDesc gpu = activeKernelDesc_ gpu) ->
  consistent gpu ->
  exists gpu' calls,
    releaseKernel gslKernelDesc gpu image = Some (gpu', calls)
    /\ consistent gpu'.
Proof.
  intros Hacc Hok. apply consistent_tracked in Hok.
  apply (tracked_subscript _ _ _ image) in Hok.
  destruct (subscript_lookup (gslKernels_ gpu) image) as [Hk _].
  unfold releaseKernel. cbv zeta.
  destruct (subscript (gslKernels_ gpu) image) as [m desc].
  cbn [fst snd] in *. destruct desc as [d|].
  - unfold freeKernelDesc. rewrite Hacc.
    cbn [heap gslKernels_ activeKernelDesc_].
    pose proof Hok as (Hlive & _ & _).
    destruct (Hlive _ _ Hk) as [desc ->].
    do 2 eexists. split; [reflexivity|].
    now apply tracked_free.
  - do 2 eexists. split; [reflexivity|]. now apply tracked_erase.
Qed.

Lemma constructed_consistent : consistent constructed.
Proof.
  split; [|split].
  - intros image d H. unfold constructed in H. cbn [gslKernels_] in H.
    now rewrite lookup_empty in H.
  - intros image image' d H. unfold constructed in H. cbn [gslKernels_] in H.
    now rewrite lookup_empty in H.
  - intros a H. discriminate H.
Qed.

Lemma serve_all_consistent (gslKernelDesc : VirtualGPU -> option nat)
    (rs : list request) :
  (forall gpu, gslKernelDesc gpu = activeKernelDesc_ gpu) ->
  forall gpu : VirtualGPU,
    consistent gpu ->
    Forall scratch_ok rs ->
    exists gpu' calls,
      serve_all gslKernelDesc gpu rs = Some (gpu', calls) /\ consistent gpu'.
Proof.
  intros Hacc.
  induction rs as [|r rest IH]; intros gpu Hok Hrs; [now eauto|].
  apply Forall_cons_1 in Hrs as [Hr Hrest].
  assert (Hstep : exists gpu1 calls1,
             serve gslKernelDesc gpu r = Some (gpu1, calls1)
             /\ consistent gpu1).
  { destruct r as [scratch loader kernel | image]; cbn [serve].
    - destruct (setActiveKernelDesc_consistent gpu scratch loader kernel
                  Hok Hr) as (gpu1 & result & calls1 & -> & Hok1).
      now eauto.
    - now apply releaseKernel_consistent. }
  destruct Hstep as (gpu1 & calls1 & Hs & Hok1).
  destruct (IH gpu1 Hok1 Hrest) as (gpu' & calls' & Hs' & Hok').
  cbn [serve_all]. rewrite Hs, Hs'. now eauto.
Qed.

(** X23.  With [gslKernelDesc()] the accessor of the active descriptor:
    whatever kernels a queue is asked to activate and to release, in
    whatever order, and whatever the loader answers, no call follows a
    pointer to a descriptor that has been deleted or was never made, and
    afterwards the active descriptor, when there is one, is a descriptor of
    the table that exists; the descriptors of the table exist, and no two
    images share one (so that none is freed twice). *)
Theorem no_dangling_descriptor (gslKernelDesc : VirtualGPU -> option nat)
    (rs : list request) :
  (forall gpu, gslKernelDesc gpu = activeKernelDesc_ gpu) ->
  Forall scratch_ok rs ->
  exists gpu calls,
    serve_all gslKernelDesc constructed rs = Some (gpu, calls)
    /\ consistent gpu
    /\ (forall a, activeKernelDesc_ gpu = Some a ->
                  is_Some (deref (heap gpu) (Some a))).
Proof.
  intros Hacc Hrs.
  destruct (serve_all_consistent gslKernelDesc rs Hacc constructed
              constructed_consistent Hrs) as (gpu & calls & Hs & Hok).
  exists gpu, calls. split; [exact Hs|]. split; [exact Hok|].
  intros a Ha. destruct Hok as (Hlive & _ & Hc).
  destruct (Hc a Ha) as [image Himage]. exact (Hlive _ _ Himage).
Qed.

Lemma no_dangling_descriptor_witness :
  exists gpu calls,
    serve_all activeKernelDesc_ constructed example_requests
    = Some (gpu, calls)
    /\ consistent gpu
    /\ (forall a, activeKernelDesc_ gpu = Some a ->
                  is_Some (deref (heap gpu) (Some a))).
Proof.
  apply (no_dangling_descriptor activeKernelDesc_ example_requests);
    [reflexivity|].
  unfold example_requests, scratch_ok, scratch_of_two.
  repeat (apply Forall_cons_2;
          [first [exact I
                 | cbn [memObjs_];
                   repeat (apply Forall_cons_2; [eexists; reflexivity|]);
                   apply Forall_nil_2]|]).
  apply Forall_nil_2.
Defined.

(** The calls of the example: the second kernel is released while it is
    active, which resets the program; the first kernel is then activated from
    the table without loading it again. *)
Example example_requests_calls :
  option_map snd (serve_all activeKernelDesc_ constructed example_requests)
  = Some [ SetScratchBuffer 31 0; SetScratchBuffer 32 1;
           SetUavMask 3; SetProgram 11;
           SetProgram 0; DestroyProgramObject 12;
           SetUavMask 3; SetProgram 11;
           SetProgram 0; DestroyProgramObject 11 ].
Proof. vm_compute. reflexivity. Qed.

End KernelDescriptors.

(** ** Constant buffers *)

Module ConstantBuffer.

Local Open Scope Z_scope.

(** The memory the CPU writes, by address, one byte each. *)
Definition memory := Z -> Z.

(** [memcpy] of the bytes [src] to the address [dst]. *)
Definition memcpy (mem : memory) (dst : Z) (src : list Z) : memory :=
  fun a =>
    if (dst <=? a) && (a <? dst + Z.of_nat (length src))
    then nth (Z.to_nat (a - dst)) src 0
    else mem a.

(** The fields of [ConstantBuffer] besides the reference to the managed
    buffer, which the functions are passed. *)
Record ConstantBuffer := {
  sys_mem_copy_ : list Z;
  size_ : Z
}.

(** [ConstantBuffer::Create]; [allocated] tells whether
    [amd::AlignedMemory::allocate] returned memory. *)
Definition Create (size : Z) (allocated : bool) : option ConstantBuffer :=
  if allocated
  then Some {| sys_mem_copy_ := replicate (Z.to_nat size) 0; size_ := size |}
  else None.

(** [ConstantBuffer::UploadDataToHw]: the managed buffer and the memory
    afterwards and the GPU address it returns; [None] when [memcpy] would read
    behind the system memory copy. *)
Definition UploadDataToHw (MaxNumberOfBuffers : nat)
    (mbuf_ : ManagedBuffer.ManagedBuffer) (cb : ConstantBuffer) (mem : memory)
    (size : Z) : option (ManagedBuffer.ManagedBuffer * memory * Z) :=
  let r := ManagedBuffer.reserve MaxNumberOfBuffers mbuf_ size in
  let cpu_address := ManagedBuffer.cpu_address (snd r) in
  let vm_address := ManagedBuffer.gpu_address (snd r) in
  if (size <=? Z.of_nat (length (sys_mem_copy_ cb))) && (0 <=? size) then
    Some (fst r,
          memcpy mem cpu_address (take (Z.to_nat size) (sys_mem_copy_ cb)),
          vm_address)
  else None.

(** The CPU address at which the active slab shows the byte the GPU sees at
    [vm_address]. *)
Definition mapped_at (mbuf_ : ManagedBuffer.ManagedBuffer) (vm_address : Z)
    : Z :=
  ManagedBuffer.data (ManagedBuffer.slab mbuf_)
  + (vm_address - ManagedBuffer.vmAddress (ManagedBuffer.slab mbuf_)).

Definition constants (bytes : list Z) : ConstantBuffer :=
  {| sys_mem_copy_ := bytes; size_ := Z.of_nat (length bytes) |}.

(** *** Properties *)

Lemma memcpy_inside (mem : memory) (dst : Z) (src : list Z) (i : Z) :
  0 <= i < Z.of_nat (length src) ->
  memcpy mem dst src (dst + i) = nth (Z.to_nat i) src 0.
Proof.
  intros Hi. unfold memcpy.
  destruct (Z.leb_spec dst (dst + i)); [|lia].
  destruct (Z.ltb_spec (dst + i) (dst + Z.of_nat (length src))); [|lia].
  cbn [andb]. f_equal. lia.
Qed.

Lemma memcpy_outside (mem : memory) (dst : Z) (src : list Z) (a : Z) :
  a < dst \/ dst + Z.of_nat (length src) <= a ->
  memcpy mem dst src a = mem a.
Proof.
  intros Ha. unfold memcpy.
  destruct (Z.leb_spec dst a); [|reflexivity].
  destruct (Z.ltb_spec a (dst + Z.of_nat (length src))); [lia | reflexivity].
Qed.

Lemma nth_take_lt (l : list Z) (n i : nat) :
  (i < n)%nat -> nth i (take n l) 0 = nth i l 0.
Proof.
  revert n i. induction l as [|x l IH]; intros [|n] [|i] H; try reflexivity;
    try lia.
  cbn. apply IH. lia.
Qed.

(** X24.  Two uploads that fit behind the cursor of the active slab do not
    disturb each other: both succeed, the second is placed behind the
    aligned size of the first, and afterwards the bytes of each constant
    buffer are in memory where the slab shows the GPU address that its upload
    returned. *)
Theorem uploads_keep_their_data (N : nat) (mbuf : ManagedBuffer.ManagedBuffer)
    (cb1 cb2 : ConstantBuffer) (mem : memory) (size1 size2 : Z) :
  ManagedBuffer.ManagedBuffer_ok N mbuf ->
  ManagedBuffer.cursor_in_slab mbuf ->
  0 <= size1 <= Z.of_nat (length (sys_mem_copy_ cb1)) ->
  0 <= size2 <= Z.of_nat (length (sys_mem_copy_ cb2)) ->
  ManagedBuffer.wrtOffset_ mbuf
  + ManagedBuffer.alignUp size1 ManagedBuffer.MemAlignment
  + ManagedBuffer.alignUp size2 ManagedBuffer.MemAlignment
  <= ManagedBuffer.size_ mbuf ->
  exists mbuf1 mem1 vm1 mbuf2 mem2 vm2,
    UploadDataToHw N mbuf cb1 mem size1 = Some (mbuf1, mem1, vm1)
    /\ UploadDataToHw N mbuf1 cb2 mem1 size2 = Some (mbuf2, mem2, vm2)
    /\ vm2 = vm1 + ManagedBuffer.alignUp size1 ManagedBuffer.MemAlignment
    /\ (forall i, 0 <= i < size1 ->
          mem2 (mapped_at mbuf vm1 + i)
          = nth (Z.to_nat i) (sys_mem_copy_ cb1) 0)
    /\ (forall i, 0 <= i < size2 ->
          mem2 (mapped_at mbuf vm2 + i)
          = nth (Z.to_nat i) (sys_mem_copy_ cb2) 0).
Proof.
  intros Hok Hcur Hs1 Hs2 Hfit.
  pose proof (ManagedBuffer.alignUp_ge size1) as Ha1.
  pose proof (ManagedBuffer.alignUp_ge size2) as Ha2.
  pose proof Hcur as [Hc1 Hc2].
  pose proof Hok as (_ & _ & Hsz & Hoff & _ & _ & _).
  assert (H32 : 0 <= size1 < 2 ^ 32 /\ 0 <= size2 < 2 ^ 32) by lia.
  destruct H32 as [H1 H2].
  pose proof (ManagedBuffer.reserve_ok N mbuf size1 Hok) as Hok1.
  rewrite (Reservations.reserve_in_place N mbuf size1 Hok Hcur H1) in Hok1
    by lia.
  cbn [fst] in Hok1.
  set (mbuf1 := {| ManagedBuffer.buffers_ := ManagedBuffer.buffers_ mbuf |})
    in *.
  assert (Hcur1 : ManagedBuffer.cursor_in_slab mbuf1)
    by (split; cbn; lia).
  set (cpu := ManagedBuffer.data (ManagedBuffer.slab mbuf)
              + ManagedBuffer.wrtOffset_ mbuf).
  set (vm := ManagedBuffer.vmAddress (ManagedBuffer.slab mbuf)
             + ManagedBuffer.wrtOffset_ mbuf).
  set (a1 := ManagedBuffer.alignUp size1 ManagedBuffer.MemAlignment) in *.
  set (bytes1 := take (Z.to_nat size1) (sys_mem_copy_ cb1)).
  set (bytes2 := take (Z.to_nat size2) (sys_mem_copy_ cb2)).
  assert (E1 : UploadDataToHw N mbuf cb1 mem size1
               = Some (mbuf1, memcpy mem cpu bytes1, vm)).
  { unfold UploadDataToHw. cbv zeta.
    rewrite (Reservations.reserve_in_place N mbuf size1 Hok Hcur H1) by lia.
    cbn [fst snd ManagedBuffer.cpu_address ManagedBuffer.gpu_address].
    destruct (Z.leb_spec size1 (Z.of_nat (length (sys_mem_copy_ cb1))));
      [|lia].
    destruct (Z.leb_spec 0 size1); [|lia]. reflexivity. }
  assert (E2 : UploadDataToHw N mbuf1 cb2 (memcpy mem cpu bytes1) size2
               = Some ({| ManagedBuffer.buffers_ := ManagedBuffer.buffers_ mbuf;
                          ManagedBuffer.activeBuffer_ :=
                            ManagedBuffer.activeBuffer_ mbuf;
                          ManagedBuffer.size_ := ManagedBuffer.size_ mbuf;
                          ManagedBuffer.wrtOffset_ :=
                            ManagedBuffer.wrtOffset_ mbuf + a1
                            + ManagedBuffer.alignUp size2
                                ManagedBuffer.MemAlignment;
                          ManagedBuffer.wrtAddress_ :=
                            ManagedBuffer.wrtAddress_ mbuf |},
                       memcpy (memcpy mem cpu bytes1) (cpu + a1) bytes2,
                       vm + a1)).
  { unfold UploadDataToHw. cbv zeta.
    rewrite (Reservations.reserve_in_place N mbuf1 size2 Hok1 Hcur1 H2)
      by (cbn; lia).
    cbn [fst snd ManagedBuffer.cpu_address ManagedBuffer.gpu_address].
    destruct (Z.leb_spec size2 (Z.of_nat (length (sys_mem_copy_ cb2))));
      [|lia].
    destruct (Z.leb_spec 0 size2); [|lia]. cbn [andb].
    change (ManagedBuffer.slab mbuf1) with (ManagedBuffer.slab mbuf).
    cbn [mbuf1 ManagedBuffer.wrtOffset_ ManagedBuffer.buffers_
         ManagedBuffer.activeBuffer_ ManagedBuffer.size_
         ManagedBuffer.wrtAddress_].
    unfold cpu, vm. now rewrite !Z.add_assoc. }
  do 6 eexists. split; [exact E1|]. split; [exact E2|]. split; [reflexivity|].
  assert (Hl1 : Z.of_nat (length bytes1) = size1)
    by (unfold bytes1; rewrite length_take; lia).
  assert (Hl2 : Z.of_nat (length bytes2) = size2)
    by (unfold bytes2; rewrite length_take; lia).
  unfold mapped_at. split.
  - intros i Hi. rewrite memcpy_outside by lia.
    replace (ManagedBuffer.data (ManagedBuffer.slab mbuf)
             + (vm - ManagedBuffer.vmAddress (ManagedBuffer.slab mbuf)) + i)
      with (cpu + i) by (unfold cpu, vm; lia).
    rewrite memcpy_inside by lia. apply nth_take_lt. lia.
  - intros i Hi.
    replace (ManagedBuffer.data (ManagedBuffer.slab mbuf)
             + (vm + a1 - ManagedBuffer.vmAddress (ManagedBuffer.slab mbuf))
             + i)
      with (cpu + a1 + i) by (unfold cpu, vm; lia).
    rewrite memcpy_inside by lia. apply nth_take_lt. lia.
Qed.

Lemma uploads_keep_their_data_witness :
  exists mbuf1 mem1 vm1 mbuf2 mem2 vm2,
    UploadDataToHw 3 (fst (ManagedBuffer.reserve 3 ManagedBuffer.staging 512))
      (constants [1; 2; 3]) (fun _ => 0) 3 = Some (mbuf1, mem1, vm1)
    /\ UploadDataToHw 3 mbuf1 (constants [7; 8]) mem1 2
       = Some (mbuf2, mem2, vm2)
    /\ vm2 = vm1 + ManagedBuffer.alignUp 3 ManagedBuffer.MemAlignment
    /\ (forall i, 0 <= i < 3 ->
          mem2 (mapped_at (fst (ManagedBuffer.reserve 3 ManagedBuffer.staging
                                  512)) vm1 + i)
          = nth (Z.to_nat i) [1; 2; 3] 0)
    /\ (forall i, 0 <= i < 2 ->
          mem2 (mapped_at (fst (ManagedBuffer.reserve 3 ManagedBuffer.staging
                                  512)) vm2 + i)
          = nth (Z.to_nat i) [7; 8] 0).
Proof.
  apply (uploads_keep_their_data 3
           (fst (ManagedBuffer.reserve 3 ManagedBuffer.staging 512))
           (constants [1; 2; 3]) (constants [7; 8]) (fun _ => 0) 3 2
           (ManagedBuffer.reserve_ok 3 ManagedBuffer.staging 512
              ManagedBuffer.staging_ok)).
  - split; vm_compute; [discriminate | reflexivity].
  - cbn. lia.
  - cbn. lia.
  - vm_compute. discriminate.
Defined.

End ConstantBuffer.
